(** * Bulk import, export and role-scoped reads of the client store

    A shallow embedding of the Express handlers of [backend/server.js]
    that serve the client records (list, detail, delete, import, export,
    attachment listing) together with the zod schemas of
    [backend/zodschemas.js] they call, and the properties of the
    import/export pipeline proved about them.

    Conventions.
    - A JavaScript string is a [string], one character per code unit, so
      that [String.length] is the [.length] zod compares against.
    - A plain JavaScript object (a request body, a parsed CSV record, the
      query string) is a [gmap string value]; a key that is not bound is
      [undefined].
    - A table is the list of its rows; SQL [NULL] is [None].
    - What the handlers obtain from their libraries and from the database
      server (e-mail and URL shape, [Date] parsing, the CSV reader, text
      collation, [ILIKE], identifiers, clocks, availability) is collected
      in a [Platform], over which every definition is parametric. *)

From Stdlib Require Import ZArith Lia Ascii String.
From stdpp Require Import base option strings gmap list sorting pretty.

Local Open Scope string_scope.
Local Open Scope Z_scope.

(** ** JavaScript values and objects *)

Inductive value : Type :=
| VNull
| VBool (b : bool)
| VNum (n : Z)
| VStr (s : string).

Abbreviation object := (gmap string value).

(** The three states of an optional, nullable property of a parsed
    object. *)
Inductive opt (A : Type) : Type :=
| Undefined
| Null
| Val (a : A).
Arguments Undefined {A}.
Arguments Null {A}.
Arguments Val {A} a.

(** ** Rows of the relational store (the DDL of the [clients] and
    [client_attachments] tables; every column is [TEXT]) *)

Record ClientRow : Type := {
  client_id : string;
  full_name : string;
  phone : string;
  email : string;
  property_location : option string;
  property_type : option string;
  budget_range : option string;
  additional_preferences : option string;
  status : string;
  last_contact_date : option string;
  next_follow_up_date : option string;
  assigned_agent_id : option string;
  notes : option string;
  created_at : string;
  updated_at : string;
  deleted_at : option string
}.

Record AttachmentRow : Type := {
  attachment_id : string;
  att_client_id : string;
  uploaded_by : string;
  file_name : string;
  file_url : string;
  uploaded_at : string
}.

(** The store: the primary keys of [users] (the target of the foreign
    keys), the two tables, and the number of identifiers and database
    statements drawn so far, which indexes the platform's oracles. *)
Record World : Type := {
  users : list string;
  clients : list ClientRow;
  client_attachments : list AttachmentRow;
  tick : nat
}.

(** The payload of a verified bearer token, [req.user]. *)
Record User : Type := {
  user_id : string;
  role : string
}.

(** ** The platform *)

Record Platform : Type := {
  (** zod, [z.string().email()] *)
  is_email : string -> bool;
  (** zod, [z.string().url()] *)
  is_url : string -> bool;
  (** ECMAScript [Date.parse], in milliseconds; [None] is [NaN] *)
  Date_parse : string -> option Z;
  (** the text node-postgres sends for a [Date] parameter *)
  pg_date_text : Z -> string;
  (** the collation of [TEXT] columns under [ORDER BY] *)
  text_leb : string -> string -> bool;
  (** PostgreSQL, [text ILIKE pattern] *)
  ilike : string -> string -> bool;
  (** csv-parse with [{columns: true, trim: true}] *)
  csvParse : string -> string + list object;
  (** json2csv, [new Parser().parse(rows)]; [None] when it throws *)
  json2csv : list ClientRow -> option string;
  (** the n-th [uuidv4()] *)
  uuidv4 : nat -> string;
  (** [new Date().toISOString()] at the n-th draw *)
  now_iso : nat -> string;
  (** [CURRENT_TIMESTAMP], as text, at the n-th draw *)
  current_timestamp : nat -> string;
  (** whether the n-th [INSERT] reaches the database *)
  db_up : nat -> bool
}.

(** ** zod primitives *)

Module Zod.

(** [z.string().min(lo).max(hi)] *)
Definition string_min_max (lo hi : nat) (v : option value) : option string :=
  match v with
  | Some (VStr s) =>
      if bool_decide (lo ≤ String.length s ≤ hi)%nat then Some s else None
  | _ => None
  end.

(** [z.string().min(lo)] *)
Definition string_min (lo : nat) (v : option value) : option string :=
  match v with
  | Some (VStr s) =>
      if bool_decide (lo ≤ String.length s)%nat then Some s else None
  | _ => None
  end.

(** [z.string().email()] *)
Definition string_email (P : Platform) (v : option value) : option string :=
  match v with
  | Some (VStr s) => if is_email P s then Some s else None
  | _ => None
  end.

(** [z.string().nullable().optional()] *)
Definition string_nullable_optional (v : option value) : option (opt string) :=
  match v with
  | None => Some Undefined
  | Some VNull => Some Null
  | Some (VStr s) => Some (Val s)
  | Some _ => None
  end.

(** [new Date(v)]: a string is parsed, a number is a time value when it
    lies within 8.64e15 ms of the epoch, a boolean is first converted
    to a number. [None] is an invalid date. *)
Definition new_Date (P : Platform) (v : value) : option Z :=
  match v with
  | VStr s => Date_parse P s
  | VNum n => if bool_decide (Z.abs n ≤ 8640000000000000) then Some n else None
  | VBool b => Some (if b then 1 else 0)
  | VNull => Some 0
  end.

(** [z.coerce.date()] *)
Definition coerce_date (P : Platform) (v : option value) : option Z :=
  match v with
  | None => None
  | Some x => new_Date P x
  end.

(** [z.coerce.date().nullable()] *)
Definition coerce_date_nullable (P : Platform) (v : option value)
  : option (option Z) :=
  match v with
  | Some VNull => Some None
  | _ => Some <$> coerce_date P v
  end.

(** [z.coerce.date().nullable().optional()] *)
Definition coerce_date_nullable_optional (P : Platform) (v : option value)
  : option (opt Z) :=
  match v with
  | None => Some Undefined
  | Some VNull => Some Null
  | Some x => Val <$> new_Date P x
  end.

(** The path of the issue raised by a failed property, if any. *)
Definition issue {A} (path : string) (r : option A) : list string :=
  match r with
  | Some _ => []
  | None => [path]
  end.

End Zod.

(** ** [createClientInputSchema] *)

(** The object [createClientInputSchema.parse] returns. Keys the schema
    does not name are dropped by [z.object]. *)
Module Input.
Record t : Type := {
  full_name : string;
  phone : string;
  email : string;
  property_location : opt string;
  property_type : opt string;
  budget_range : opt string;
  additional_preferences : opt string;
  status : string;
  last_contact_date : opt Z;
  next_follow_up_date : opt Z;
  assigned_agent_id : opt string;
  notes : opt string
}.
End Input.

Section CreateClientInput.
Context (P : Platform).

Definition parse_fields (o : object) : option Input.t :=
  a ← Zod.string_min_max 1 255 (o !! "full_name");
  b ← Zod.string_min_max 7 20 (o !! "phone");
  c ← Zod.string_email P (o !! "email");
  d ← Zod.string_nullable_optional (o !! "property_location");
  e ← Zod.string_nullable_optional (o !! "property_type");
  f ← Zod.string_nullable_optional (o !! "budget_range");
  g ← Zod.string_nullable_optional (o !! "additional_preferences");
  h ← Zod.string_min 1 (o !! "status");
  i ← Zod.coerce_date_nullable_optional P (o !! "last_contact_date");
  j ← Zod.coerce_date_nullable_optional P (o !! "next_follow_up_date");
  k ← Zod.string_nullable_optional (o !! "assigned_agent_id");
  l ← Zod.string_nullable_optional (o !! "notes");
  Some {| Input.full_name := a; Input.phone := b; Input.email := c;
          Input.property_location := d; Input.property_type := e;
          Input.budget_range := f; Input.additional_preferences := g;
          Input.status := h; Input.last_contact_date := i;
          Input.next_follow_up_date := j; Input.assigned_agent_id := k;
          Input.notes := l |}.

(** The paths of the [ZodError], in the order of the schema's keys. *)
Definition issues (o : object) : list string :=
  Zod.issue "full_name" (Zod.string_min_max 1 255 (o !! "full_name")) ++
  Zod.issue "phone" (Zod.string_min_max 7 20 (o !! "phone")) ++
  Zod.issue "email" (Zod.string_email P (o !! "email")) ++
  Zod.issue "property_location"
    (Zod.string_nullable_optional (o !! "property_location")) ++
  Zod.issue "property_type"
    (Zod.string_nullable_optional (o !! "property_type")) ++
  Zod.issue "budget_range"
    (Zod.string_nullable_optional (o !! "budget_range")) ++
  Zod.issue "additional_preferences"
    (Zod.string_nullable_optional (o !! "additional_preferences")) ++
  Zod.issue "status" (Zod.string_min 1 (o !! "status")) ++
  Zod.issue "last_contact_date"
    (Zod.coerce_date_nullable_optional P (o !! "last_contact_date")) ++
  Zod.issue "next_follow_up_date"
    (Zod.coerce_date_nullable_optional P (o !! "next_follow_up_date")) ++
  Zod.issue "assigned_agent_id"
    (Zod.string_nullable_optional (o !! "assigned_agent_id")) ++
  Zod.issue "notes" (Zod.string_nullable_optional (o !! "notes")).

(** [createClientInputSchema.parse(o)]: the parsed object, or the
    thrown error's paths. *)
Definition createClientInputSchema (o : object) : list string + Input.t :=
  match parse_fields o with
  | Some data => inr data
  | None => inl (issues o)
  end.

Definition accepts (o : object) : bool :=
  match createClientInputSchema o with
  | inr _ => true
  | inl _ => false
  end.

(** [x || null] for a string property: [undefined], [null] and the
    empty string are falsy. *)
Definition or_null (x : opt string) : option string :=
  match x with
  | Val s => if bool_decide (s = "") then None else Some s
  | _ => None
  end.

(** [x || null] for a date property; a [Date] object is truthy, and
    is sent to the database as text. *)
Definition date_or_null (x : opt Z) : option string :=
  match x with
  | Val d => Some (pg_date_text P d)
  | _ => None
  end.

(** The [values] array of the import's [INSERT], as the row it
    creates; [deleted_at] is not listed and so is [NULL]. *)
Definition import_row (id now : string) (data : Input.t) : ClientRow :=
  {| client_id := id;
     full_name := Input.full_name data;
     phone := Input.phone data;
     email := Input.email data;
     property_location := or_null (Input.property_location data);
     property_type := or_null (Input.property_type data);
     budget_range := or_null (Input.budget_range data);
     additional_preferences := or_null (Input.additional_preferences data);
     status := Input.status data;
     last_contact_date := date_or_null (Input.last_contact_date data);
     next_follow_up_date := date_or_null (Input.next_follow_up_date data);
     assigned_agent_id := or_null (Input.assigned_agent_id data);
     notes := or_null (Input.notes data);
     created_at := now;
     updated_at := now;
     deleted_at := None |}.

End CreateClientInput.

(** ** Responses *)

Module Entity.
(** The object [clientEntitySchema.parse] returns: the row with its
    date columns coerced to [Date]s. *)
Record t : Type := {
  client_id : string;
  full_name : string;
  phone : string;
  email : string;
  property_location : option string;
  property_type : option string;
  budget_range : option string;
  additional_preferences : option string;
  status : string;
  last_contact_date : option Z;
  next_follow_up_date : option Z;
  assigned_agent_id : option string;
  notes : option string;
  created_at : Z;
  updated_at : Z;
  deleted_at : option Z
}.
End Entity.

Module AttachmentEntity.
Record t : Type := {
  attachment_id : string;
  client_id : string;
  uploaded_by : string;
  file_name : string;
  file_url : string;
  uploaded_at : Z
}.
End AttachmentEntity.

Inductive Response : Type :=
(** [res.status(status).json({ error })] from an explicit [return] *)
| Error (status : nat) (error : string)
(** [res.status(500).json({ error: error.message })] of a [catch] *)
| ServerError
(** [res.json({ message: "CSV import completed", successCount, errorCount })] *)
| ImportCompleted (successCount errorCount : nat)
(** [res.json(clients)] of the listing *)
| ClientList (clients : list Entity.t)
(** [res.json(client)] of the detail read *)
| ClientDetail (client : Entity.t)
(** [res.send(csv)] with [Content-Type: text/csv]; [rows] are the rows
    that were serialised *)
| Csv (rows : list ClientRow) (csv : string)
(** [res.json({ message })] *)
| Message (message : string)
(** [res.json(attachments)] *)
| AttachmentList (attachments : list AttachmentEntity.t)
(** [res.status(201).json(attachment)] *)
| AttachmentCreated (attachment : AttachmentEntity.t).

Definition status_code (r : Response) : nat :=
  match r with
  | Error status _ => status
  | ServerError => 500
  | AttachmentCreated _ => 201
  | _ => 200
  end.

(** ** The store's statements *)

Definition set_clients (w : World) (l : list ClientRow) : World :=
  {| users := users w; clients := l;
     client_attachments := client_attachments w; tick := tick w |}.

Definition set_client_attachments (w : World) (l : list AttachmentRow) : World :=
  {| users := users w; clients := clients w;
     client_attachments := l; tick := tick w |}.

(** One more identifier, timestamp and statement have been drawn. *)
Definition bump (w : World) : World :=
  {| users := users w; clients := clients w;
     client_attachments := client_attachments w; tick := S (tick w) |}.

Definition set_deleted_at (c : ClientRow) (t : option string) : ClientRow :=
  {| client_id := client_id c; full_name := full_name c; phone := phone c;
     email := email c; property_location := property_location c;
     property_type := property_type c; budget_range := budget_range c;
     additional_preferences := additional_preferences c; status := status c;
     last_contact_date := last_contact_date c;
     next_follow_up_date := next_follow_up_date c;
     assigned_agent_id := assigned_agent_id c; notes := notes c;
     created_at := created_at c; updated_at := updated_at c;
     deleted_at := t |}.

Section Store.
Context (P : Platform).

(** [INSERT INTO clients ...]: refused when the database is not
    reached, when the primary key is taken, or when [assigned_agent_id]
    names no user. *)
Definition insert_client (w : World) (r : ClientRow) : option World :=
  if db_up P (tick w)
     && bool_decide (client_id r ∉ client_id <$> clients w)
     && match assigned_agent_id r with
        | None => true
        | Some a => bool_decide (a ∈ users w)
        end
  then Some (set_clients w (clients w ++ [r]))
  else None.

(** [SELECT * FROM clients WHERE client_id = $1 AND deleted_at IS NULL] *)
Definition select_live_client (w : World) (id : string) : list ClientRow :=
  List.filter
    (λ c, bool_decide (client_id c = id) && bool_decide (deleted_at c = None))
    (clients w).

(** [UPDATE clients SET deleted_at = CURRENT_TIMESTAMP WHERE client_id = $1] *)
Definition soft_delete (w : World) (id : string) : World :=
  set_clients w
    ((λ c, if bool_decide (client_id c = id)
           then set_deleted_at c (Some (current_timestamp P (tick w)))
           else c) <$> clients w).

(** [SELECT * FROM client_attachments WHERE client_id = $1] *)
Definition select_attachments (w : World) (id : string) : list AttachmentRow :=
  List.filter (λ a, bool_decide (att_client_id a = id)) (client_attachments w).

End Store.

(** ** POST /clients/import *)

Inductive RowOutcome : Type :=
| Inserted
| Invalid (paths : list string)
| InsertFailed.

Section ImportHandler.
Context (P : Platform).

(** The body of the [for] loop for one record: validate, build the
    row, insert. Any exception lands in the loop's [catch]. *)
Definition import_record (w : World) (record : object) : World * RowOutcome :=
  match createClientInputSchema P record with
  | inl paths => (w, Invalid paths)
  | inr data =>
      let row := import_row P (uuidv4 P (tick w)) (now_iso P (tick w)) data in
      match insert_client P w row with
      | Some w' => (bump w', Inserted)
      | None => (bump w, InsertFailed)
      end
  end.

(** The loop, threading the store and the two counters. *)
Fixpoint import_records (w : World) (records : list object)
    (successCount errorCount : nat) : World * nat * nat :=
  match records with
  | [] => (w, successCount, errorCount)
  | record :: rest =>
      match import_record w record with
      | (w', Inserted) => import_records w' rest (S successCount) errorCount
      | (w', _) => import_records w' rest successCount (S errorCount)
      end
  end.

(** What happened to each record, in order. *)
Fixpoint import_trace (w : World) (records : list object) : list RowOutcome :=
  match records with
  | [] => []
  | record :: rest =>
      let '(w', out) := import_record w record in out :: import_trace w' rest
  end.

Definition inserted (out : RowOutcome) : bool :=
  match out with
  | Inserted => true
  | _ => false
  end.

Definition clients_import (w : World) (user : User) (file : option string)
  : World * Response :=
  if bool_decide (role user ≠ "manager")
  then (w, Error 403 "Only managers can import clients.")
  else match file with
       | None => (w, Error 400 "CSV file is required.")
       | Some buffer =>
           match csvParse P buffer with
           | inl err => (w, Error 400 err)
           | inr records =>
               let '(w', successCount, errorCount) :=
                 import_records w records 0 0 in
               (w', ImportCompleted successCount errorCount)
           end
       end.

End ImportHandler.

(** ** [searchClientQuerySchema] and the shared query of list and export *)

Record ClientQuery : Type := {
  query : option string;
  limit : Z;
  offset : Z;
  sort_by : string;
  sort_order : string
}.

(** [z.string().optional()] *)
Definition z_string_optional (v : option value) : option (option string) :=
  match v with
  | None => Some None
  | Some (VStr s) => Some (Some s)
  | Some _ => None
  end.

(** [z.number().int().positive().default(d)] and
    [z.number().int().nonnegative().default(d)], as [lo ≤ n]; the
    numbers of this model are integers. *)
Definition z_int_from_default (lo d : Z) (v : option value) : option Z :=
  match v with
  | None => Some d
  | Some (VNum n) => if bool_decide (lo ≤ n) then Some n else None
  | Some _ => None
  end.

(** [z.enum(options).default(d)] *)
Definition z_enum_default (options : list string) (d : string)
    (v : option value) : option string :=
  match v with
  | None => Some d
  | Some (VStr s) => if bool_decide (s ∈ options) then Some s else None
  | Some _ => None
  end.

Definition searchClientQuerySchema (o : object) : option ClientQuery :=
  a ← z_string_optional (o !! "query");
  b ← z_int_from_default 1 10 (o !! "limit");
  c ← z_int_from_default 0 0 (o !! "offset");
  d ← z_enum_default ["full_name"; "created_at"; "status"] "created_at"
        (o !! "sort_by");
  e ← z_enum_default ["asc"; "desc"] "desc" (o !! "sort_order");
  Some {| query := a; limit := b; offset := c; sort_by := d; sort_order := e |}.

(** [String.prototype.toUpperCase] on the letters a to z. *)
Definition upper_ascii (c : ascii) : ascii :=
  let n := nat_of_ascii c in
  if bool_decide (97 ≤ n ≤ 122)%nat then ascii_of_nat (n - 32) else c.

Fixpoint toUpperCase (s : string) : string :=
  match s with
  | EmptyString => EmptyString
  | String c s' => String (upper_ascii c) (toUpperCase s')
  end.

Definition allowedSortBy : list string :=
  ["client_id"; "full_name"; "created_at"; "updated_at"].

Definition allowedSortOrder : list string := ["ASC"; "DESC"].

(** The two whitelisting assignments of both handlers. *)
Definition whitelist_sort_by (sort_by : string) : string :=
  if bool_decide (sort_by ∈ allowedSortBy) then sort_by else "full_name".

Definition whitelist_sort_order (sort_order : string) : string :=
  if bool_decide (toUpperCase sort_order ∈ allowedSortOrder)
  then toUpperCase sort_order else "ASC".

(** The column an [ORDER BY] name denotes; the whitelist lets no other
    name reach the statement. *)
Definition order_column (name : string) : option (ClientRow → string) :=
  if bool_decide (name = "client_id") then Some client_id
  else if bool_decide (name = "full_name") then Some full_name
  else if bool_decide (name = "created_at") then Some created_at
  else if bool_decide (name = "updated_at") then Some updated_at
  else None.

Section Query.
Context (P : Platform).

(** The [WHERE] clause both handlers build: live rows, the caller's own
    rows for an agent, and the name filter when [searchQuery] is
    truthy. *)
Definition where_clause (user : User) (searchQuery : option string)
    (c : ClientRow) : bool :=
  bool_decide (deleted_at c = None)
  && (if bool_decide (role user = "agent")
      then bool_decide (assigned_agent_id c = Some (user_id user))
      else true)
  && match searchQuery with
     | None => true
     | Some q =>
         if bool_decide (q = "") then true
         else ilike P (full_name c) ("%" +:+ q +:+ "%")
     end.

(** [a] may precede [b] under [ORDER BY col dir]. *)
Definition row_leb (col : ClientRow → string) (dir : string)
    (a b : ClientRow) : bool :=
  if bool_decide (dir = "DESC")
  then text_leb P (col b) (col a)
  else text_leb P (col a) (col b).

Definition order_by (col : ClientRow → string) (dir : string)
    (rows : list ClientRow) : list ClientRow :=
  merge_sort (λ a b, Is_true (row_leb col dir a b)) rows.

(** [SELECT * FROM clients WHERE ... ORDER BY sort_by sort_order
    LIMIT limit OFFSET offset]; [None] when the statement is in error. *)
Definition select_clients (w : World) (user : User) (q : ClientQuery)
    (sort_by sort_order : string) : option (list ClientRow) :=
  col ← order_column sort_by;
  Some (take (Z.to_nat (limit q))
          (drop (Z.to_nat (offset q))
             (order_by col sort_order
                (List.filter (where_clause user (query q)) (clients w))))).

(** The rows both handlers read for a request, after parsing and
    whitelisting its query string. *)
Definition query_rows (w : World) (user : User) (req_query : object)
  : option (list ClientRow) :=
  q ← searchClientQuerySchema req_query;
  select_clients w user q
    (whitelist_sort_by (sort_by q)) (whitelist_sort_order (sort_order q)).

(** A column as node-postgres hands it to JavaScript. *)
Definition column_value (x : option string) : option value :=
  Some (match x with None => VNull | Some s => VStr s end).

(** [clientEntitySchema.parse(row)] *)
Definition clientEntitySchema (r : ClientRow) : option Entity.t :=
  a ← Zod.string_email P (Some (VStr (email r)));
  b ← Zod.coerce_date_nullable P (column_value (last_contact_date r));
  c ← Zod.coerce_date_nullable P (column_value (next_follow_up_date r));
  d ← Zod.coerce_date P (Some (VStr (created_at r)));
  e ← Zod.coerce_date P (Some (VStr (updated_at r)));
  f ← Zod.coerce_date_nullable P (column_value (deleted_at r));
  Some {| Entity.client_id := client_id r;
          Entity.full_name := full_name r;
          Entity.phone := phone r;
          Entity.email := a;
          Entity.property_location := property_location r;
          Entity.property_type := property_type r;
          Entity.budget_range := budget_range r;
          Entity.additional_preferences := additional_preferences r;
          Entity.status := status r;
          Entity.last_contact_date := b;
          Entity.next_follow_up_date := c;
          Entity.assigned_agent_id := assigned_agent_id r;
          Entity.notes := notes r;
          Entity.created_at := d;
          Entity.updated_at := e;
          Entity.deleted_at := f |}.

(** [clientAttachmentEntitySchema.parse(row)] *)
Definition clientAttachmentEntitySchema (r : AttachmentRow)
  : option AttachmentEntity.t :=
  if is_url P (file_url r) then
    d ← Zod.coerce_date P (Some (VStr (uploaded_at r)));
    Some {| AttachmentEntity.attachment_id := attachment_id r;
            AttachmentEntity.client_id := att_client_id r;
            AttachmentEntity.uploaded_by := uploaded_by r;
            AttachmentEntity.file_name := file_name r;
            AttachmentEntity.file_url := file_url r;
            AttachmentEntity.uploaded_at := d |}
  else None.

End Query.

(** ** The handlers that read and delete clients, and the attachment
    handlers. The request has passed [authenticateJWT]; [user] is
    [req.user]. Reads are modelled on a database that answers. *)

Section Handlers.
Context (P : Platform).

(** GET /clients *)
Definition clients_list (w : World) (user : User) (req_query : object)
  : Response :=
  match query_rows P w user req_query with
  | None => ServerError
  | Some rows =>
      match mapM (clientEntitySchema P) rows with
      | Some clients => ClientList clients
      | None => ServerError
      end
  end.

(** The handler registered for GET /clients/export *)
Definition clients_export (w : World) (user : User) (req_query : object)
  : Response :=
  match query_rows P w user req_query with
  | None => ServerError
  | Some rows =>
      match json2csv P rows with
      | Some csv => Csv rows csv
      | None => ServerError
      end
  end.

(** [req.user.role === 'agent' && client.assigned_agent_id !== req.user.user_id] *)
Definition foreign_to_agent (user : User) (client : ClientRow) : bool :=
  bool_decide (role user = "agent")
  && negb (bool_decide (assigned_agent_id client = Some (user_id user))).

(** GET /clients/:client_id *)
Definition clients_detail (w : World) (user : User) (id : string) : Response :=
  match select_live_client w id with
  | [] => Error 404 "Client not found"
  | client :: _ =>
      if foreign_to_agent user client then Error 403 "Forbidden"
      else match clientEntitySchema P client with
           | Some e => ClientDetail e
           | None => ServerError
           end
  end.

(** DELETE /clients/:client_id *)
Definition clients_delete (w : World) (user : User) (id : string)
  : World * Response :=
  match select_live_client w id with
  | [] => (w, Error 404 "Client not found")
  | currentClient :: _ =>
      if foreign_to_agent user currentClient then (w, Error 403 "Forbidden")
      else (bump (soft_delete P w id), Message "Client record soft-deleted.")
  end.

(** GET /clients/:client_id/attachments *)
Definition attachments_list (w : World) (user : User) (id : string)
  : Response :=
  match mapM (clientAttachmentEntitySchema P) (select_attachments w id) with
  | Some attachments => AttachmentList attachments
  | None => ServerError
  end.

(** [INSERT INTO client_attachments ... RETURNING *], under the table's
    primary and foreign keys. *)
Definition insert_attachment (w : World) (r : AttachmentRow) : option World :=
  if db_up P (tick w)
     && bool_decide (attachment_id r ∉ attachment_id <$> client_attachments w)
     && bool_decide (att_client_id r ∈ client_id <$> clients w)
     && bool_decide (uploaded_by r ∈ users w)
  then Some (set_client_attachments w (client_attachments w ++ [r]))
  else None.

(** POST /clients/:client_id/attachments; [file] is multer's
    [(originalname, filename)] when a file was sent. *)
Definition attachments_create (w : World) (user : User) (id : string)
    (file : option (string * string)) : World * Response :=
  match select_live_client w id with
  | [] => (w, Error 404 "Client not found")
  | client :: _ =>
      if foreign_to_agent user client then (w, Error 403 "Forbidden")
      else match file with
           | None => (w, Error 400 "File is required")
           | Some (originalname, filename) =>
               let row :=
                 {| attachment_id := uuidv4 P (tick w);
                    att_client_id := id;
                    uploaded_by := user_id user;
                    file_name := originalname;
                    file_url := "/attachments/" +:+ filename;
                    uploaded_at := now_iso P (tick w) |} in
               match insert_attachment w row with
               | None => (bump w, ServerError)
               | Some w' =>
                   match clientAttachmentEntitySchema P row with
                   | Some e => (bump w', AttachmentCreated e)
                   | None => (bump w', ServerError)
                   end
               end
           end
  end.

End Handlers.

(** ** Routing: the [app.METHOD(path, ...)] registrations of
    [server.js], in the order in which they are made. Express hands a
    request to the first registration whose method and path match; none
    of these handlers calls [next], so later registrations are not
    tried. Literal segments match without regard to case. *)

Inductive Method : Type := GET | POST | PUT | DELETE.

Inductive Seg : Type :=
| Lit (s : string)
| Par (name : string).

Inductive Pattern : Type :=
| Path (segs : list Seg)
| Star.

Inductive Endpoint : Type :=
| PostLogin | PostPasswordResetRequest | PostPasswordReset
| GetClients | GetClient | PostClients | PutClient | DeleteClient
| PostClientsImport | GetClientsExport
| GetCommunications | PostCommunications | PutCommunication
| GetAttachments | PostAttachments
| GetActivityLog | PostActivityLog
| GetSpa.

Definition routes : list (Method * Pattern * Endpoint) :=
  [ (POST, Path [Lit "login"], PostLogin);
    (POST, Path [Lit "password-reset-request"], PostPasswordResetRequest);
    (POST, Path [Lit "password-reset"], PostPasswordReset);
    (GET, Path [Lit "clients"], GetClients);
    (GET, Path [Lit "clients"; Par "client_id"], GetClient);
    (POST, Path [Lit "clients"], PostClients);
    (PUT, Path [Lit "clients"; Par "client_id"], PutClient);
    (DELETE, Path [Lit "clients"; Par "client_id"], DeleteClient);
    (POST, Path [Lit "clients"; Lit "import"], PostClientsImport);
    (GET, Path [Lit "clients"; Lit "export"], GetClientsExport);
    (GET, Path [Lit "clients"; Par "client_id"; Lit "communications"],
      GetCommunications);
    (POST, Path [Lit "clients"; Par "client_id"; Lit "communications"],
      PostCommunications);
    (PUT, Path [Lit "communications"; Par "log_id"], PutCommunication);
    (GET, Path [Lit "clients"; Par "client_id"; Lit "attachments"],
      GetAttachments);
    (POST, Path [Lit "clients"; Par "client_id"; Lit "attachments"],
      PostAttachments);
    (GET, Path [Lit "activity-log"], GetActivityLog);
    (POST, Path [Lit "activity-log"], PostActivityLog);
    (GET, Star, GetSpa) ].

#[global] Instance Method_eq_dec : EqDecision Method.
Proof. solve_decision. Defined.

(** The parameters bound when the segments match the path. *)
Fixpoint match_segs (segs : list Seg) (path : list string)
  : option (list (string * string)) :=
  match segs, path with
  | [], [] => Some []
  | Lit s :: segs', x :: path' =>
      if bool_decide (toUpperCase s = toUpperCase x)
      then match_segs segs' path' else None
  | Par name :: segs', x :: path' =>
      if bool_decide (x = "") then None
      else ((name, x) ::.) <$> match_segs segs' path'
  | _, _ => None
  end.

Definition match_pattern (p : Pattern) (path : list string)
  : option (list (string * string)) :=
  match p with
  | Path segs => match_segs segs path
  | Star => Some []
  end.

Fixpoint first_match (rs : list (Method * Pattern * Endpoint)) (m : Method)
    (path : list string) : option (Endpoint * list (string * string)) :=
  match rs with
  | [] => None
  | (m', p, ep) :: rs' =>
      if bool_decide (m' = m) then
        match match_pattern p path with
        | Some params => Some (ep, params)
        | None => first_match rs' m path
        end
      else first_match rs' m path
  end.

Definition route (m : Method) (path : list string)
  : option (Endpoint * list (string * string)) :=
  first_match routes m path.

(** [req.params[name]] *)
Definition param (name : string) (params : list (string * string)) : string :=
  default "" (snd <$> List.find (λ kv, bool_decide (kv.1 = name)) params).

(** An authenticated GET request, for the endpoints modelled here;
    [path] names no file of the static directories. *)
Definition serve_get (P : Platform) (w : World) (user : User)
    (path : list string) (req_query : object) : option Response :=
  match route GET path with
  | Some (GetClients, _) => Some (clients_list P w user req_query)
  | Some (GetClient, params) =>
      Some (clients_detail P w user (param "client_id" params))
  | Some (GetClientsExport, _) => Some (clients_export P w user req_query)
  | Some (GetAttachments, params) =>
      Some (attachments_list P w user (param "client_id" params))
  | _ => None
  end.

(** ** What a response shows *)

(** The identities of the client records in a response, in order. *)
Definition shown (r : Response) : list string :=
  match r with
  | ClientList l => Entity.client_id <$> l
  | ClientDetail e => [Entity.client_id e]
  | Csv rows _ => client_id <$> rows
  | _ => []
  end.

(** Their owners. *)
Definition owners (r : Response) : list (option string) :=
  match r with
  | ClientList l => Entity.assigned_agent_id <$> l
  | ClientDetail e => [Entity.assigned_agent_id e]
  | Csv rows _ => assigned_agent_id <$> rows
  | _ => []
  end.

(** Their names. *)
Definition names (r : Response) : list string :=
  match r with
  | ClientList l => Entity.full_name <$> l
  | ClientDetail e => [Entity.full_name e]
  | Csv rows _ => full_name <$> rows
  | _ => []
  end.

(** Case-sensitive lexicographic order, code unit by code unit. *)
Definition lex_le (a b : string) : Prop := String.leb a b = true.

(** ** A reference platform

    One concrete platform, on which the handlers can be run: e-mail
    addresses after the pattern of zod 3, URLs by their scheme, dates in
    the ISO formats [YYYY-MM-DD] and [YYYY-MM-DDTHH:MM:SSZ], code-unit
    order for text, a reader for unquoted comma-separated text. The
    theorems below are stated for every platform; this one supplies
    their instances and the concrete runs. *)

Module Ref.

Definition is_digit (c : ascii) : bool :=
  bool_decide (48 ≤ nat_of_ascii c ≤ 57)%nat.

Definition is_alpha (c : ascii) : bool :=
  bool_decide (65 ≤ nat_of_ascii c ≤ 90)%nat
  || bool_decide (97 ≤ nat_of_ascii c ≤ 122)%nat.

Definition is_alnum (c : ascii) : bool := is_alpha c || is_digit c.

Definition ascii_eqb (a b : ascii) : bool := bool_decide (a = b).

(** The pieces of [l] between the occurrences of [sep]. *)
Fixpoint split_on (sep : ascii) (l : list ascii) : list (list ascii) :=
  match l with
  | [] => [[]]
  | c :: l' =>
      if ascii_eqb c sep then [] :: split_on sep l'
      else match split_on sep l' with
           | [] => [[c]]
           | p :: ps => (c :: p) :: ps
           end
  end.

Fixpoint has_dot_dot (l : list ascii) : bool :=
  match l with
  | c :: (d :: _) as l' =>
      (ascii_eqb c "." && ascii_eqb d ".") || has_dot_dot l'
  | _ => false
  end.

Definition local_char (c : ascii) : bool :=
  is_alnum c || ascii_eqb c "_" || ascii_eqb c "'" || ascii_eqb c "+"
  || ascii_eqb c "-" || ascii_eqb c ".".

Definition local_last_char (c : ascii) : bool :=
  is_alnum c || ascii_eqb c "_" || ascii_eqb c "+" || ascii_eqb c "-".

Definition label_ok (l : list ascii) : bool :=
  match l with
  | [] => false
  | c :: l' => is_alnum c && forallb (λ d, is_alnum d || ascii_eqb d "-") l'
  end.

Definition tld_ok (l : list ascii) : bool :=
  forallb is_alpha l && bool_decide (2 ≤ length l)%nat.

Definition domain_ok (l : list ascii) : bool :=
  match reverse (split_on "." l) with
  | tld :: (_ :: _) as labels => tld_ok tld && forallb label_ok labels
  | _ => false
  end.

Definition is_email (s : string) : bool :=
  let l := list_ascii_of_string s in
  match split_on "@" l with
  | [loc; dom] =>
      negb (has_dot_dot l)
      && match loc with "."%char :: _ => false | _ => true end
      && forallb local_char loc
      && match last loc with Some c => local_last_char c | None => false end
      && domain_ok dom
  | _ => false
  end.

(** A scheme, then a colon. *)
Fixpoint after_scheme (l : list ascii) : bool :=
  match l with
  | [] => false
  | c :: l' =>
      if ascii_eqb c ":" then true
      else (is_alnum c || ascii_eqb c "+" || ascii_eqb c "-" || ascii_eqb c ".")
           && after_scheme l'
  end.

Definition is_url (s : string) : bool :=
  match list_ascii_of_string s with
  | c :: l => is_alpha c && after_scheme l
  | [] => false
  end.

(** Decimal numerals. *)
Definition digits_value (l : list ascii) : option Z :=
  if forallb is_digit l && negb (bool_decide (l = []))
  then Some (fold_left (λ acc c, (10 * acc + (Z.of_nat (nat_of_ascii c) - 48))%Z)
               l 0%Z)
  else None.

Definition days_from_civil (y m d : Z) : Z :=
  let y' := if bool_decide (m ≤ 2) then y - 1 else y in
  let era := y' / 400 in
  let yoe := y' - era * 400 in
  let mp := (m + 9) mod 12 in
  let doy := (153 * mp + 2) / 5 + d - 1 in
  let doe := yoe * 365 + yoe / 4 - yoe / 100 + doy in
  era * 146097 + doe - 719468.

Definition civil_from_days (z : Z) : Z * Z * Z :=
  let z' := z + 719468 in
  let era := z' / 146097 in
  let doe := z' - era * 146097 in
  let yoe := (doe - doe / 1460 + doe / 36524 - doe / 146096) / 365 in
  let doy := doe - (365 * yoe + yoe / 4 - yoe / 100) in
  let mp := (5 * doy + 2) / 153 in
  let d := doy - (153 * mp + 2) / 5 + 1 in
  let m := if bool_decide (mp < 10) then mp + 3 else mp - 9 in
  (yoe + era * 400 + (if bool_decide (m ≤ 2) then 1 else 0), m, d).

Definition parse_date (l : list ascii) : option Z :=
  match split_on "-" l with
  | [ys; ms; ds] =>
      y ← digits_value ys; m ← digits_value ms; d ← digits_value ds;
      if bool_decide (length ys = 4%nat ∧ length ms = 2%nat ∧ length ds = 2%nat
                      ∧ 1 ≤ m ≤ 12 ∧ 1 ≤ d ≤ 31)
      then Some (days_from_civil y m d * 86400000) else None
  | _ => None
  end.

Definition parse_time (l : list ascii) : option Z :=
  match split_on ":" l with
  | [hs; ms; ss] =>
      h ← digits_value hs; m ← digits_value ms; s ← digits_value ss;
      if bool_decide (length hs = 2%nat ∧ length ms = 2%nat ∧ length ss = 2%nat
                      ∧ h ≤ 23 ∧ m ≤ 59 ∧ s ≤ 59)
      then Some ((h * 3600 + m * 60 + s) * 1000) else None
  | _ => None
  end.

Definition Date_parse (s : string) : option Z :=
  match split_on "T" (list_ascii_of_string s) with
  | [date] => parse_date date
  | [date; time] =>
      match reverse time with
      | "Z"%char :: rtime =>
          d ← parse_date date; t ← parse_time (reverse rtime); Some (d + t)
      | _ => None
      end
  | _ => None
  end.

(** [n] in decimal, padded with zeros to [width] digits. *)
Definition pad (width : nat) (n : Z) : string :=
  let s := pretty (Z.to_nat n) in
  string_of_list_ascii (replicate (width - String.length s) "0"%char) +:+ s.

Definition pg_date_text (t : Z) : string :=
  let '(y, m, d) := civil_from_days (t / 86400000) in
  let ms := t mod 86400000 in
  pad 4 y +:+ "-" +:+ pad 2 m +:+ "-" +:+ pad 2 d +:+ "T"
  +:+ pad 2 (ms / 3600000) +:+ ":" +:+ pad 2 (ms / 60000 mod 60) +:+ ":"
  +:+ pad 2 (ms / 1000 mod 60) +:+ "." +:+ pad 3 (ms mod 1000) +:+ "+00:00".

Definition lower_ascii (c : ascii) : ascii :=
  let n := nat_of_ascii c in
  if bool_decide (65 ≤ n ≤ 90)%nat then ascii_of_nat (n + 32) else c.

(** [LIKE] without regard to case: [%] stands for any run of
    characters, [_] for any one. *)
Fixpoint like (p : list ascii) : list ascii → bool :=
  match p with
  | [] => λ t, bool_decide (t = [])
  | c :: p' =>
      if ascii_eqb c "%" then
        fix star (t : list ascii) : bool :=
          like p' t || match t with [] => false | _ :: t' => star t' end
      else if ascii_eqb c "_" then
        λ t, match t with [] => false | _ :: t' => like p' t' end
      else
        λ t, match t with
             | [] => false
             | d :: t' => ascii_eqb (lower_ascii c) (lower_ascii d) && like p' t'
             end
  end.

Definition ilike (text pattern : string) : bool :=
  like (list_ascii_of_string pattern) (list_ascii_of_string text).

(** The reader: lines at line feeds (a carriage return before one is
    dropped, as is one empty last line), fields at commas, blanks
    trimmed; the first line names the columns; a line with another
    number of fields is an error. *)
Definition LF : ascii := ascii_of_nat 10.
Definition CR : ascii := ascii_of_nat 13.

Definition is_blank (c : ascii) : bool :=
  ascii_eqb c " " || ascii_eqb c (ascii_of_nat 9).

Fixpoint trim_left (l : list ascii) : list ascii :=
  match l with
  | c :: l' => if is_blank c then trim_left l' else l
  | [] => []
  end.

Definition trim (l : list ascii) : list ascii :=
  reverse (trim_left (reverse (trim_left l))).

Definition chomp (l : list ascii) : list ascii :=
  match reverse l with
  | c :: l' => if ascii_eqb c CR then reverse l' else l
  | [] => []
  end.

Definition csv_lines (buffer : string) : list (list ascii) :=
  let ls := chomp <$> split_on LF (list_ascii_of_string buffer) in
  match reverse ls with
  | [] :: ls' => reverse ls'
  | _ => ls
  end.

Definition csv_fields (line : list ascii) : list string :=
  (λ f, string_of_list_ascii (trim f)) <$> split_on "," line.

Definition csv_record (columns : list string) (line : list ascii)
  : option object :=
  let fs := csv_fields line in
  if bool_decide (length fs = length columns)
  then Some (list_to_map (reverse (zip columns (VStr <$> fs))))
  else None.

Definition csvParse (buffer : string) : string + list object :=
  match csv_lines buffer with
  | [] => inr []
  | header :: rows =>
      match mapM (csv_record (csv_fields header)) rows with
      | Some records => inr records
      | None => inl "Invalid Record Length"
      end
  end.

(** The writer: a header of the column names, then one line per row;
    it throws on no rows, having no field list to fall back on. *)
Definition quote (s : string) : string :=
  let q := String (ascii_of_nat 34) EmptyString in q +:+ s +:+ q.

Definition csv_cell (x : option string) : string :=
  match x with
  | Some s => quote s
  | None => ""
  end.

Definition csv_header : string :=
  String.concat ","
    (quote <$> ["client_id"; "full_name"; "phone"; "email";
                "property_location"; "property_type"; "budget_range";
                "additional_preferences"; "status"; "last_contact_date";
                "next_follow_up_date"; "assigned_agent_id"; "notes";
                "created_at"; "updated_at"; "deleted_at"]).

Definition csv_row (c : ClientRow) : string :=
  String.concat ","
    [quote (client_id c); quote (full_name c); quote (phone c);
     quote (email c); csv_cell (property_location c);
     csv_cell (property_type c); csv_cell (budget_range c);
     csv_cell (additional_preferences c); quote (status c);
     csv_cell (last_contact_date c); csv_cell (next_follow_up_date c);
     csv_cell (assigned_agent_id c); csv_cell (notes c);
     quote (created_at c); quote (updated_at c); csv_cell (deleted_at c)].

Definition json2csv (rows : list ClientRow) : option string :=
  match rows with
  | [] => None
  | _ => Some (String.concat (String LF EmptyString)
                 (csv_header :: (csv_row <$> rows)))
  end.

Definition uuidv4 (n : nat) : string :=
  "00000000-0000-4000-8000-" +:+ pad 12 (Z.of_nat n).

End Ref.

Definition ref_platform : Platform :=
  {| is_email := Ref.is_email;
     is_url := Ref.is_url;
     Date_parse := Ref.Date_parse;
     pg_date_text := Ref.pg_date_text;
     text_leb := String.leb;
     ilike := Ref.ilike;
     csvParse := Ref.csvParse;
     json2csv := Ref.json2csv;
     uuidv4 := Ref.uuidv4;
     now_iso := λ _, "2024-01-01T00:00:00.000Z";
     current_timestamp := λ _, "2024-01-02 00:00:00+00";
     db_up := λ _, true |}.

(** ** Sample data *)

Definition alice : User := {| user_id := "user1"; role := "agent" |}.
Definition bob : User := {| user_id := "user2"; role := "agent" |}.
Definition charlie : User := {| user_id := "user3"; role := "manager" |}.

(** A row as the seed data has them. *)
Definition seed_client (id name mail created : string)
    (agent deleted : option string) : ClientRow :=
  {| client_id := id; full_name := name; phone := "1112223333";
     email := mail; property_location := Some "New York";
     property_type := Some "residential"; budget_range := None;
     additional_preferences := None; status := "new";
     last_contact_date := Some "2023-10-05T15:30:00Z";
     next_follow_up_date := None; assigned_agent_id := agent;
     notes := None; created_at := created;
     updated_at := created; deleted_at := deleted |}.

Definition empty_store : World :=
  {| users := ["user1"; "user2"; "user3"]; clients := [];
     client_attachments := []; tick := 0 |}.

Definition seeded_store : World :=
  {| users := ["user1"; "user2"; "user3"];
     clients :=
       [ seed_client "client1" "John Doe" "john.doe@example.com"
           "2023-10-05T15:00:00Z" (Some "user1") None;
         seed_client "client2" "Jane Smith" "jane.smith@example.com"
           "2023-10-06T11:45:00Z" (Some "user2") None;
         seed_client "client3" "Robert Brown" "robert.brown@example.com"
           "2023-10-07T09:00:00Z" None None;
         seed_client "client4" "Emily Davis" "emily.davis@example.com"
           "2023-10-08T10:00:00Z" (Some "user1")
           (Some "2023-11-01T00:00:00Z");
         seed_client "client5" "alice cooper" "alice.cooper@example.com"
           "2023-10-09T10:00:00Z" (Some "user1") None ];
     client_attachments := [];
     tick := 0 |}.

Definition line (s : string) : string := s +:+ String Ref.LF EmptyString.

(** Three data rows, the second without an e-mail address. *)
Definition three_rows : string :=
  line "full_name,phone,email,status"
  +:+ line "Ann Lee, 5551234567 ,ann@example.com,new"
  +:+ line "Bob Ray,5559876543,,new"
  +:+ line "Cy Poe,5550001111,cy@example.org,in-progress".

Definition obj (l : list (string * string)) : object :=
  list_to_map (prod_map id VStr <$> l).


(** The records of [three_rows]. *)
Definition three_records : list object :=
  [ obj [("full_name", "Ann Lee"); ("phone", "5551234567");
         ("email", "ann@example.com"); ("status", "new")];
    obj [("full_name", "Bob Ray"); ("phone", "5559876543");
         ("email", ""); ("status", "new")];
    obj [("full_name", "Cy Poe"); ("phone", "5550001111");
         ("email", "cy@example.org"); ("status", "in-progress")] ].

(** A record whose four required properties are present, not empty and
    well formed, with a five-digit phone number. *)
Definition short_phone : object :=
  obj [("full_name", "Ann Lee"); ("phone", "12345");
       ("email", "ann@example.com"); ("status", "new")].

(** A record that names only the required properties, all well
    formed. *)
Definition plain_record : object :=
  obj [("full_name", "Ann Lee"); ("phone", "5551234567");
       ("email", "ann@example.com"); ("status", "new")].

(** A record of a CSV with a [last_contact_date] column, the cell left
    empty. *)
Definition empty_date_cell : object :=
  obj [("full_name", "Ann Lee"); ("phone", "5551234567");
       ("email", "ann@example.com"); ("status", "new");
       ("last_contact_date", "")].

(** * The other handlers of the server *)

(** ** Further zod schemas *)

(** [schema.optional()]: [undefined] passes, anything else goes to the
    schema. *)
Definition z_optional {A} (schema : option value → option A)
    (v : option value) : option (option A) :=
  match v with
  | None => Some None
  | Some _ => Some <$> schema v
  end.

(** The object [updateClientInputSchema.parse] returns, without its
    [client_id]: a property the body does not name is [None] or
    [Undefined] and is no key of the object. *)
Module Update.
Record t : Type := {
  full_name : option string;
  phone : option string;
  email : option string;
  property_location : opt string;
  property_type : opt string;
  budget_range : opt string;
  additional_preferences : opt string;
  status : option string;
  last_contact_date : opt Z;
  next_follow_up_date : opt Z;
  assigned_agent_id : opt string;
  notes : opt string
}.
End Update.

(** [updateClientInputSchema.parse({ ...req.body, client_id })]; the
    [client_id] of the path is a string and always passes. *)
Definition updateClientInputSchema (P : Platform) (o : object)
  : option Update.t :=
  a ← z_optional (Zod.string_min_max 1 255) (o !! "full_name");
  b ← z_optional (Zod.string_min_max 7 20) (o !! "phone");
  c ← z_optional (Zod.string_email P) (o !! "email");
  d ← Zod.string_nullable_optional (o !! "property_location");
  e ← Zod.string_nullable_optional (o !! "property_type");
  f ← Zod.string_nullable_optional (o !! "budget_range");
  g ← Zod.string_nullable_optional (o !! "additional_preferences");
  h ← z_optional (Zod.string_min 1) (o !! "status");
  i ← Zod.coerce_date_nullable_optional P (o !! "last_contact_date");
  j ← Zod.coerce_date_nullable_optional P (o !! "next_follow_up_date");
  k ← Zod.string_nullable_optional (o !! "assigned_agent_id");
  l ← Zod.string_nullable_optional (o !! "notes");
  Some {| Update.full_name := a; Update.phone := b; Update.email := c;
          Update.property_location := d; Update.property_type := e;
          Update.budget_range := f; Update.additional_preferences := g;
          Update.status := h; Update.last_contact_date := i;
          Update.next_follow_up_date := j; Update.assigned_agent_id := k;
          Update.notes := l |}.

(** ** Replies of the other handlers *)

Inductive Reply : Type :=
(** one of the responses above *)
| Resp (r : Response)
(** [res.status(201).json(client)] of POST /clients *)
| ClientCreated (client : Entity.t)
(** [res.json(client)] of PUT /clients/:client_id *)
| ClientUpdated (client : Entity.t).

Definition reply_status (r : Reply) : nat :=
  match r with
  | Resp r => status_code r
  | ClientCreated _ => 201
  | ClientUpdated _ => 200
  end.

(** ** POST /clients and PUT /clients/:client_id *)

Section ClientWrites.
Context (P : Platform).

(** [if (req.user.role === 'agent' && !parsedBody.assigned_agent_id)
    parsedBody.assigned_agent_id = req.user.user_id] *)
Definition assign_to_creator (user : User) (data : Input.t) : Input.t :=
  if bool_decide (role user = "agent")
     && bool_decide (or_null (Input.assigned_agent_id data) = None)
  then {| Input.full_name := Input.full_name data;
          Input.phone := Input.phone data;
          Input.email := Input.email data;
          Input.property_location := Input.property_location data;
          Input.property_type := Input.property_type data;
          Input.budget_range := Input.budget_range data;
          Input.additional_preferences := Input.additional_preferences data;
          Input.status := Input.status data;
          Input.last_contact_date := Input.last_contact_date data;
          Input.next_follow_up_date := Input.next_follow_up_date data;
          Input.assigned_agent_id := Val (user_id user);
          Input.notes := Input.notes data |}
  else data.

(** POST /clients. The [values] array is the one of the import, so the
    row is built by [import_row]; [RETURNING *] hands back the row that
    was inserted. *)
Definition clients_create (w : World) (user : User) (body : object)
  : World * Reply :=
  match createClientInputSchema P body with
  | inl _ => (w, Resp ServerError)
  | inr parsedBody =>
      let row :=
        import_row P (uuidv4 P (tick w)) (now_iso P (tick w))
          (assign_to_creator user parsedBody) in
      match insert_client P w row with
      | None => (bump w, Resp ServerError)
      | Some w' =>
          match clientEntitySchema P row with
          | Some client => (bump w', ClientCreated client)
          | None => (bump w', Resp ServerError)
          end
      end
  end.

(** The assignments [key = $n] of the [UPDATE]: a key of [parsedBody]
    sets its column to the value it holds, [null] included; a [Date] is
    sent as text. *)
Definition set_text (x : option string) (old : string) : string :=
  default old x.

Definition set_nullable (x : opt string) (old : option string)
  : option string :=
  match x with
  | Undefined => old
  | Null => None
  | Val s => Some s
  end.

Definition set_date (x : opt Z) (old : option string) : option string :=
  match x with
  | Undefined => old
  | Null => None
  | Val d => Some (pg_date_text P d)
  end.

Definition update_row (u : Update.t) (now : string) (c : ClientRow)
  : ClientRow :=
  {| client_id := client_id c;
     full_name := set_text (Update.full_name u) (full_name c);
     phone := set_text (Update.phone u) (phone c);
     email := set_text (Update.email u) (email c);
     property_location :=
       set_nullable (Update.property_location u) (property_location c);
     property_type := set_nullable (Update.property_type u) (property_type c);
     budget_range := set_nullable (Update.budget_range u) (budget_range c);
     additional_preferences :=
       set_nullable (Update.additional_preferences u)
         (additional_preferences c);
     status := set_text (Update.status u) (status c);
     last_contact_date :=
       set_date (Update.last_contact_date u) (last_contact_date c);
     next_follow_up_date :=
       set_date (Update.next_follow_up_date u) (next_follow_up_date c);
     assigned_agent_id :=
       set_nullable (Update.assigned_agent_id u) (assigned_agent_id c);
     notes := set_nullable (Update.notes u) (notes c);
     created_at := created_at c;
     updated_at := now;
     deleted_at := deleted_at c |}.

(** The foreign key of [assigned_agent_id], as the [UPDATE] meets it. *)
Definition agent_known (w : World) (u : Update.t) : bool :=
  match Update.assigned_agent_id u with
  | Val a => bool_decide (a ∈ users w)
  | _ => true
  end.

(** [UPDATE clients SET ..., updated_at = CURRENT_TIMESTAMP
    WHERE client_id = $n RETURNING *]: the table afterwards and the
    rows returned. *)
Definition update_clients (w : World) (id : string) (u : Update.t)
  : World * list ClientRow :=
  let now := current_timestamp P (tick w) in
  let change c := if bool_decide (client_id c = id)
                  then update_row u now c else c in
  (set_clients w (change <$> clients w),
   update_row u now
     <$> List.filter (λ c, bool_decide (client_id c = id)) (clients w)).

(** PUT /clients/:client_id *)
Definition clients_update (w : World) (user : User) (id : string)
    (body : object) : World * Reply :=
  match updateClientInputSchema P body with
  | None => (w, Resp ServerError)
  | Some parsedBody =>
      match select_live_client w id with
      | [] => (w, Resp (Error 404 "Client not found"))
      | currentClient :: _ =>
          if foreign_to_agent user currentClient
          then (w, Resp (Error 403 "Forbidden"))
          else if agent_known w parsedBody then
            let '(w', rows) := update_clients w id parsedBody in
            match rows with
            | row :: _ =>
                match clientEntitySchema P row with
                | Some client => (bump w', ClientUpdated client)
                | None => (bump w', Resp ServerError)
                end
            | [] => (bump w', Resp ServerError)
            end
          else (w, Resp ServerError)
      end
  end.

End ClientWrites.

(** The constraints the two tables declare: their primary keys, the
    foreign key from [clients.assigned_agent_id] to [users], and the
    foreign keys from [client_attachments.client_id] to [clients] and
    from [client_attachments.uploaded_by] to [users]. *)
Definition store_ok (w : World) : Prop :=
  NoDup (client_id <$> clients w)
  ∧ (∀ c a, c ∈ clients w → assigned_agent_id c = Some a → a ∈ users w)
  ∧ NoDup (attachment_id <$> client_attachments w)
  ∧ (∀ a, a ∈ client_attachments w →
       att_client_id a ∈ client_id <$> clients w ∧ uploaded_by a ∈ users w).

(** [w'] is [w] after statements that keep the users, only add client
    identities and attachments at the end, and keep the constraints. *)
Definition grows (w w' : World) : Prop :=
  users w' = users w
  ∧ client_id <$> clients w `prefix_of` client_id <$> clients w'
  ∧ client_attachments w `prefix_of` client_attachments w'
  ∧ (store_ok w → store_ok w').

(** ** [authenticateJWT] and the requests to the client routes *)

(** The pieces of [s] between its spaces, [s.split(" ")]. *)
Definition split_spaces (s : string) : list string :=
  string_of_list_ascii <$> Ref.split_on " " (list_ascii_of_string s).

(** [authenticateJWT]; [jwt_verify] is [jwt.verify(token, JWT_SECRET)],
    giving the payload of a token it accepts. The middleware answers
    itself, or lets the request through with [req.user] set. *)
Definition authenticateJWT (jwt_verify : string → option User)
    (authorization : option string) : Response + User :=
  match authorization with
  | Some authHeader =>
      if String.prefix "Bearer " authHeader then
        match jwt_verify (default "" (split_spaces authHeader !! 1%nat)) with
        | Some user => inr user
        | None => inl (Error 403 "Forbidden")
        end
      else inl (Error 401 "Unauthorized")
  | None => inl (Error 401 "Unauthorized")
  end.

(** What multer leaves in [req.file]. *)
Record File : Type := {
  originalname : string;
  filename : string;
  buffer : string
}.

Record Request : Type := {
  method : Method;
  path : list string;
  authorization : option string;
  req_query : object;
  req_body : object;
  req_file : option File
}.

(** A request to one of the client routes that the body parsers and,
    on the two upload routes, multer have let through ([req_body] and
    [req_file] are what they leave; see [application] for what comes
    before): routed, authenticated, handled. Other routes are not
    modelled and give [None]. *)
Definition serve (P : Platform) (jwt_verify : string → option User)
    (w : World) (req : Request) : option (World * Reply) :=
  match route (method req) (path req) with
  | Some (ep, params) =>
      let cid := param "client_id" params in
      let guarded (h : User → World * Reply) :=
        match authenticateJWT jwt_verify (authorization req) with
        | inl r => Some (w, Resp r)
        | inr user => Some (h user)
        end in
      match ep with
      | GetClients =>
          guarded (λ user, (w, Resp (clients_list P w user (req_query req))))
      | GetClient => guarded (λ user, (w, Resp (clients_detail P w user cid)))
      | PostClients => guarded (λ user, clients_create P w user (req_body req))
      | PutClient =>
          guarded (λ user, clients_update P w user cid (req_body req))
      | DeleteClient =>
          guarded (λ user, prod_map (λ x, x) Resp (clients_delete P w user cid))
      | PostClientsImport =>
          guarded (λ user,
            prod_map (λ x, x) Resp
              (clients_import P w user (buffer <$> req_file req)))
      | GetClientsExport =>
          guarded (λ user, (w, Resp (clients_export P w user (req_query req))))
      | GetAttachments =>
          guarded (λ user, (w, Resp (attachments_list P w user cid)))
      | PostAttachments =>
          guarded (λ user,
            prod_map (λ x, x) Resp
              (attachments_create P w user cid
                 ((λ f, (originalname f, filename f)) <$> req_file req)))
      | _ => None
      end
  | None => None
  end.

(** ** The application: body parsers, routes, middleware *)

(** The body of a request, as the parsers mounted before the routes
    ([express.json()], [express.urlencoded()]) and multer find it. *)
Inductive Payload : Type :=
(** no body, or a JSON or URL-encoded body the parsers accept; it is
    [req.body] *)
| Parsed (body : object)
(** a body a parser refuses, with the status of its error: 400 for
    malformed JSON, 413 for a body over the limit *)
| Unparsed (status : nat)
(** a [multipart/form-data] body: its text fields, and its file parts
    in order, each under its field name *)
| Multipart (fields : object) (files : list (string * File)).

Record RawRequest : Type := {
  raw_method : Method;
  raw_path : list string;
  raw_authorization : option string;
  raw_query : object;
  payload : Payload
}.

(** What the application answers: the reply of a handler or of
    [authenticateJWT], or the response of the final error handler of
    Express, which carries the status of the error, 500 when it has
    none. *)
Inductive Answer : Type :=
| Handled (r : Reply)
| Failed (status : nat).


(** multer, [upload.single(name)]: [req.file] is the file part of the
    field [name], if there is one; a file part under another name, or
    a second one, is an error without a status. *)
Definition single (name : string) (files : list (string * File))
  : option (option File) :=
  match files with
  | [] => Some None
  | [(fieldname, file)] =>
      if bool_decide (fieldname = name) then Some (Some file) else None
  | _ :: _ :: _ => None
  end.

(** The routes that run [upload.single('file')] after
    [authenticateJWT]. *)
Definition upload_route (ep : Endpoint) : bool :=
  match ep with
  | PostClientsImport | PostAttachments => true
  | _ => false
  end.

Definition request_of (raw : RawRequest) (body : object) (file : option File)
  : Request :=
  {| method := raw_method raw; path := raw_path raw;
     authorization := raw_authorization raw; req_query := raw_query raw;
     req_body := body; req_file := file |}.

(** A request to one of the client routes, from the body parsers on.
    A body they refuse is answered before any route is tried. A
    multipart body is read by multer alone, on the upload routes, once
    [authenticateJWT] has let the request through; elsewhere
    [req.body] stays empty. *)
Definition application (P : Platform) (jwt_verify : string → option User)
    (w : World) (raw : RawRequest) : option (World * Answer) :=
  match payload raw with
  | Unparsed status => Some (w, Failed status)
  | Parsed body =>
      prod_map (λ x, x) Handled
        <$> serve P jwt_verify w (request_of raw body None)
  | Multipart fields files =>
      match route (raw_method raw) (raw_path raw) with
      | Some (ep, _) =>
          if upload_route ep then
            match authenticateJWT jwt_verify (raw_authorization raw) with
            | inl r => Some (w, Handled (Resp r))
            | inr _ =>
                match single "file" files with
                | Some file =>
                    prod_map (λ x, x) Handled
                      <$> serve P jwt_verify w (request_of raw fields file)
                | None => Some (w, Failed 500)
                end
            end
          else
            prod_map (λ x, x) Handled
              <$> serve P jwt_verify w (request_of raw ∅ None)
      | None => None
      end
  end.


(** ** A platform that reads the dates the server writes

    The reference platform with a [Date.parse] that also reads
    milliseconds and the zone [+00:00], as [toISOString] and
    node-postgres write them. *)

Definition Date_parse_ms (s : string) : option Z :=
  match Ref.Date_parse s with
  | Some t => Some t
  | None =>
      match Ref.split_on "." (list_ascii_of_string s) with
      | [front; back] =>
          t ← Ref.Date_parse (string_of_list_ascii (front ++ ["Z"%char]));
          ms ← Ref.digits_value (take 3 back);
          if bool_decide (drop 3 back = ["Z"%char])
             || bool_decide (drop 3 back = list_ascii_of_string "+00:00")
          then Some (t + ms) else None
      | _ => None
      end
  end.

Definition iso_platform : Platform :=
  {| is_email := Ref.is_email;
     is_url := Ref.is_url;
     Date_parse := Date_parse_ms;
     pg_date_text := Ref.pg_date_text;
     text_leb := String.leb;
     ilike := Ref.ilike;
     csvParse := Ref.csvParse;
     json2csv := Ref.json2csv;
     uuidv4 := Ref.uuidv4;
     now_iso := λ _, "2024-01-01T00:00:00.000Z";
     current_timestamp := λ _, "2024-01-02T00:00:00.000Z";
     db_up := λ _, true |}.

(** ** The callers in the views *)

(** The header the views send, [`Bearer ${auth_state.jwt_token}`]. *)
Definition bearer (jwt_token : string) : string := "Bearer " +:+ jwt_token.

(** The add-client view, [UV_AddClient]. *)
Module AddClient.

Record PropertyPreferences : Type := {
  location : string;
  property_type : string;
  budget : string;
  notes : string
}.

Record ClientData : Type := {
  full_name : string;
  phone : string;
  email : string;
  property_preferences : PropertyPreferences;
  attachments : list string
}.

(** [transformFormData]. Its last key, [attachments], holds an array;
    no schema of the server names that key and [z.object] drops it, so
    the object is given without it. *)
Definition transformFormData (data : ClientData) : object :=
  list_to_map
    [ ("full_name", VStr (full_name data));
      ("phone", VStr (phone data));
      ("email", VStr (email data));
      ("property_location", VStr (location (property_preferences data)));
      ("property_type", VStr (property_type (property_preferences data)));
      ("budget_range", VStr (budget (property_preferences data)));
      ("additional_preferences", VStr (notes (property_preferences data))) ].

(** The request of [createClientMutation]:
    [axios.post(`${baseUrl}/clients`, payload, { headers })]. *)
Definition createClient (jwt_token : string) (newClient : ClientData)
  : Request :=
  {| method := POST;
     path := ["clients"];
     authorization := Some (bearer jwt_token);
     req_query := ∅;
     req_body := transformFormData newClient;
     req_file := None |}.

End AddClient.

(** ** Sample requests *)

(** A verifier that accepts three tokens. *)
Definition sample_verify (token : string) : option User :=
  if bool_decide (token = "token-alice") then Some alice
  else if bool_decide (token = "token-bob") then Some bob
  else if bool_decide (token = "token-charlie") then Some charlie
  else None.

(** A JSON request without a file. *)
Definition json_request (m : Method) (p : list string)
    (header : option string) (body : object) : Request :=
  {| method := m; path := p; authorization := header;
     req_query := ∅; req_body := body; req_file := None |}.

Definition ann_form : AddClient.ClientData :=
  {| AddClient.full_name := "Ann Lee";
     AddClient.phone := "5551234567";
     AddClient.email := "ann@example.com";
     AddClient.property_preferences :=
       {| AddClient.location := "Boston"; AddClient.property_type := "";
          AddClient.budget := ""; AddClient.notes := "" |};
     AddClient.attachments := [] |}.

(** * The communication log and the activity log *)

(** ** Rows of [communications_log] and [activity_log] *)

Record CommunicationRow : Type := {
  log_id : string;
  log_client_id : string;
  created_by : string;
  communication_date : string;
  note : string;
  log_created_at : string;
  log_updated_at : option string
}.

Record ActivityRow : Type := {
  activity_id : string;
  act_user_id : string;
  act_client_id : option string;
  action_type : string;
  action_details : option string;
  timestamp : string
}.

(** The store with its two log tables. *)
Record Logs : Type := {
  store : World;
  communications_log : list CommunicationRow;
  activity_log : list ActivityRow
}.

Definition set_communications_log (db : Logs) (l : list CommunicationRow)
  : Logs :=
  {| store := store db; communications_log := l;
     activity_log := activity_log db |}.

Definition set_activity_log (db : Logs) (l : list ActivityRow) : Logs :=
  {| store := store db; communications_log := communications_log db;
     activity_log := l |}.

Definition bump_logs (db : Logs) : Logs :=
  {| store := bump (store db); communications_log := communications_log db;
     activity_log := activity_log db |}.

(** ** Their schemas *)

Module CommunicationEntity.
Record t : Type := {
  log_id : string;
  client_id : string;
  created_by : string;
  communication_date : Z;
  note : string;
  created_at : Z;
  updated_at : option Z
}.
End CommunicationEntity.

Module ActivityEntity.
Record t : Type := {
  activity_id : string;
  user_id : string;
  client_id : option string;
  action_type : string;
  action_details : option string;
  timestamp : Z
}.
End ActivityEntity.

(** What [createCommunicationsLogInputSchema.parse] returns, without
    the [client_id] of the path. *)
Module CommunicationInput.
Record t : Type := {
  created_by : string;
  communication_date : Z;
  note : string
}.
End CommunicationInput.

(** What [updateCommunicationsLogInputSchema.parse] returns, without
    the [log_id] of the path; [None] is a key the body does not name. *)
Module CommunicationUpdate.
Record t : Type := {
  client_id : option string;
  created_by : option string;
  communication_date : option Z;
  note : option string
}.
End CommunicationUpdate.

Module ActivityInput.
Record t : Type := {
  user_id : string;
  client_id : opt string;
  action_type : string;
  action_details : opt string;
  timestamp : Z
}.
End ActivityInput.

#[global] Instance value_eq_dec : EqDecision value.
Proof. solve_decision. Defined.

(** [z.string()] *)
Definition z_string (v : option value) : option string :=
  match v with
  | Some (VStr s) => Some s
  | _ => None
  end.

Inductive LogReply : Type :=
(** an error response, as above *)
| LogResp (r : Response)
(** [res.json(communications)] *)
| CommunicationList (communications : list CommunicationEntity.t)
(** [res.status(201).json(communicationLog)] *)
| CommunicationCreated (communicationLog : CommunicationEntity.t)
(** [res.json(...)] of PUT /communications/:log_id *)
| CommunicationUpdated (communicationLog : CommunicationEntity.t)
(** [res.json(activities)] *)
| ActivityList (activities : list ActivityEntity.t)
(** [res.status(201).json(...)] of POST /activity-log *)
| ActivityCreated (activity : ActivityEntity.t).

Definition log_status (r : LogReply) : nat :=
  match r with
  | LogResp r => status_code r
  | CommunicationCreated _ | ActivityCreated _ => 201
  | _ => 200
  end.

Definition searchActivityLogQuerySchema (o : object) : option ClientQuery :=
  a ← z_string_optional (o !! "query");
  b ← z_int_from_default 1 10 (o !! "limit");
  c ← z_int_from_default 0 0 (o !! "offset");
  d ← z_enum_default ["timestamp"; "action_type"] "timestamp" (o !! "sort_by");
  e ← z_enum_default ["asc"; "desc"] "desc" (o !! "sort_order");
  Some {| query := a; limit := b; offset := c; sort_by := d; sort_order := e |}.

(** The whitelist of GET /activity-log and the columns it names. *)
Definition allowedActivitySortBy : list string :=
  ["activity_id"; "user_id"; "timestamp"].

Definition whitelist_activity_sort_by (sort_by : string) : string :=
  if bool_decide (sort_by ∈ allowedActivitySortBy) then sort_by
  else "timestamp".

Definition activity_order_column (name : string)
  : option (ActivityRow → string) :=
  if bool_decide (name = "activity_id") then Some activity_id
  else if bool_decide (name = "user_id") then Some act_user_id
  else if bool_decide (name = "timestamp") then Some timestamp
  else None.

Section LogHandlers.
Context (P : Platform).

(** [communicationsLogEntitySchema.parse(row)] *)
Definition communicationsLogEntitySchema (r : CommunicationRow)
  : option CommunicationEntity.t :=
  a ← Zod.coerce_date P (Some (VStr (communication_date r)));
  b ← Zod.coerce_date P (Some (VStr (log_created_at r)));
  c ← Zod.coerce_date_nullable P (column_value (log_updated_at r));
  Some {| CommunicationEntity.log_id := log_id r;
          CommunicationEntity.client_id := log_client_id r;
          CommunicationEntity.created_by := created_by r;
          CommunicationEntity.communication_date := a;
          CommunicationEntity.note := note r;
          CommunicationEntity.created_at := b;
          CommunicationEntity.updated_at := c |}.

(** [activityLogEntitySchema.parse(row)] *)
Definition activityLogEntitySchema (r : ActivityRow)
  : option ActivityEntity.t :=
  a ← Zod.coerce_date P (Some (VStr (timestamp r)));
  Some {| ActivityEntity.activity_id := activity_id r;
          ActivityEntity.user_id := act_user_id r;
          ActivityEntity.client_id := act_client_id r;
          ActivityEntity.action_type := action_type r;
          ActivityEntity.action_details := action_details r;
          ActivityEntity.timestamp := a |}.

(** [createCommunicationsLogInputSchema.parse({ ...req.body, client_id })] *)
Definition createCommunicationsLogInputSchema (o : object)
  : option CommunicationInput.t :=
  a ← z_string (o !! "created_by");
  b ← Zod.coerce_date P (o !! "communication_date");
  c ← Zod.string_min 1 (o !! "note");
  Some {| CommunicationInput.created_by := a;
          CommunicationInput.communication_date := b;
          CommunicationInput.note := c |}.

(** [updateCommunicationsLogInputSchema.parse({ ...req.body, log_id })] *)
Definition updateCommunicationsLogInputSchema (o : object)
  : option CommunicationUpdate.t :=
  a ← z_optional z_string (o !! "client_id");
  b ← z_optional z_string (o !! "created_by");
  c ← z_optional (Zod.coerce_date P) (o !! "communication_date");
  d ← z_optional (Zod.string_min 1) (o !! "note");
  Some {| CommunicationUpdate.client_id := a;
          CommunicationUpdate.created_by := b;
          CommunicationUpdate.communication_date := c;
          CommunicationUpdate.note := d |}.

(** [createActivityLogInputSchema.parse(req.body)] *)
Definition createActivityLogInputSchema (o : object)
  : option ActivityInput.t :=
  a ← z_string (o !! "user_id");
  b ← Zod.string_nullable_optional (o !! "client_id");
  c ← Zod.string_min 1 (o !! "action_type");
  d ← Zod.string_nullable_optional (o !! "action_details");
  e ← Zod.coerce_date P (o !! "timestamp");
  Some {| ActivityInput.user_id := a; ActivityInput.client_id := b;
          ActivityInput.action_type := c; ActivityInput.action_details := d;
          ActivityInput.timestamp := e |}.

(** [SELECT * FROM communications_log WHERE client_id = $1
    ORDER BY communication_date DESC] *)
Definition select_communications (db : Logs) (id : string)
  : list CommunicationRow :=
  merge_sort
    (λ a b, Is_true (text_leb P (communication_date b) (communication_date a)))
    (List.filter (λ r, bool_decide (log_client_id r = id))
       (communications_log db)).

(** GET /clients/:client_id/communications *)
Definition communications_list (db : Logs) (user : User) (id : string)
  : LogReply :=
  match select_live_client (store db) id with
  | [] => LogResp (Error 404 "Client not found")
  | client :: _ =>
      if foreign_to_agent user client then LogResp (Error 403 "Forbidden")
      else match mapM communicationsLogEntitySchema
                   (select_communications db id) with
           | Some communications => CommunicationList communications
           | None => LogResp ServerError
           end
  end.

(** [INSERT INTO communications_log ... RETURNING *], under the table's
    primary and foreign keys. *)
Definition insert_communication (db : Logs) (r : CommunicationRow)
  : option Logs :=
  if db_up P (tick (store db))
     && bool_decide (log_id r ∉ log_id <$> communications_log db)
     && bool_decide (log_client_id r ∈ client_id <$> clients (store db))
     && bool_decide (created_by r ∈ users (store db))
  then Some (set_communications_log db (communications_log db ++ [r]))
  else None.

(** POST /clients/:client_id/communications. The text message that
    follows the insert is sent inside its own [try] and does not change
    the response. *)
Definition communications_create (db : Logs) (user : User) (id : string)
    (body : object) : Logs * LogReply :=
  match createCommunicationsLogInputSchema body with
  | None => (db, LogResp ServerError)
  | Some parsedBody =>
      let row :=
        {| log_id := uuidv4 P (tick (store db));
           log_client_id := id;
           created_by := user_id user;
           communication_date :=
             pg_date_text P (CommunicationInput.communication_date parsedBody);
           note := CommunicationInput.note parsedBody;
           log_created_at := now_iso P (tick (store db));
           log_updated_at := None |} in
      match insert_communication db row with
      | None => (bump_logs db, LogResp ServerError)
      | Some db' =>
          match communicationsLogEntitySchema row with
          | Some communicationLog =>
              (bump_logs db', CommunicationCreated communicationLog)
          | None => (bump_logs db', LogResp ServerError)
          end
      end
  end.

(** The assignments of the [UPDATE] of a communication. *)
Definition update_communication_row (u : CommunicationUpdate.t) (now : string)
    (r : CommunicationRow) : CommunicationRow :=
  {| log_id := log_id r;
     log_client_id := default (log_client_id r) (CommunicationUpdate.client_id u);
     created_by := default (created_by r) (CommunicationUpdate.created_by u);
     communication_date :=
       default (communication_date r)
         (pg_date_text P <$> CommunicationUpdate.communication_date u);
     note := default (note r) (CommunicationUpdate.note u);
     log_created_at := log_created_at r;
     log_updated_at := Some now |}.

(** The foreign keys of the columns the [UPDATE] sets. *)
Definition communication_keys_known (db : Logs) (u : CommunicationUpdate.t)
  : bool :=
  match CommunicationUpdate.client_id u with
  | Some c => bool_decide (c ∈ client_id <$> clients (store db))
  | None => true
  end
  && match CommunicationUpdate.created_by u with
     | Some a => bool_decide (a ∈ users (store db))
     | None => true
     end.

(** [UPDATE communications_log SET ..., updated_at = CURRENT_TIMESTAMP
    WHERE log_id = $n RETURNING *]: the table afterwards and the rows
    returned. *)
Definition update_communications (db : Logs) (id : string)
    (u : CommunicationUpdate.t) : Logs * list CommunicationRow :=
  let now := current_timestamp P (tick (store db)) in
  let change r := if bool_decide (log_id r = id)
                  then update_communication_row u now r else r in
  (set_communications_log db (change <$> communications_log db),
   update_communication_row u now
     <$> List.filter (λ r, bool_decide (log_id r = id)) (communications_log db)).

(** PUT /communications/:log_id; [result.rows[0]] is [undefined] when
    no row has the identity, and the schema then throws. *)
Definition communications_update (db : Logs) (user : User) (id : string)
    (body : object) : Logs * LogReply :=
  match updateCommunicationsLogInputSchema body with
  | None => (db, LogResp ServerError)
  | Some parsedBody =>
      match List.filter (λ r, bool_decide (log_id r = id))
              (communications_log db) with
      | [] => (bump_logs db, LogResp ServerError)
      | _ :: _ =>
          if communication_keys_known db parsedBody then
            let '(db', rows) := update_communications db id parsedBody in
            match rows with
            | row :: _ =>
                match communicationsLogEntitySchema row with
                | Some communicationLog =>
                    (bump_logs db', CommunicationUpdated communicationLog)
                | None => (bump_logs db', LogResp ServerError)
                end
            | [] => (bump_logs db', LogResp ServerError)
            end
          else (db, LogResp ServerError)
      end
  end.

(** [SELECT * FROM activity_log ORDER BY sort_by sort_order
    LIMIT $1 OFFSET $2]; [None] when the statement is in error. *)
Definition select_activities (db : Logs) (q : ClientQuery)
    (sort_by sort_order : string) : option (list ActivityRow) :=
  col ← activity_order_column sort_by;
  Some (take (Z.to_nat (limit q))
          (drop (Z.to_nat (offset q))
             (merge_sort
                (λ a b, Is_true
                          (if bool_decide (sort_order = "DESC")
                           then text_leb P (col b) (col a)
                           else text_leb P (col a) (col b)))
                (activity_log db)))).

(** GET /activity-log *)
Definition activity_list (db : Logs) (user : User) (req_query : object)
  : LogReply :=
  if bool_decide (role user ≠ "manager")
  then LogResp (Error 403 "Forbidden - manager access only")
  else
    match searchActivityLogQuerySchema req_query with
    | None => LogResp ServerError
    | Some parsedQuery =>
        match select_activities db parsedQuery
                (whitelist_activity_sort_by (sort_by parsedQuery))
                (whitelist_sort_order (sort_order parsedQuery)) with
        | None => LogResp ServerError
        | Some rows =>
            match mapM activityLogEntitySchema rows with
            | Some activities => ActivityList activities
            | None => LogResp ServerError
            end
        end
    end.

(** [INSERT INTO activity_log ... RETURNING *], under the table's
    primary and foreign keys. *)
Definition insert_activity (db : Logs) (r : ActivityRow) : option Logs :=
  if db_up P (tick (store db))
     && bool_decide (activity_id r ∉ activity_id <$> activity_log db)
     && bool_decide (act_user_id r ∈ users (store db))
     && match act_client_id r with
        | None => true
        | Some c => bool_decide (c ∈ client_id <$> clients (store db))
        end
  then Some (set_activity_log db (activity_log db ++ [r]))
  else None.

(** POST /activity-log *)
Definition activity_create (db : Logs) (user : User) (body : object)
  : Logs * LogReply :=
  match createActivityLogInputSchema body with
  | None => (db, LogResp ServerError)
  | Some parsedBody =>
      let row :=
        {| activity_id := uuidv4 P (tick (store db));
           act_user_id := user_id user;
           act_client_id := or_null (ActivityInput.client_id parsedBody);
           action_type := ActivityInput.action_type parsedBody;
           action_details := or_null (ActivityInput.action_details parsedBody);
           timestamp := now_iso P (tick (store db)) |} in
      match insert_activity db row with
      | None => (bump_logs db, LogResp ServerError)
      | Some db' =>
          match activityLogEntitySchema row with
          | Some activity => (bump_logs db', ActivityCreated activity)
          | None => (bump_logs db', LogResp ServerError)
          end
      end
  end.

End LogHandlers.

(** Sample logs: one note on each of the first two clients. *)
Definition seeded_logs : Logs :=
  {| store := seeded_store;
     communications_log :=
       [ {| log_id := "log1"; log_client_id := "client1";
            created_by := "user1";
            communication_date := "2023-10-05T16:00:00Z";
            note := "Called about the viewing";
            log_created_at := "2023-10-05T16:05:00Z";
            log_updated_at := None |};
         {| log_id := "log2"; log_client_id := "client2";
            created_by := "user2";
            communication_date := "2023-10-06T12:00:00Z";
            note := "Sent the brochure";
            log_created_at := "2023-10-06T12:05:00Z";
            log_updated_at := None |} ];
     activity_log :=
       [ {| activity_id := "act1"; act_user_id := "user1";
            act_client_id := Some "client1"; action_type := "create";
            action_details := None;
            timestamp := "2023-10-05T15:00:00Z" |};
         {| activity_id := "act2"; act_user_id := "user2";
            act_client_id := None; action_type := "login";
            action_details := None;
            timestamp := "2023-10-06T08:00:00Z" |} ] |}.

(** A note as a client of the API would post it. *)
Definition note_body : object :=
  obj [("created_by", "somebody"); ("communication_date", "2024-01-01T10:00:00Z");
       ("note", "Left a voice mail")].

(** What the schema makes of [note_body]. *)
Definition note_input : CommunicationInput.t :=
  {| CommunicationInput.created_by := "somebody";
     CommunicationInput.communication_date := 1704103200000;
     CommunicationInput.note := "Left a voice mail" |}.

(** A body that rewrites the note of an entry. *)
Definition note_patch : object := obj [("note", "Rewritten")].

(** An activity as a client of the API would post it. *)
Definition activity_body : object :=
  obj [("user_id", "somebody"); ("action_type", "view");
       ("timestamp", "2020-01-01T00:00:00Z")].

(** * Accounts: login and password reset *)

(** ** Rows of [users] and [password_reset_requests] *)

Record UserRow : Type := {
  acc_user_id : string;
  acc_name : string;
  acc_email : string;
  password_hash : string;
  acc_role : string;
  last_login_at : option string;
  is_active : bool;
  acc_created_at : string;
  acc_updated_at : string
}.

Record ResetRow : Type := {
  request_id : string;
  reset_user_id : string;
  reset_token : string;
  reset_created_at : string;
  expires_at : string;
  consumed : bool
}.

(** The two tables, and the number of identifiers, salts and
    timestamps drawn so far. *)
Record Accounts : Type := {
  user_rows : list UserRow;
  password_reset_requests : list ResetRow;
  draws : nat
}.

(** The payload of the token, and the [user] of the login response. *)
Record TokenPayload : Type := {
  payload_user_id : string;
  payload_name : string;
  payload_role : string
}.

(** What these handlers obtain from bcrypt, jsonwebtoken and the
    clock. *)
Record Auth : Type := {
  (** [bcrypt.compare(password, hash)] *)
  bcrypt_compare : string → string → bool;
  (** [bcrypt.hash(password, 10)] with the n-th salt *)
  bcrypt_hash : nat → string → string;
  (** [jwt.sign(payload, JWT_SECRET, { expiresIn: '1h' })] at the n-th
      draw; [None] when it throws, as it does without a secret *)
  jwt_sign : nat → TokenPayload → option string;
  (** [Date.now()] at the n-th draw, in milliseconds *)
  Date_now : nat → Z;
  (** [Date.prototype.toISOString] *)
  toISOString : Z → string
}.

Inductive AuthReply : Type :=
(** an error or a message, as above *)
| AuthResp (r : Response)
(** [res.json({ token, user: userData })] *)
| LoggedIn (token : string) (user : TokenPayload).

Definition auth_status (r : AuthReply) : nat :=
  match r with
  | AuthResp r => status_code r
  | LoggedIn _ _ => 200
  end.

Section AuthHandlers.
Context (P : Platform) (A : Auth).

(** [loginSchema.parse(req.body)] *)
Definition loginSchema (o : object) : option (string * string) :=
  email ← Zod.string_email P (o !! "email");
  password ← Zod.string_min 1 (o !! "password");
  Some (email, password).

(** [SELECT * FROM users WHERE email = $1] *)
Definition select_user_by_email (a : Accounts) (email : string)
  : list UserRow :=
  List.filter (λ u, bool_decide (acc_email u = email)) (user_rows a).

(** [UPDATE users SET last_login_at = CURRENT_TIMESTAMP,
    updated_at = CURRENT_TIMESTAMP WHERE user_id = $1] *)
Definition touch_login (a : Accounts) (id : string) : Accounts :=
  let now := current_timestamp P (draws a) in
  {| user_rows :=
       (λ u, if bool_decide (acc_user_id u = id)
             then {| acc_user_id := acc_user_id u; acc_name := acc_name u;
                     acc_email := acc_email u;
                     password_hash := password_hash u;
                     acc_role := acc_role u; last_login_at := Some now;
                     is_active := is_active u;
                     acc_created_at := acc_created_at u;
                     acc_updated_at := now |}
             else u) <$> user_rows a;
     password_reset_requests := password_reset_requests a;
     draws := S (draws a) |}.

(** POST /login *)
Definition login (a : Accounts) (body : object) : Accounts * AuthReply :=
  match loginSchema body with
  | None => (a, AuthResp ServerError)
  | Some (email, password) =>
      match select_user_by_email a email with
      | [] => (a, AuthResp (Error 401 "Invalid credentials"))
      | user :: _ =>
          if bcrypt_compare A password (password_hash user) then
            let tokenPayload :=
              {| payload_user_id := acc_user_id user;
                 payload_name := acc_name user;
                 payload_role := acc_role user |} in
            match jwt_sign A (draws a) tokenPayload with
            | Some token =>
                (touch_login a (acc_user_id user),
                 LoggedIn token tokenPayload)
            | None => (touch_login a (acc_user_id user), AuthResp ServerError)
            end
          else (a, AuthResp (Error 401 "Invalid credentials"))
      end
  end.

(** [INSERT INTO password_reset_requests ...], under the primary key,
    the [UNIQUE] token and the foreign key. *)
Definition insert_reset_request (a : Accounts) (r : ResetRow)
  : option Accounts :=
  if db_up P (draws a)
     && bool_decide (request_id r ∉ request_id <$> password_reset_requests a)
     && bool_decide (reset_token r ∉ reset_token <$> password_reset_requests a)
     && bool_decide (reset_user_id r ∈ acc_user_id <$> user_rows a)
  then Some {| user_rows := user_rows a;
               password_reset_requests := password_reset_requests a ++ [r];
               draws := draws a |}
  else None.

Definition skip_draws (n : nat) (a : Accounts) : Accounts :=
  {| user_rows := user_rows a;
     password_reset_requests := password_reset_requests a;
     draws := n + draws a |}.

(** POST /password-reset-request. The mail is sent inside its own
    [try] and does not change the response. *)
Definition password_reset_request (a : Accounts) (body : object)
  : Accounts * AuthReply :=
  match Zod.string_email P (body !! "email") with
  | None => (a, AuthResp ServerError)
  | Some email =>
      match select_user_by_email a email with
      | [] =>
          (a, AuthResp
                (Message "Password reset instructions sent if email exists."))
      | user :: _ =>
          let row :=
            {| request_id := uuidv4 P (draws a);
               reset_user_id := acc_user_id user;
               reset_token := uuidv4 P (S (draws a));
               reset_created_at := current_timestamp P (draws a);
               expires_at := toISOString A (Date_now A (draws a) + 3600000);
               consumed := false |} in
          match insert_reset_request a row with
          | None => (skip_draws 2 a, AuthResp ServerError)
          | Some a' =>
              (skip_draws 2 a',
               AuthResp
                 (Message "Password reset instructions sent if email exists."))
          end
      end
  end.

(** [resetSchema.parse(req.body)] *)
Definition resetSchema (o : object) : option (string * string) :=
  reset_token ← z_string (o !! "reset_token");
  new_password ← Zod.string_min 6 (o !! "new_password");
  Some (reset_token, new_password).

(** [new Date(resetRequest.expires_at) < new Date()]; a comparison
    with an invalid date is false. *)
Definition expired (a : Accounts) (r : ResetRow) : bool :=
  match Date_parse P (expires_at r) with
  | Some t => bool_decide (t < Date_now A (draws a))
  | None => false
  end.

(** The two [UPDATE]s of a password reset. *)
Definition set_password (a : Accounts) (id hash : string) : list UserRow :=
  (λ u, if bool_decide (acc_user_id u = id)
        then {| acc_user_id := acc_user_id u; acc_name := acc_name u;
                acc_email := acc_email u; password_hash := hash;
                acc_role := acc_role u; last_login_at := last_login_at u;
                is_active := is_active u;
                acc_created_at := acc_created_at u;
                acc_updated_at := current_timestamp P (draws a) |}
        else u) <$> user_rows a.

Definition consume (a : Accounts) (id : string) : list ResetRow :=
  (λ r, if bool_decide (request_id r = id)
        then {| request_id := request_id r; reset_user_id := reset_user_id r;
                reset_token := reset_token r;
                reset_created_at := reset_created_at r;
                expires_at := expires_at r; consumed := true |}
        else r) <$> password_reset_requests a.

(** POST /password-reset *)
Definition password_reset (a : Accounts) (body : object)
  : Accounts * AuthReply :=
  match resetSchema body with
  | None => (a, AuthResp ServerError)
  | Some (token, new_password) =>
      match List.filter (λ r, bool_decide (reset_token r = token))
              (password_reset_requests a) with
      | [] => (a, AuthResp (Error 400 "Invalid reset token"))
      | resetRequest :: _ =>
          if consumed resetRequest
          then (a, AuthResp (Error 400 "Reset token already used"))
          else if expired a resetRequest
          then (a, AuthResp (Error 400 "Reset token expired"))
          else
            let hashedPassword := bcrypt_hash A (draws a) new_password in
            ({| user_rows :=
                  set_password a (reset_user_id resetRequest) hashedPassword;
                password_reset_requests :=
                  consume a (request_id resetRequest);
                draws := S (draws a) |},
             AuthResp (Message "Password successfully updated."))
      end
  end.

End AuthHandlers.

(** The verified payload of a token as [req.user] has it here. *)
Definition payload_user (p : TokenPayload) : User :=
  {| user_id := payload_user_id p; role := payload_role p |}.

(** ** Sample accounts *)

(** A stand-in for bcrypt and jsonwebtoken: a hash is the password
    behind a fixed prefix, a token the identity and the role. *)
Definition sample_auth : Auth :=
  {| bcrypt_compare := λ password hash,
       bool_decide (hash = "$2b$" +:+ password);
     bcrypt_hash := λ _ password, "$2b$" +:+ password;
     jwt_sign := λ _ p, Some (payload_user_id p +:+ "." +:+ payload_role p);
     Date_now := λ n, 1704067200000 + 1000 * Z.of_nat n;
     toISOString := λ t, Ref.pg_date_text t |}.

Definition sample_accounts : Accounts :=
  {| user_rows :=
       [ {| acc_user_id := "user1"; acc_name := "Alice Agent";
            acc_email := "alice.agent@example.com";
            password_hash := "$2b$wonderland"; acc_role := "agent";
            last_login_at := Some "2023-10-10T12:00:00Z"; is_active := false;
            acc_created_at := "2023-10-01T09:00:00Z";
            acc_updated_at := "2023-10-01T09:00:00Z" |};
         {| acc_user_id := "user3"; acc_name := "Charlie Manager";
            acc_email := "charlie.manager@example.com";
            password_hash := "$2b$chocolate"; acc_role := "manager";
            last_login_at := None; is_active := true;
            acc_created_at := "2023-10-01T09:10:00Z";
            acc_updated_at := "2023-10-01T09:10:00Z" |} ];
     password_reset_requests := [];
     draws := 0 |}.

(** A verifier for the tokens of [sample_auth]. *)
Definition sample_token_verify (token : string) : option User :=
  if bool_decide (token = "user1.agent") then Some alice
  else if bool_decide (token = "user3.manager") then Some charlie
  else None.

Definition alice_login : object :=
  obj [("email", "alice.agent@example.com"); ("password", "wonderland")].

(** The sample accounts with a reset pending for the first user. *)
Definition pending_reset : Accounts :=
  {| user_rows := user_rows sample_accounts;
     password_reset_requests :=
       [ {| request_id := "req1"; reset_user_id := "user1";
            reset_token := "tok1";
            reset_created_at := "2023-12-31T23:30:00Z";
            expires_at := "2024-01-01T00:30:00Z"; consumed := false |} ];
     draws := 5 |}.

Definition reset_body : object :=
  obj [("reset_token", "tok1"); ("new_password", "rabbit-hole")].

Definition alice_new_login : object :=
  obj [("email", "alice.agent@example.com"); ("password", "rabbit-hole")].

Definition alice_forgot : object := obj [("email", "alice.agent@example.com")].

(** * The store of the views and the views that call the server *)

(** ** Notifications of the global store *)

Module AppStore.

Record Notification : Type := {
  notification_id : string;
  message : string;
  type : string;
  timestamp : string
}.

(** [add_notification]: [[...state.notification_state, notification]] *)
Definition add_notification (notification_state : list Notification)
    (notification : Notification) : list Notification :=
  notification_state ++ [notification].

(** [remove_notification]:
    [state.notification_state.filter((n) => n.notification_id !== notification_id)] *)
Definition remove_notification (notification_state : list Notification)
    (id : string) : list Notification :=
  List.filter (λ n, bool_decide (notification_id n ≠ id)) notification_state.

End AppStore.

(** ** The client profile view, [UV_ClientProfile]: its calls are
    written without a [headers] option. *)

Module ClientProfile.





End ClientProfile.

(** ** The login view, [UV_Login], and what the other views read from
    the store afterwards *)

(** A property of a JSON object: a string, or an object of strings. *)
Inductive property : Type :=
| JString (s : string)
| JObject (fields : list (string * string)).

(** A JSON object, key by key. *)
Definition document : Type := list (string * property).

(** [data[key]]; [None] is [undefined]. *)
Definition get (data : document) (key : string) : option property :=
  snd <$> List.find (λ kv, bool_decide (kv.1 = key)) data.

(** [`${x}`] *)
Definition template (x : option property) : string :=
  match x with
  | None => "undefined"
  | Some (JString s) => s
  | Some (JObject _) => "[object Object]"
  end.

(** The body of the login response, [{ token, user: userData }]. *)
Definition login_response (token : string) (user : TokenPayload) : document :=
  [ ("token", JString token);
    ("user",
     JObject [ ("user_id", payload_user_id user);
               ("name", payload_name user);
               ("role", payload_role user) ]) ].

(** The header the add-client and import views build from the
    [auth_state] of the store, [`Bearer ${auth_state.jwt_token}`]. *)
Definition authorization_of (auth_state : document) : string :=
  bearer (template (get auth_state "jwt_token")).

(** The constraints the two log tables declare, on top of those of the
    store: their primary keys, and the foreign keys from
    [communications_log] and [activity_log] to [clients] and [users]. *)
Definition logs_ok (db : Logs) : Prop :=
  store_ok (store db)
  ∧ NoDup (log_id <$> communications_log db)
  ∧ (∀ r, r ∈ communications_log db →
       log_client_id r ∈ client_id <$> clients (store db)
       ∧ created_by r ∈ users (store db))
  ∧ NoDup (activity_id <$> activity_log db)
  ∧ (∀ r, r ∈ activity_log db →
       act_user_id r ∈ users (store db)
       ∧ ∀ c, act_client_id r = Some c →
              c ∈ client_id <$> clients (store db)).

(** The logs beside another state of the store. *)
Definition set_store (db : Logs) (w : World) : Logs :=
  {| store := w; communications_log := communications_log db;
     activity_log := activity_log db |}.

(** ** The import view, [UV_ImportCSVMapping] *)

Module ImportCSVMapping.


End ImportCSVMapping.

(** ** Further samples *)

(** A file as multer's memory storage holds it. *)
Definition csv_upload (text : string) : File :=
  {| originalname := "clients.csv"; filename := ""; buffer := text |}.

(** An upload to the import route with its file under [fieldname]. *)
Definition import_request (header : option string) (fieldname : string)
    (text : string) : RawRequest :=
  {| raw_method := POST; raw_path := ["clients"; "import"];
     raw_authorization := header; raw_query := ∅;
     payload := Multipart ∅ [(fieldname, csv_upload text)] |}.

(** The reference platform with the database out of reach for the
    first statement only. *)
Definition outage_platform : Platform :=
  {| is_email := Ref.is_email;
     is_url := Ref.is_url;
     Date_parse := Ref.Date_parse;
     pg_date_text := Ref.pg_date_text;
     text_leb := String.leb;
     ilike := Ref.ilike;
     csvParse := Ref.csvParse;
     json2csv := Ref.json2csv;
     uuidv4 := Ref.uuidv4;
     now_iso := λ _, "2024-01-01T00:00:00.000Z";
     current_timestamp := λ _, "2024-01-02 00:00:00+00";
     db_up := λ n, negb (bool_decide (n = 0%nat)) |}.

(** Three data rows, all well formed. *)
Definition three_valid_rows : string :=
  line "full_name,phone,email,status"
  +:+ line "Ann Lee,5551234567,ann@example.com,new"
  +:+ line "Bob Ray,5559876543,bob@example.com,new"
  +:+ line "Cy Poe,5550001111,cy@example.org,in-progress".

Definition three_valid_records : list object :=
  [ obj [("full_name", "Ann Lee"); ("phone", "5551234567");
         ("email", "ann@example.com"); ("status", "new")];
    obj [("full_name", "Bob Ray"); ("phone", "5559876543");
         ("email", "bob@example.com"); ("status", "new")];
    obj [("full_name", "Cy Poe"); ("phone", "5550001111");
         ("email", "cy@example.org"); ("status", "in-progress")] ].

(** A client whose last contact is dated to the first millisecond of
    the year 10000, given as a number. *)
Definition far_date_record : object :=
  <["last_contact_date" := VNum 253402300800000]> plain_record.

(** A collation that compares letters without regard to their case,
    as the collations of most locales do before anything else. *)
Definition fold_case (s : string) : string :=
  string_of_list_ascii (Ref.lower_ascii <$> list_ascii_of_string s).

Definition locale_leb (a b : string) : bool :=
  String.leb (fold_case a) (fold_case b).

Definition locale_platform : Platform :=
  {| is_email := Ref.is_email;
     is_url := Ref.is_url;
     Date_parse := Ref.Date_parse;
     pg_date_text := Ref.pg_date_text;
     text_leb := locale_leb;
     ilike := Ref.ilike;
     csvParse := Ref.csvParse;
     json2csv := Ref.json2csv;
     uuidv4 := Ref.uuidv4;
     now_iso := λ _, "2024-01-01T00:00:00.000Z";
     current_timestamp := λ _, "2024-01-02 00:00:00+00";
     db_up := λ _, true |}.

(** ** The contract of the row validator *)

Section Contract.
Context (P : Platform).

(** An optional text property is absent, [null] or a string. *)
Definition optional_text (v : option value) : Prop :=
  v = None ∨ v = Some VNull ∨ ∃ s, v = Some (VStr s).

(** An optional date property is absent, [null] or a value from which
    [new Date] makes a valid date. *)
Definition optional_date (v : option value) : Prop :=
  v = None ∨ v = Some VNull ∨ ∃ x, v = Some x ∧ is_Some (Zod.new_Date P x).

(** A required text property is a string whose length lies within the
    bounds. *)
Definition text_between (lo hi : nat) (v : option value) : Prop :=
  ∃ s, v = Some (VStr s) ∧ (lo ≤ String.length s ≤ hi)%nat.

Definition text_at_least (lo : nat) (v : option value) : Prop :=
  ∃ s, v = Some (VStr s) ∧ (lo ≤ String.length s)%nat.

Definition email_text (v : option value) : Prop :=
  ∃ s, v = Some (VStr s) ∧ is_email P s = true.

(** What [createClientInputSchema] asks of each property. *)
Definition requirements : list (string * (option value → Prop)) :=
  [ ("full_name", text_between 1 255);
    ("phone", text_between 7 20);
    ("email", email_text);
    ("property_location", optional_text);
    ("property_type", optional_text);
    ("budget_range", optional_text);
    ("additional_preferences", optional_text);
    ("status", text_at_least 1);
    ("last_contact_date", optional_date);
    ("next_follow_up_date", optional_date);
    ("assigned_agent_id", optional_text);
    ("notes", optional_text) ].

(** The acceptance condition in the words of the specification: the
    four required properties are present and not empty, and the e-mail
    address is well formed. *)
Definition present_nonempty (v : option value) : Prop :=
  ∃ s, v = Some (VStr s) ∧ s ≠ "".

Definition spec_accepts (o : object) : Prop :=
  present_nonempty (o !! "full_name")
  ∧ present_nonempty (o !! "phone")
  ∧ (∃ s, o !! "email" = Some (VStr s) ∧ s ≠ "" ∧ is_email P s = true)
  ∧ present_nonempty (o !! "status").

End Contract.

(** * Properties *)

Set Warnings "-clear-no-such-hyp".

(** ** The row validator *)

(** Finds the entry of [requirements] for the property at hand. *)
Ltac pick_requirement :=
  unfold requirements; rewrite list_elem_of_In; simpl;
  repeat first [ left; reflexivity | right ].

Section Validator.
Context (P : Platform).

Lemma string_min_max_Some lo hi v s :
  Zod.string_min_max lo hi v = Some s ↔
  v = Some (VStr s) ∧ (lo ≤ String.length s ≤ hi)%nat.
Proof.
  unfold Zod.string_min_max.
  destruct v as [[| | |s']|]; try (split; [done | intros [? _]; done]).
  case_bool_decide; split; try done.
  - intros [= ->]. done.
  - intros [[= ->] _]. done.
  - intros [[= ->] ?]. done.
Qed.

Lemma string_min_Some lo v s :
  Zod.string_min lo v = Some s ↔
  v = Some (VStr s) ∧ (lo ≤ String.length s)%nat.
Proof.
  unfold Zod.string_min.
  destruct v as [[| | |s']|]; try (split; [done | intros [? _]; done]).
  case_bool_decide; split; try done.
  - intros [= ->]. done.
  - intros [[= ->] _]. done.
  - intros [[= ->] ?]. done.
Qed.

Lemma string_email_Some v s :
  Zod.string_email P v = Some s ↔ v = Some (VStr s) ∧ is_email P s = true.
Proof.
  unfold Zod.string_email.
  destruct v as [[| | |s']|]; try (split; [done | intros [? _]; done]).
  destruct (is_email P s') eqn:E; split; try done.
  - intros [= ->]. done.
  - intros [[= ->] _]. done.
  - intros [[= ->] ?]. congruence.
Qed.

Lemma string_nullable_optional_is_Some v :
  is_Some (Zod.string_nullable_optional v) ↔ optional_text v.
Proof.
  unfold optional_text.
  destruct v as [[| | |s]|]; simpl; split; intros H; eauto;
    try (by destruct H as [? ?]); try naive_solver.
Qed.

Lemma coerce_date_nullable_optional_is_Some v :
  is_Some (Zod.coerce_date_nullable_optional P v) ↔ optional_date P v.
Proof.
  unfold optional_date, Zod.coerce_date_nullable_optional.
  destruct v as [x|]; [|naive_solver].
  destruct x; simpl; rewrite ?fmap_is_Some; naive_solver.
Qed.

Lemma string_min_max_is_Some lo hi v :
  is_Some (Zod.string_min_max lo hi v) ↔ text_between lo hi v.
Proof.
  unfold text_between. split.
  - intros [s Hs]. exists s. by apply string_min_max_Some.
  - intros [s Hs]. exists s. by apply string_min_max_Some.
Qed.

Lemma string_min_is_Some lo v :
  is_Some (Zod.string_min lo v) ↔ text_at_least lo v.
Proof.
  unfold text_at_least. split.
  - intros [s Hs]. exists s. by apply string_min_Some.
  - intros [s Hs]. exists s. by apply string_min_Some.
Qed.

Lemma string_email_is_Some v :
  is_Some (Zod.string_email P v) ↔ email_text P v.
Proof.
  unfold email_text. split.
  - intros [s Hs]. exists s. by apply string_email_Some.
  - intros [s Hs]. exists s. by apply string_email_Some.
Qed.

Ltac none_case :=
  let H := fresh in
  split; intros H; exfalso;
  [ by apply is_Some_None in H
  | decompose [and] H;
    match goal with
    | H' : is_Some None |- _ => by apply is_Some_None in H'
    end ].

Lemma parse_fields_is_Some o :
  is_Some (parse_fields P o) ↔
    is_Some (Zod.string_min_max 1 255 (o !! "full_name"))
    ∧ is_Some (Zod.string_min_max 7 20 (o !! "phone"))
    ∧ is_Some (Zod.string_email P (o !! "email"))
    ∧ is_Some (Zod.string_nullable_optional (o !! "property_location"))
    ∧ is_Some (Zod.string_nullable_optional (o !! "property_type"))
    ∧ is_Some (Zod.string_nullable_optional (o !! "budget_range"))
    ∧ is_Some (Zod.string_nullable_optional (o !! "additional_preferences"))
    ∧ is_Some (Zod.string_min 1 (o !! "status"))
    ∧ is_Some (Zod.coerce_date_nullable_optional P (o !! "last_contact_date"))
    ∧ is_Some (Zod.coerce_date_nullable_optional P (o !! "next_follow_up_date"))
    ∧ is_Some (Zod.string_nullable_optional (o !! "assigned_agent_id"))
    ∧ is_Some (Zod.string_nullable_optional (o !! "notes")).
Proof.
  unfold parse_fields.
  repeat
    match goal with
    | |- context [ ?x ≫= _ ] => destruct x; simpl; [ | by none_case ]
    end.
  split; [ intros _; repeat split; eauto | eauto ].
Qed.

Lemma accepts_is_Some o : accepts P o = true ↔ is_Some (parse_fields P o).
Proof.
  unfold accepts, createClientInputSchema.
  destruct (parse_fields P o); split; try done; eauto.
Qed.

Lemma accepts_requirements o :
  accepts P o = true ↔ Forall (λ r, r.2 (o !! r.1)) (requirements P).
Proof.
  rewrite accepts_is_Some, parse_fields_is_Some.
  unfold requirements. rewrite !Forall_cons, Forall_nil. simpl.
  rewrite !string_min_max_is_Some, string_email_is_Some, string_min_is_Some,
    !string_nullable_optional_is_Some, !coerce_date_nullable_optional_is_Some.
  tauto.
Qed.

Lemma issue_elem {A} p name (r : option A) :
  p ∈ Zod.issue name r ↔ p = name ∧ r = None.
Proof.
  destruct r; simpl.
  - rewrite elem_of_nil. naive_solver.
  - rewrite list_elem_of_singleton. naive_solver.
Qed.

Lemma issues_nil o : issues P o = [] → is_Some (parse_fields P o).
Proof.
  rewrite parse_fields_is_Some. unfold issues. intros H.
  repeat (apply app_eq_nil in H as [? H]).
  repeat split;
    match goal with
    | H' : Zod.issue _ ?r = [] |- is_Some ?r => by destruct r
    end.
Qed.

Lemma issues_violations o p :
  p ∈ issues P o ↔ ∃ R, (p, R) ∈ requirements P ∧ ¬ R (o !! p).
Proof.
  unfold issues. rewrite !elem_of_app, !issue_elem. split.
  - intros H.
    repeat destruct H as [H|H]; destruct H as [-> H];
      (eexists; split; [ pick_requirement | ]);
      rewrite <- ?string_min_max_is_Some, <- ?string_email_is_Some,
        <- ?string_min_is_Some, <- ?string_nullable_optional_is_Some,
        <- ?coerce_date_nullable_optional_is_Some, H;
      by intros ?%is_Some_None.
  - intros (R & Hin & Hnot). unfold requirements in Hin.
    rewrite list_elem_of_In in Hin. simpl in Hin.
    repeat destruct Hin as [Hin|Hin]; try done; injection Hin as <- <-;
      rewrite <- ?string_min_max_is_Some, <- ?string_email_is_Some,
        <- ?string_min_is_Some, <- ?string_nullable_optional_is_Some,
        <- ?coerce_date_nullable_optional_is_Some in Hnot;
      apply eq_None_not_Some in Hnot; tauto.
Qed.

Lemma reject_issues o paths :
  createClientInputSchema P o = inl paths → paths = issues P o ∧ paths ≠ [].
Proof.
  unfold createClientInputSchema.
  destruct (parse_fields P o) eqn:E; [done|]. intros [= <-]. split; [done|].
  intros Hnil%issues_nil. rewrite E in Hnil. by apply is_Some_None in Hnil.
Qed.

Lemma accepts_false o :
  accepts P o = false ↔ ∃ paths, createClientInputSchema P o = inl paths.
Proof.
  unfold accepts. destruct (createClientInputSchema P o); naive_solver.
Qed.

(** A rejected record leaves the store as it was and counts as one
    error; the loop goes on with the records that follow. *)
Lemma import_record_invalid w o paths :
  createClientInputSchema P o = inl paths →
  import_record P w o = (w, Invalid paths).
Proof. unfold import_record. by intros ->. Qed.

Lemma import_records_invalid w o rest s e :
  accepts P o = false →
  import_records P w (o :: rest) s e = import_records P w rest s (S e).
Proof.
  intros [paths H]%accepts_false. simpl.
  by rewrite (import_record_invalid _ _ _ H).
Qed.

(** What the parsed object holds, property by property. *)
Lemma parse_fields_inv o data :
  parse_fields P o = Some data →
  Zod.string_min_max 1 255 (o !! "full_name") = Some (Input.full_name data)
  ∧ Zod.string_min_max 7 20 (o !! "phone") = Some (Input.phone data)
  ∧ Zod.string_email P (o !! "email") = Some (Input.email data)
  ∧ Zod.string_nullable_optional (o !! "property_location")
    = Some (Input.property_location data)
  ∧ Zod.string_nullable_optional (o !! "property_type")
    = Some (Input.property_type data)
  ∧ Zod.string_nullable_optional (o !! "budget_range")
    = Some (Input.budget_range data)
  ∧ Zod.string_nullable_optional (o !! "additional_preferences")
    = Some (Input.additional_preferences data)
  ∧ Zod.string_min 1 (o !! "status") = Some (Input.status data)
  ∧ Zod.coerce_date_nullable_optional P (o !! "last_contact_date")
    = Some (Input.last_contact_date data)
  ∧ Zod.coerce_date_nullable_optional P (o !! "next_follow_up_date")
    = Some (Input.next_follow_up_date data)
  ∧ Zod.string_nullable_optional (o !! "assigned_agent_id")
    = Some (Input.assigned_agent_id data)
  ∧ Zod.string_nullable_optional (o !! "notes") = Some (Input.notes data).
Proof.
  unfold parse_fields. intros H.
  repeat
    match type of H with
    | context [ ?x ≫= _ ] => destruct x; simpl in H; [ | done ]
    end.
  injection H as <-. simpl. repeat split.
Qed.

End Validator.

(** C6, as amended. The row validator accepts a record exactly when
    each property meets the requirement [createClientInputSchema] puts
    on it: [full_name] a string of 1 to 255 characters, [phone] a string
    of 7 to 20 characters, [email] a well-formed address, [status] a
    string that is not empty, every optional text property absent,
    [null] or a string, and every optional date property absent, [null]
    or a value that makes a valid date. On acceptance the row that is
    inserted carries the four required properties as given and holds
    [NULL] for every optional property the record does not name. On
    rejection the error names exactly the properties that miss their
    requirement, at least one, and the import counts the record as one
    error, leaves the store as it was and goes on. *)
Theorem row_validator_contract (P : Platform) (o : object) :
  (accepts P o = true ↔ Forall (λ r, r.2 (o !! r.1)) (requirements P))
  ∧ (∀ data id now,
       createClientInputSchema P o = inr data →
       let row := import_row P id now data in
       o !! "full_name" = Some (VStr (full_name row))
       ∧ o !! "phone" = Some (VStr (phone row))
       ∧ o !! "email" = Some (VStr (email row))
       ∧ o !! "status" = Some (VStr (status row))
       ∧ (o !! "property_location" = None → property_location row = None)
       ∧ (o !! "property_type" = None → property_type row = None)
       ∧ (o !! "budget_range" = None → budget_range row = None)
       ∧ (o !! "additional_preferences" = None →
          additional_preferences row = None)
       ∧ (o !! "last_contact_date" = None → last_contact_date row = None)
       ∧ (o !! "next_follow_up_date" = None → next_follow_up_date row = None)
       ∧ (o !! "assigned_agent_id" = None → assigned_agent_id row = None)
       ∧ (o !! "notes" = None → notes row = None))
  ∧ (∀ paths,
       createClientInputSchema P o = inl paths →
       paths ≠ []
       ∧ (∀ p, p ∈ paths ↔ ∃ R, (p, R) ∈ requirements P ∧ ¬ R (o !! p))
       ∧ ∀ w rest s e,
           import_records P w (o :: rest) s e
           = import_records P w rest s (S e)).
Proof.
  split; [ apply accepts_requirements | split ].
  - intros data id now H. unfold createClientInputSchema in H.
    destruct (parse_fields P o) as [data'|] eqn:E; [ | done ].
    injection H as ->.
    destruct (parse_fields_inv P o data E)
      as (H1 & H2 & H3 & H4 & H5 & H6 & H7 & H8 & H9 & H10 & H11 & H12).
    apply string_min_max_Some in H1 as [H1 _].
    apply string_min_max_Some in H2 as [H2 _].
    apply string_email_Some in H3 as [H3 _].
    apply string_min_Some in H8 as [H8 _].
    simpl. repeat split; try assumption;
      intros Hnone;
      match goal with
      | H : context [ o !! ?k ], Hn : o !! ?k = None |- _ =>
          rewrite Hn in H; simpl in H; injection H as <-; reflexivity
      end.
  - intros paths H. destruct (reject_issues P o paths H) as [-> Hne].
    split; [ done | split ].
    + intros p. apply issues_violations.
    + intros w rest s e. apply import_records_invalid.
      apply accepts_false. eauto.
Qed.

Lemma row_validator_contract_witness :
  Forall (λ r, r.2 (plain_record !! r.1)) (requirements ref_platform)
  ∧ property_location
      (import_row ref_platform "id" "now"
         {| Input.full_name := "Ann Lee"; Input.phone := "5551234567";
            Input.email := "ann@example.com";
            Input.property_location := Undefined;
            Input.property_type := Undefined;
            Input.budget_range := Undefined;
            Input.additional_preferences := Undefined;
            Input.status := "new"; Input.last_contact_date := Undefined;
            Input.next_follow_up_date := Undefined;
            Input.assigned_agent_id := Undefined;
            Input.notes := Undefined |}) = None
  ∧ ∀ w rest s e,
      import_records ref_platform w (short_phone :: rest) s e
      = import_records ref_platform w rest s (S e).
Proof.
  split; [ | split ].
  - apply (proj1 (row_validator_contract ref_platform plain_record)).
    reflexivity.
  - refine (proj1 (proj2 (proj2 (proj2 (proj2
      (proj1 (proj2 (row_validator_contract ref_platform plain_record))
         _ "id" "now" _)))))  _); reflexivity.
  - refine (proj2 (proj2
      (proj2 (proj2 (row_validator_contract ref_platform short_phone))
         ["phone"] _))).
    reflexivity.
Defined.

(** C6, as stated, fails: a record whose four required properties are
    present, not empty and well formed is rejected when its phone number
    has fewer than seven characters. *)
Lemma row_validator_counterexample :
  spec_accepts ref_platform short_phone
  ∧ accepts ref_platform short_phone = false
  ∧ createClientInputSchema ref_platform short_phone = inl ["phone"].
Proof.
  split; [ | split; reflexivity ].
  unfold spec_accepts, present_nonempty.
  repeat split; eexists; (split; [ reflexivity | ]);
    try split; try done; reflexivity.
Qed.

(** C10. When a record holds the empty string under [last_contact_date]
    or under [next_follow_up_date], as an empty cell of a CSV that has
    such a column does, the row validator rejects it whatever its other
    properties are, the empty string making no valid date; the error
    names that property. *)
Theorem empty_date_cell_rejected (P : Platform) (o : object) :
  Date_parse P "" = None →
  o !! "last_contact_date" = Some (VStr "")
  ∨ o !! "next_follow_up_date" = Some (VStr "") →
  accepts P o = false
  ∧ ∃ paths,
      createClientInputSchema P o = inl paths
      ∧ ("last_contact_date" ∈ paths ∨ "next_follow_up_date" ∈ paths).
Proof.
  intros Hempty Hcell.
  assert (Hdate : ¬ optional_date P (Some (VStr ""))).
  { intros [H|[H|(x & [= <-] & H)]]; try done.
    simpl in H. rewrite Hempty in H. by apply is_Some_None in H. }
  assert (Hrej : accepts P o = false).
  { apply not_true_is_false. rewrite accepts_requirements.
    unfold requirements. rewrite !Forall_cons. simpl.
    destruct Hcell as [Hc|Hc]; rewrite Hc; tauto. }
  split; [ done | ].
  apply accepts_false in Hrej as [paths Hpaths]. exists paths.
  split; [ done | ].
  destruct (reject_issues P o paths Hpaths) as [-> _].
  rewrite !issues_violations.
  destruct Hcell as [Hc|Hc]; [ left | right ];
    (exists (optional_date P); split; [ pick_requirement | by rewrite Hc ]).
Qed.

Lemma empty_date_cell_rejected_witness :
  accepts ref_platform plain_record = true
  ∧ accepts ref_platform empty_date_cell = false.
Proof.
  split; [ reflexivity | ].
  apply (empty_date_cell_rejected ref_platform empty_date_cell).
  - reflexivity.
  - left. reflexivity.
Defined.

(** ** The import *)

Section ImportProperties.
Context (P : Platform).

(** The three ways the loop body ends. *)
Lemma import_record_cases w o :
  (accepts P o = false ∧ ∃ paths, import_record P w o = (w, Invalid paths))
  ∨ (accepts P o = true
     ∧ ∃ row, import_record P w o
              = (bump (set_clients w (clients w ++ [row])), Inserted))
  ∨ (accepts P o = true ∧ import_record P w o = (bump w, InsertFailed)).
Proof.
  unfold accepts, import_record.
  destruct (createClientInputSchema P o) as [paths|data]; [ left; eauto | ].
  right. unfold insert_client.
  match goal with |- context [ if ?b then _ else _ ] => destruct b end;
    [ left | right ]; eauto.
Qed.

Lemma import_trace_length l : ∀ w, length (import_trace P w l) = length l.
Proof.
  induction l as [|o l IH]; intros w; simpl; [ done | ].
  destruct (import_record P w o) as [w' out]. simpl. by rewrite IH.
Qed.

(** Every record of the batch is validated, whatever happened to the
    records before it. *)
Lemma import_trace_validated l : ∀ w,
  Forall2 (λ o out, accepts P o = false ↔ ∃ paths, out = Invalid paths)
    l (import_trace P w l).
Proof.
  induction l as [|o l IH]; intros w; simpl; [ constructor | ].
  destruct (import_record_cases w o)
    as [(Ha & paths & ->)|[(Ha & row & ->)|(Ha & ->)]];
    (constructor; [ rewrite Ha; naive_solver | apply IH ]).
Qed.

(** The loop in terms of its trace: the counters grow by the inserted
    and by the other records, and the table by the inserted ones. *)
Lemma import_records_trace l : ∀ w s e,
  ∃ (w' : World) (new : list ClientRow),
    import_records P w l s e
    = (w',
       (s + length (List.filter inserted (import_trace P w l)))%nat,
       (e + length (List.filter (λ out, negb (inserted out))
                      (import_trace P w l)))%nat)
    ∧ clients w' = (clients w ++ new)%list
    ∧ length new = length (List.filter inserted (import_trace P w l))
    ∧ users w' = users w
    ∧ client_attachments w' = client_attachments w.
Proof.
  induction l as [|o l IH]; intros w s e; simpl.
  - exists w, []. rewrite !Nat.add_0_r, app_nil_r. done.
  - destruct (import_record_cases w o)
      as [(Ha & paths & ->)|[(Ha & row & ->)|(Ha & ->)]]; simpl.
    + destruct (IH w s (S e)) as (w' & new & -> & ? & ? & ? & ?).
      exists w', new. repeat split; try done. f_equal. lia.
    + destruct (IH (bump (set_clients w (clients w ++ [row]))) (S s) e)
        as (w' & new & -> & Hc & Hn & ? & ?).
      exists w', (row :: new). simpl in Hc. rewrite <- app_assoc in Hc.
      repeat split; try done; [ do 2 f_equal; lia | simpl; by rewrite Hn ].
    + destruct (IH (bump w) s (S e)) as (w' & new & -> & ? & ? & ? & ?).
      exists w', new. repeat split; try done. f_equal. lia.
Qed.

(** When no insert fails, the inserted records are the accepted ones. *)
Lemma import_trace_all_inserted l : ∀ w,
  InsertFailed ∉ import_trace P w l →
  length (List.filter inserted (import_trace P w l))
  = length (List.filter (accepts P) l)
  ∧ length (List.filter (λ out, negb (inserted out)) (import_trace P w l))
    = length (List.filter (λ o, negb (accepts P o)) l).
Proof.
  induction l as [|o l IH]; intros w; simpl; [ done | ].
  destruct (import_record_cases w o)
    as [(Ha & paths & ->)|[(Ha & row & ->)|(Ha & ->)]];
    rewrite Ha; simpl; rewrite not_elem_of_cons; intros [Hhd Htl];
    try done; destruct (IH _ Htl) as [-> ->]; done.
Qed.

Lemma filter_partition_length {A} (f : A → bool) (l : list A) :
  (length (List.filter f l) + length (List.filter (λ x, negb (f x)) l)
   = length l)%nat.
Proof.
  induction l as [|x l IH]; simpl; [ done | ].
  destruct (f x); simpl; lia.
Qed.

(** A record without a well-formed e-mail address is rejected. *)
Lemma accepts_email o :
  accepts P o = true → ∃ s, o !! "email" = Some (VStr s) ∧ is_email P s = true.
Proof.
  rewrite accepts_requirements. unfold requirements.
  rewrite !Forall_cons. simpl. unfold email_text. tauto.
Qed.

Lemma lacks_email_rejected (o : object) :
  (o !! "email" = None
   ∨ ∃ s, o !! "email" = Some (VStr s) ∧ is_email P s = false) →
  accepts P o = false.
Proof.
  intros H. destruct (accepts P o) eqn:E; [ | done ].
  apply accepts_email in E as (s & Hs & Hmail).
  destruct H as [H|(s' & H & Hbad)]; congruence.
Qed.

End ImportProperties.

(** The loop as a fold of its body: the store it leaves, and its two
    counters as the numbers of records inserted and not inserted. *)
Lemma import_records_foldl (P : Platform) (l : list object) : ∀ w s e,
  import_records P w l s e
  = (foldl (λ w o, (import_record P w o).1) w l,
     (s + length (List.filter inserted (import_trace P w l)))%nat,
     (e + length (List.filter (λ out, negb (inserted out))
                    (import_trace P w l)))%nat).
Proof.
  induction l as [|o l IH]; intros w s e; simpl.
  - by rewrite !Nat.add_0_r.
  - destruct (import_record P w o) as [w1 out] eqn:E. simpl.
    destruct out; rewrite IH; simpl; do 2 f_equal; lia.
Qed.

(** The outcome of the record at a position is that of the loop body
    on the store the records before it have left. *)
Lemma import_trace_lookup (P : Platform) (l : list object) : ∀ w i o,
  l !! i = Some o →
  import_trace P w l !! i
  = Some (import_record P
            (foldl (λ w o, (import_record P w o).1) w (take i l)) o).2.
Proof.
  induction l as [|x l IH]; intros w i o Hi; [ done | ].
  simpl. destruct (import_record P w x) as [w1 out] eqn:E.
  destruct i as [|i]; simpl in *.
  - injection Hi as <-. by rewrite E.
  - rewrite E. simpl. by apply IH.
Qed.

(** C1. A manager's upload that parses into [records] completes, and
    leaves the store the loop body leaves when it is run on every
    record in turn. Each record is handled on the store the earlier
    ones have left, whatever happened to them: it is rejected exactly
    when the row validator refuses it, and otherwise its insert is
    attempted, the row being appended when the insert goes through.
    [successCount] is the number of records inserted, [errorCount]
    the number of the others, their sum the number of records, and
    the table has grown by [successCount] rows. When every attempted
    insert succeeds, [successCount] is the number of records the row
    validator accepts and [errorCount] the number it rejects. In
    particular three records of which the first and third are accepted
    and the second has no well-formed e-mail address give
    [successCount = 2], [errorCount = 1] and two new rows. *)
Theorem import_batch_counts (P : Platform) (w : World) (user : User)
    (buffer : string) (records : list object) :
  role user = "manager" →
  csvParse P buffer = inr records →
  let step := λ (w : World) (o : object), (import_record P w o).1 in
  let before := λ i : nat, foldl step w (take i records) in
  let trace := import_trace P w records in
  let successCount := length (List.filter inserted trace) in
  let errorCount := length (List.filter (λ out, negb (inserted out)) trace) in
  clients_import P w user (Some buffer)
  = (foldl step w records, ImportCompleted successCount errorCount)
  ∧ (successCount + errorCount = length records)%nat
  ∧ (∀ i o, records !! i = Some o →
       trace !! i = Some (import_record P (before i) o).2
       ∧ (accepts P o = false ↔ ∃ paths, trace !! i = Some (Invalid paths))
       ∧ ∀ data, createClientInputSchema P o = inr data →
           let row := import_row P (uuidv4 P (tick (before i)))
                        (now_iso P (tick (before i))) data in
           match insert_client P (before i) row with
           | Some _ =>
               trace !! i = Some Inserted
               ∧ clients (before (S i)) = (clients (before i) ++ [row])%list
           | None =>
               trace !! i = Some InsertFailed
               ∧ clients (before (S i)) = clients (before i)
           end)
  ∧ (∃ new, clients (foldl step w records) = (clients w ++ new)%list
            ∧ length new = successCount)
  ∧ (InsertFailed ∉ trace →
     successCount = length (List.filter (accepts P) records)
     ∧ errorCount = length (List.filter (λ o, negb (accepts P o)) records))
  ∧ (∀ r1 r2 r3,
       records = [r1; r2; r3] →
       InsertFailed ∉ trace →
       accepts P r1 = true →
       accepts P r3 = true →
       (r2 !! "email" = None
        ∨ ∃ s, r2 !! "email" = Some (VStr s) ∧ is_email P s = false) →
       successCount = 2%nat ∧ errorCount = 1%nat
       ∧ length (clients (foldl step w records))
         = (length (clients w) + 2)%nat).
Proof.
  intros Hrole Hparse step before trace successCount errorCount.
  assert (Hrun : clients_import P w user (Some buffer)
                 = (foldl step w records,
                    ImportCompleted successCount errorCount)).
  { unfold clients_import.
    rewrite bool_decide_eq_false_2 by (intros H; by apply H).
    rewrite Hparse. by rewrite import_records_foldl. }
  destruct (import_records_trace P records w 0 0)
    as (w' & new & Hrec & Hc & Hn & _ & _).
  rewrite import_records_foldl in Hrec. injection Hrec as <-.
  assert (Hsum : (successCount + errorCount = length records)%nat).
  { unfold successCount, errorCount. rewrite filter_partition_length.
    apply import_trace_length. }
  assert (Hall : InsertFailed ∉ trace →
                 successCount = length (List.filter (accepts P) records)
                 ∧ errorCount
                   = length (List.filter (λ o, negb (accepts P o)) records)).
  { apply import_trace_all_inserted. }
  split; [ exact Hrun | ]. split; [ exact Hsum | ]. split.
  { intros i o Hi.
    pose proof (import_trace_lookup P records w i o Hi) as Hout.
    fold step in Hout. fold (before i) in Hout. fold trace in Hout.
    assert (Hnext : before (S i) = step (before i) o).
    { unfold before. rewrite (take_S_r _ _ _ Hi), foldl_app. done. }
    split; [ exact Hout | ]. split.
    - rewrite Hout.
      destruct (import_record_cases P (before i) o)
        as [(Ha & paths & ->)|[(Ha & row & ->)|(Ha & ->)]];
        rewrite Ha; simpl; naive_solver.
    - intros data Hdata row. rewrite Hout, Hnext. unfold step.
      unfold import_record. rewrite Hdata. fold row.
      destruct (insert_client P (before i) row) as [w1|] eqn:I; simpl;
        [ | done ].
      split; [ done | ]. revert I. unfold insert_client.
      match goal with |- context [ if ?b then _ else _ ] => destruct b end;
        [ | done ].
      by intros [= <-]. }
  split; [ by exists new | ]. split; [ exact Hall | ].
  intros r1 r2 r3 Hrecs Hok H1 H3 H2%lacks_email_rejected.
  destruct (Hall Hok) as [Hs He].
  unfold successCount, errorCount, trace, step in *.
  rewrite Hc, length_app, Hn, Hs, He, Hrecs. simpl. rewrite H1, H2, H3. done.
Qed.

Lemma import_batch_counts_witness :
  (∃ w', clients_import ref_platform empty_store charlie (Some three_rows)
         = (w', ImportCompleted 2 1)
         ∧ length (clients w') = 2%nat)
  ∧ (∃ w', clients_import outage_platform empty_store charlie
             (Some three_valid_rows)
           = (w', ImportCompleted 2 1)
           ∧ length (clients w') = 2%nat).
Proof.
  split.
  - destruct (import_batch_counts ref_platform empty_store charlie three_rows
                three_records eq_refl eq_refl)
      as (Hrun & _ & _ & _ & _ & Hthree).
    destruct (Hthree _ _ _ eq_refl) as (Hs & He & Hlen).
    + vm_compute. intros H.
      repeat (apply elem_of_cons in H as [H|H]; [ done | ]).
      by apply elem_of_nil in H.
    + reflexivity.
    + reflexivity.
    + right. exists "". split; reflexivity.
    + eexists. split; [ rewrite Hrun, Hs, He; reflexivity | exact Hlen ].
  - destruct (import_batch_counts outage_platform empty_store charlie
                three_valid_rows three_valid_records eq_refl eq_refl)
      as (Hrun & _ & _ & (new & Hnew & Hlen) & _).
    exists (foldl (λ w o, (import_record outage_platform w o).1) empty_store
              three_valid_records).
    split; [ rewrite Hrun; f_equal; vm_compute; reflexivity | ].
    rewrite Hnew, length_app, Hlen. vm_compute. reflexivity.
Defined.





(** ** The reads *)

Section ReadProperties.
Context (P : Platform).

Lemma select_clients_elem w user q sb so rows c :
  select_clients P w user q sb so = Some rows →
  c ∈ rows →
  c ∈ clients w ∧ where_clause P user (query q) c = true.
Proof.
  unfold select_clients. destruct (order_column sb) as [col|]; [ | done ].
  simpl. intros [= <-] Hc.
  apply subseteq_take, subseteq_drop in Hc. unfold order_by in Hc.
  rewrite merge_sort_Permutation in Hc.
  apply list_elem_of_In, filter_In in Hc as [Hin Hw].
  by rewrite list_elem_of_In.
Qed.

Lemma query_rows_elem w user o rows c :
  query_rows P w user o = Some rows →
  c ∈ rows →
  c ∈ clients w ∧ deleted_at c = None
  ∧ (role user = "agent" → assigned_agent_id c = Some (user_id user)).
Proof.
  unfold query_rows. destruct (searchClientQuerySchema o) as [q|]; [ | done ].
  simpl. intros Hsel Hc.
  destruct (select_clients_elem _ _ _ _ _ _ _ Hsel Hc) as [Hin Hw].
  unfold where_clause in Hw.
  apply andb_true_iff in Hw as [Hw _]. apply andb_true_iff in Hw as [Hd Ha].
  apply bool_decide_eq_true in Hd. repeat split; try done.
  intros Hrole. rewrite bool_decide_eq_true_2 in Ha by done.
  by apply bool_decide_eq_true in Ha.
Qed.

(** The entity keeps the identity and the owner of its row, and a live
    row makes an entity without a deletion date. *)
Lemma clientEntitySchema_row c e :
  clientEntitySchema P c = Some e →
  Entity.client_id e = client_id c
  ∧ Entity.assigned_agent_id e = assigned_agent_id c
  ∧ (deleted_at c = None → Entity.deleted_at e = None).
Proof.
  unfold clientEntitySchema. intros H.
  repeat
    match type of H with
    | context [ ?x ≫= _ ] =>
        let E := fresh "E" in
        destruct x eqn:E; cbn [mbind option_bind] in H; [ | done ]
    end.
  injection H as <-. cbn. repeat split.
  intros Hd. rewrite Hd in *. by injection E4 as <-.
Qed.

Lemma mapM_entities rows l :
  mapM (clientEntitySchema P) rows = Some l →
  Entity.client_id <$> l = client_id <$> rows
  ∧ Entity.assigned_agent_id <$> l = assigned_agent_id <$> rows.
Proof.
  intros H%mapM_Some_1.
  induction H as [|c e rows l Hce _ [IH1 IH2]]; [ done | ].
  destruct (clientEntitySchema_row c e Hce) as (H1 & H2 & _).
  rewrite !fmap_cons, H1, H2, IH1, IH2. done.
Qed.

(** Whatever a listing or an export shows was read by the shared
    query. *)
Lemma clients_list_shown w user o :
  ∃ rows, shown (clients_list P w user o) = client_id <$> rows
          ∧ owners (clients_list P w user o) = assigned_agent_id <$> rows
          ∧ (rows = [] ∨ query_rows P w user o = Some rows).
Proof.
  unfold clients_list. destruct (query_rows P w user o) as [rows|];
    [ | exists []; auto ].
  destruct (mapM (clientEntitySchema P) rows) as [l|] eqn:E;
    [ | exists []; auto ].
  exists rows. destruct (mapM_entities rows l E). simpl. auto.
Qed.

Lemma clients_export_shown w user o :
  ∃ rows, shown (clients_export P w user o) = client_id <$> rows
          ∧ owners (clients_export P w user o) = assigned_agent_id <$> rows
          ∧ (rows = [] ∨ query_rows P w user o = Some rows).
Proof.
  unfold clients_export. destruct (query_rows P w user o) as [rows|];
    [ | exists []; auto ].
  destruct (json2csv P rows); [ exists rows | exists [] ]; simpl; auto.
Qed.

Lemma select_live_client_elem w id c :
  c ∈ select_live_client w id →
  c ∈ clients w ∧ client_id c = id ∧ deleted_at c = None.
Proof.
  unfold select_live_client. rewrite !list_elem_of_In, filter_In.
  intros [Hin H]. apply andb_true_iff in H as [H1 H2].
  apply bool_decide_eq_true in H1. by apply bool_decide_eq_true in H2.
Qed.

Lemma select_live_client_absent w id :
  id ∉ client_id <$> clients w → select_live_client w id = [].
Proof.
  unfold select_live_client. generalize (clients w) as l.
  induction l as [|x l IH]; [ done | ].
  rewrite fmap_cons, not_elem_of_cons. intros [Hx Hl]. simpl.
  rewrite bool_decide_eq_false_2 by done. simpl. by apply IH.
Qed.

(** Under the primary key, the live row of an identity is the only row
    the detail read finds. *)
Lemma select_live_client_unique w c :
  NoDup (client_id <$> clients w) →
  c ∈ clients w →
  deleted_at c = None →
  select_live_client w (client_id c) = [c].
Proof.
  pose proof (select_live_client_absent) as Habs.
  unfold select_live_client in *.
  assert (Habs' : ∀ l id, id ∉ client_id <$> l →
            List.filter (λ c, bool_decide (client_id c = id)
                              && bool_decide (deleted_at c = None)) l = []).
  { intros l id. specialize (Habs (set_clients w l) id). exact Habs. }
  clear Habs. generalize (clients w) as l.
  induction l as [|x l IH]; intros Hnd Hin Hlive;
    [ by apply elem_of_nil in Hin | ].
  rewrite fmap_cons in Hnd. apply NoDup_cons in Hnd as [Hx Hnd].
  apply elem_of_cons in Hin as [<-|Hin]; simpl.
  - rewrite !bool_decide_eq_true_2 by done. simpl. f_equal. by apply Habs'.
  - assert (client_id x ≠ client_id c).
    { intros Heq. apply Hx. rewrite Heq. by apply list_elem_of_fmap_2. }
    rewrite bool_decide_eq_false_2 by done. simpl. by apply IH.
Qed.

(** Under the primary key, rows of one identity are one row. *)
Lemma primary_key (l : list ClientRow) c c' :
  NoDup (client_id <$> l) → c ∈ l → c' ∈ l → client_id c = client_id c' →
  c = c'.
Proof.
  induction l as [|x l IH]; intros Hnd Hc Hc' Heq;
    [ by apply elem_of_nil in Hc | ].
  rewrite fmap_cons in Hnd. apply NoDup_cons in Hnd as [Hx Hnd].
  apply elem_of_cons in Hc as [->|Hc]; apply elem_of_cons in Hc' as [->|Hc'];
    try done.
  - exfalso. apply Hx. rewrite Heq. by apply list_elem_of_fmap_2.
  - exfalso. apply Hx. rewrite <- Heq. by apply list_elem_of_fmap_2.
  - by apply IH.
Qed.

(** What the detail read shows is a live row of the requested
    identity that is not foreign to the caller. *)
Lemma clients_detail_shown w user id :
  shown (clients_detail P w user id) = []
  ∧ owners (clients_detail P w user id) = []
  ∨ ∃ c, c ∈ clients w ∧ client_id c = id ∧ deleted_at c = None
         ∧ foreign_to_agent user c = false
         ∧ shown (clients_detail P w user id) = [client_id c]
         ∧ owners (clients_detail P w user id) = [assigned_agent_id c].
Proof.
  unfold clients_detail.
  destruct (select_live_client w id) as [|c l] eqn:E; [ by left | ].
  assert (Hc : c ∈ select_live_client w id) by (rewrite E; left).
  apply select_live_client_elem in Hc as (Hin & Hid & Hlive).
  destruct (foreign_to_agent user c) eqn:F; [ by left | ].
  destruct (clientEntitySchema P c) as [e|] eqn:S; [ | by left ].
  right. exists c. destruct (clientEntitySchema_row c e S) as (H1 & H2 & _).
  simpl. rewrite H1, H2. done.
Qed.

Lemma foreign_to_agent_false user c :
  foreign_to_agent user c = false →
  role user = "agent" → assigned_agent_id c = Some (user_id user).
Proof.
  unfold foreign_to_agent. intros H Hrole.
  rewrite bool_decide_eq_true_2 in H by done. simpl in H.
  apply negb_false_iff in H. by apply bool_decide_eq_true in H.
Qed.

(** [UPDATE ... SET deleted_at] rewrites rows in place: each row is
    kept, and a row of the given identity has only its deletion date
    set. *)
Lemma soft_delete_rows w id :
  Forall2
    (λ c c', c' = c ∨ client_id c = id ∧ ∃ t, c' = set_deleted_at c (Some t))
    (clients w) (clients (soft_delete P w id)).
Proof.
  unfold soft_delete. simpl. apply Forall2_fmap_r, Forall_Forall2_diag.
  apply Forall_forall. intros c _. unfold compose. case_bool_decide; eauto.
Qed.

Lemma soft_delete_marked w id c' :
  c' ∈ clients (soft_delete P w id) → client_id c' = id →
  deleted_at c' ≠ None.
Proof.
  unfold soft_delete. simpl. intros (c & -> & Hc)%list_elem_of_fmap.
  case_bool_decide; [ done | ]. intros. done.
Qed.

(** The request path of the export is answered by the detail read. *)
Lemma serve_get_export w user o :
  serve_get P w user ["clients"; "export"] o
  = Some (clients_detail P w user "export").
Proof. reflexivity. Qed.

End ReadProperties.

(** C4. For a caller whose role is agent, every record in the result of
    the export handler is owned by the caller, so none is owned by
    another agent and none is unowned; the same holds of what a GET of
    the export path answers. *)
Theorem agent_export_scoped (P : Platform) (w : World) (user : User)
    (req_query : object) (r : Response) :
  role user = "agent" →
  (r = clients_export P w user req_query
   ∨ serve_get P w user ["clients"; "export"] req_query = Some r) →
  Forall (λ owner, owner = Some (user_id user)) (owners r).
Proof.
  intros Hrole [->|Hget].
  - destruct (clients_export_shown P w user req_query)
      as (rows & _ & -> & [->|Hrows]); [ constructor | ].
    apply Forall_fmap, Forall_forall. intros c Hc.
    by apply (query_rows_elem P w user req_query rows c Hrows Hc).
  - change (Some (clients_detail P w user "export") = Some r) in Hget.
    injection Hget as <-.
    destruct (clients_detail_shown P w user "export")
      as [[_ ->]|(c & _ & _ & _ & Hf & _ & ->)]; [ constructor | ].
    repeat constructor. by apply foreign_to_agent_false.
Qed.

Lemma agent_export_scoped_witness :
  owners (clients_export ref_platform seeded_store alice ∅)
  = [Some "user1"; Some "user1"]
  ∧ Forall (λ owner, owner = Some "user1")
      (owners (clients_export ref_platform seeded_store alice ∅)).
Proof.
  split; [ reflexivity | ].
  apply (agent_export_scoped ref_platform seeded_store alice ∅).
  - reflexivity.
  - left. reflexivity.
Defined.

(** C5, as amended. The delete operation keeps every row of the table
    and changes nothing but the deletion date of the rows of the given
    identity, which it sets. A row whose deletion date is set is shown
    by no listing, detail read or export. A row whose deletion date is
    null and which passes the client entity schema is returned by the
    detail read to a manager and, if it is assigned, to its agent. The
    table's primary key is assumed where identities are compared. *)
Theorem soft_delete_invariant (P : Platform) (w : World) (user : User) :
  (∀ id w' r,
     clients_delete P w user id = (w', r) →
     Forall2
       (λ c c',
          c' = c
          ∨ (client_id c = id ∧ (∃ t, c' = set_deleted_at c (Some t))))
       (clients w) (clients w')
     ∧ (status_code r = 200%nat →
        ∀ c', c' ∈ clients w' → client_id c' = id → deleted_at c' ≠ None))
  ∧ (NoDup (client_id <$> clients w) →
     ∀ c, c ∈ clients w → deleted_at c ≠ None →
     ∀ req_query id,
       (client_id c ∉ shown (clients_list P w user req_query))
       ∧ (client_id c ∉ shown (clients_detail P w user id))
       ∧ (client_id c ∉ shown (clients_export P w user req_query)))
  ∧ (NoDup (client_id <$> clients w) →
     ∀ c e, c ∈ clients w → deleted_at c = None →
     clientEntitySchema P c = Some e →
     role user = "manager" ∨ assigned_agent_id c = Some (user_id user) →
     clients_detail P w user (client_id c) = ClientDetail e).
Proof.
  split; [ | split ].
  - intros id w' r. unfold clients_delete.
    destruct (select_live_client w id) as [|c0 l].
    { intros [= <- <-]. split; [ | done ].
      apply Forall_Forall2_diag, Forall_forall. auto. }
    destruct (foreign_to_agent user c0).
    { intros [= <- <-]. split; [ | done ].
      apply Forall_Forall2_diag, Forall_forall. auto. }
    intros [= <- <-]. split.
    + apply soft_delete_rows.
    + intros _ c' Hc'. by apply (soft_delete_marked P w id c').
  - intros Hnd c Hc Hdel req_query id.
    assert (Hlive : ∀ rows : list ClientRow,
              (∀ c', c' ∈ rows → c' ∈ clients w ∧ deleted_at c' = None) →
              client_id c ∉ client_id <$> rows).
    { intros rows Hrows (c' & Hid & Hc')%list_elem_of_fmap.
      destruct (Hrows c' Hc') as [Hin Hnone].
      by rewrite (primary_key (clients w) c c' Hnd Hc Hin Hid) in Hdel. }
    repeat split.
    + destruct (clients_list_shown P w user req_query)
        as (rows & -> & _ & [->|Hrows]); [ apply not_elem_of_nil | ].
      apply Hlive. intros c' Hc'.
      destruct (query_rows_elem P w user req_query rows c' Hrows Hc')
        as (? & ? & _). done.
    + destruct (clients_detail_shown P w user id)
        as [[-> _]|(c' & Hin & _ & Hnone & _ & -> & _)];
        [ apply not_elem_of_nil | ].
      apply (Hlive [c']). intros ? ->%list_elem_of_singleton. done.
    + destruct (clients_export_shown P w user req_query)
        as (rows & -> & _ & [->|Hrows]); [ apply not_elem_of_nil | ].
      apply Hlive. intros c' Hc'.
      destruct (query_rows_elem P w user req_query rows c' Hrows Hc')
        as (? & ? & _). done.
  - intros Hnd c e Hc Hlive He Hwho. unfold clients_detail.
    rewrite (select_live_client_unique w c Hnd Hc Hlive).
    assert (foreign_to_agent user c = false) as ->.
    { unfold foreign_to_agent. destruct Hwho as [Hm|Ha].
      - rewrite bool_decide_eq_false_2; [ done | ]. rewrite Hm. done.
      - rewrite (bool_decide_eq_true_2 (assigned_agent_id c = _)) by done.
        simpl. apply andb_false_r. }
    by rewrite He.
Qed.

Lemma soft_delete_invariant_witness :
  (∃ e, clients_detail ref_platform seeded_store charlie "client1"
        = ClientDetail e)
  ∧ ("client4" ∉ shown (clients_list ref_platform seeded_store charlie ∅))
  ∧ length (clients (clients_delete ref_platform seeded_store alice "client1").1)
    = length (clients seeded_store).
Proof.
  destruct (soft_delete_invariant ref_platform seeded_store charlie)
    as (_ & Hhidden & Hvisible).
  destruct (soft_delete_invariant ref_platform seeded_store alice)
    as (Hdelete & _ & _).
  assert (Hnd : NoDup (client_id <$> clients seeded_store)).
  { apply (bool_decide_unpack _). vm_compute. exact I. }
  split; [ | split ].
  - eexists.
    eapply (Hvisible Hnd
              (seed_client "client1" "John Doe" "john.doe@example.com"
                 "2023-10-05T15:00:00Z" (Some "user1") None)).
    + left.
    + reflexivity.
    + reflexivity.
    + left. reflexivity.
  - refine (proj1 (Hhidden Hnd
              (seed_client "client4" "Emily Davis" "emily.davis@example.com"
                 "2023-10-08T10:00:00Z" (Some "user1")
                 (Some "2023-11-01T00:00:00Z"))
              _ _ ∅ "client4")).
    + rewrite list_elem_of_In. simpl. auto 10.
    + done.
  - destruct (clients_delete ref_platform seeded_store alice "client1")
      as [w' r] eqn:E.
    symmetry. eapply Forall2_length. apply (proj1 (Hdelete "client1" w' r E)).
Defined.

(** C5, as stated, fails. A manager creates a client whose last
    contact is dated to the year 10000: the row is stored, with the
    date as the driver writes it, five digits to the year, which
    [Date.parse] does not read. The row is live, and the detail read
    answers the manager 500. *)
Lemma soft_delete_visibility_counterexample :
  ∃ w' r c,
    clients_create iso_platform seeded_store charlie far_date_record = (w', r)
    ∧ clients w' = (clients seeded_store ++ [c])%list
    ∧ last_contact_date c = Some "10000-01-01T00:00:00.000+00:00"
    ∧ deleted_at c = None
    ∧ role charlie = "manager"
    ∧ NoDup (client_id <$> clients w')
    ∧ clients_detail iso_platform w' charlie (client_id c) = ServerError.
Proof.
  destruct (clients_create iso_platform seeded_store charlie far_date_record)
    as [w' r] eqn:Hrun.
  pose proof Hrun as Hval. vm_compute in Hval. injection Hval as <- <-.
  eexists _, _, _. split; [ reflexivity | ].
  split; [ reflexivity | ].
  repeat split; try reflexivity.
  apply (bool_decide_unpack _). vm_compute. exact I.
Qed.

(** ** Sorting *)

Section SortProperties.
Context (P : Platform).

Lemma searchClientQuerySchema_inv o q :
  searchClientQuerySchema o = Some q →
  z_string_optional (o !! "query") = Some (query q)
  ∧ z_int_from_default 1 10 (o !! "limit") = Some (limit q)
  ∧ z_int_from_default 0 0 (o !! "offset") = Some (offset q)
  ∧ z_enum_default ["full_name"; "created_at"; "status"] "created_at"
      (o !! "sort_by") = Some (sort_by q)
  ∧ z_enum_default ["asc"; "desc"] "desc" (o !! "sort_order")
    = Some (sort_order q).
Proof.
  unfold searchClientQuerySchema. intros H.
  repeat
    match type of H with
    | context [ ?x ≫= _ ] =>
        destruct x; cbn [mbind option_bind] in H; [ | done ]
    end.
  injection H as <-. done.
Qed.

Lemma z_enum_default_elem options d v s :
  z_enum_default options d v = Some s → s = d ∨ s ∈ options.
Proof.
  unfold z_enum_default. destruct v as [[| | |s']|]; try done.
  - case_bool_decide; [ | done ]. intros [= <-]. by right.
  - intros [= <-]. by left.
Qed.

(** Whatever the request, the statement orders by [full_name] or by
    [created_at], ascending or descending. *)
Lemma effective_sort o q :
  searchClientQuerySchema o = Some q →
  whitelist_sort_by (sort_by q) ∈ ["full_name"; "created_at"]
  ∧ whitelist_sort_order (sort_order q) ∈ ["ASC"; "DESC"].
Proof.
  intros (_ & _ & _ & Hby & Hord)%searchClientQuerySchema_inv.
  apply z_enum_default_elem in Hby, Hord. split.
  - destruct Hby as [->|Hby]; [ set_solver | ].
    repeat (apply elem_of_cons in Hby as [->|Hby]; [ set_solver | ]).
    by apply elem_of_nil in Hby.
  - destruct Hord as [->|Hord]; [ set_solver | ].
    repeat (apply elem_of_cons in Hord as [->|Hord]; [ set_solver | ]).
    by apply elem_of_nil in Hord.
Qed.

(** A query string that asks for a field of the handler's allow-list
    which the schema's enumeration lacks does not parse. *)
Lemma searchClientQuerySchema_sort_by_refused (o : object) s :
  s ∉ ["full_name"; "created_at"; "status"] →
  o !! "sort_by" = Some (VStr s) →
  searchClientQuerySchema o = None.
Proof.
  intros Hs Hby. destruct (searchClientQuerySchema o) as [q|] eqn:E; [ | done ].
  apply searchClientQuerySchema_inv in E as (_ & _ & _ & E & _).
  rewrite Hby in E. simpl in E. by rewrite bool_decide_eq_false_2 in E.
Qed.

(** The values of a query string are strings, which the schema's
    [z.number()] refuses: a request that carries [limit] or [offset]
    does not parse either. *)
Lemma searchClientQuerySchema_paging_refused (o : object) k s :
  k = "limit" ∨ k = "offset" →
  o !! k = Some (VStr s) →
  searchClientQuerySchema o = None.
Proof.
  intros Hk Ho. destruct (searchClientQuerySchema o) as [q|] eqn:E; [ | done ].
  apply searchClientQuerySchema_inv in E as (_ & El & Eo & _).
  destruct Hk as [->| ->]; rewrite Ho in *; done.
Qed.

(** Under a total and transitive collation the statement's rows come
    out in order. *)
Lemma select_clients_sorted w user q col sb so rows :
  Total (λ a b : string, Is_true (text_leb P a b)) →
  Transitive (λ a b : string, Is_true (text_leb P a b)) →
  order_column sb = Some col →
  so ≠ "DESC" →
  select_clients P w user q sb so = Some rows →
  StronglySorted (λ a b, Is_true (text_leb P a b)) (col <$> rows).
Proof.
  intros Htot Htrans Hcol Hso. unfold select_clients. rewrite Hcol. simpl.
  intros [= <-].
  apply (StronglySorted_fmap _ (λ a b, Is_true (row_leb P col so a b)));
    [ intros x y; unfold row_leb; by rewrite bool_decide_eq_false_2 | ].
  eapply StronglySorted_app_1_l. erewrite take_drop.
  eapply StronglySorted_app_1_r. erewrite take_drop.
  unfold order_by. apply StronglySorted_merge_sort.
  - intros x y z. unfold row_leb. rewrite bool_decide_eq_false_2 by done.
    apply Htrans.
  - intros x y. unfold row_leb. rewrite bool_decide_eq_false_2 by done.
    apply Htot.
Qed.

End SortProperties.

(** The collation that sets letters' case aside is total and
    transitive. *)
Lemma locale_leb_total :
  Total (λ a b : string, Is_true (text_leb locale_platform a b)).
Proof.
  intros a b. change (String.le (fold_case a) (fold_case b)
                      ∨ String.le (fold_case b) (fold_case a)).
  apply total, _.
Qed.

Lemma locale_leb_transitive :
  Transitive (λ a b : string, Is_true (text_leb locale_platform a b)).
Proof.
  intros a b c.
  change (String.le (fold_case a) (fold_case b)
          → String.le (fold_case b) (fold_case c)
          → String.le (fold_case a) (fold_case c)).
  apply transitivity.
Qed.

(** C8, as amended. Under a total and transitive collation of the text
    columns, the rows the export handler serialises for
    [sort_by=full_name] and [sort_order=asc] are in ascending order of
    [full_name] by that collation, and so is what a GET of the export
    path answers; where the collation compares code unit by code unit,
    this is the ascending case-sensitive lexicographic order. *)
Theorem export_sorted_by_name (P : Platform) (w : World) (user : User)
    (o : object) (r : Response) :
  Total (λ a b : string, Is_true (text_leb P a b)) →
  Transitive (λ a b : string, Is_true (text_leb P a b)) →
  o !! "sort_by" = Some (VStr "full_name") →
  o !! "sort_order" = Some (VStr "asc") →
  (r = clients_export P w user o
   ∨ serve_get P w user ["clients"; "export"] o = Some r) →
  StronglySorted (λ a b, Is_true (text_leb P a b)) (names r)
  ∧ ((∀ a b, text_leb P a b = String.leb a b) →
     StronglySorted lex_le (names r)).
Proof.
  intros Htot Htrans Hby Hord Hr.
  assert (Hsorted : StronglySorted (λ a b, Is_true (text_leb P a b))
                      (names r)).
  { destruct Hr as [->|Hget].
    - unfold clients_export, query_rows.
      destruct (searchClientQuerySchema o) as [q|] eqn:E; [ | constructor ].
      cbn [mbind option_bind].
      destruct (searchClientQuerySchema_inv o q E) as (_ & _ & _ & Eby & Eord).
      rewrite Hby in Eby. rewrite Hord in Eord.
      injection Eby as <-. injection Eord as <-.
      destruct (select_clients P w user q _ _) as [rows|] eqn:S;
        [ | constructor ].
      destruct (json2csv P rows); [ | constructor ]. simpl.
      by eapply (select_clients_sorted P w user q full_name);
        [ | | | | exact S ].
    - change (Some (clients_detail P w user "export") = Some r) in Hget.
      injection Hget as <-. unfold clients_detail.
      destruct (select_live_client w "export") as [|client rest];
        [ constructor | ].
      destruct (foreign_to_agent user client); [ constructor | ].
      destruct (clientEntitySchema P client); repeat constructor. }
  split; [ exact Hsorted | ].
  intros Hcoll. clear Hr.
  induction Hsorted as [|a l _ IH Hall]; constructor; [ done | ].
  eapply Forall_impl; [ exact Hall | ].
  intros b Hb. unfold lex_le. rewrite <- Hcoll. by apply Is_true_true.
Qed.

Lemma export_sorted_by_name_witness :
  (names (clients_export ref_platform seeded_store charlie
            (obj [("sort_by", "full_name"); ("sort_order", "asc")]))
   = ["Jane Smith"; "John Doe"; "Robert Brown"; "alice cooper"]
   ∧ StronglySorted lex_le
       ["Jane Smith"; "John Doe"; "Robert Brown"; "alice cooper"])
  ∧ (names (clients_export locale_platform seeded_store charlie
              (obj [("sort_by", "full_name"); ("sort_order", "asc")]))
     = ["alice cooper"; "Jane Smith"; "John Doe"; "Robert Brown"]
     ∧ StronglySorted (λ a b, Is_true (locale_leb a b))
         ["alice cooper"; "Jane Smith"; "John Doe"; "Robert Brown"]).
Proof.
  assert (Htot : Total (λ a b : string, Is_true (text_leb ref_platform a b)))
    by (change (Total String.le); apply _).
  assert (Htr : Transitive (λ a b : string, Is_true (text_leb ref_platform a b)))
    by (change (Transitive String.le); apply _).
  split; (split; [ reflexivity | ]).
  - apply (proj2 (export_sorted_by_name ref_platform seeded_store charlie
             (obj [("sort_by", "full_name"); ("sort_order", "asc")])
             (clients_export ref_platform seeded_store charlie
                (obj [("sort_by", "full_name"); ("sort_order", "asc")]))
             Htot Htr eq_refl eq_refl (or_introl eq_refl))).
    reflexivity.
  - apply (proj1 (export_sorted_by_name locale_platform seeded_store charlie
             (obj [("sort_by", "full_name"); ("sort_order", "asc")])
             (clients_export locale_platform seeded_store charlie
                (obj [("sort_by", "full_name"); ("sort_order", "asc")]))
             locale_leb_total locale_leb_transitive eq_refl eq_refl
             (or_introl eq_refl))).
Defined.

(** C8, as stated, fails: under a collation that sets letters' case
    aside the export for [sort_by=full_name] and [sort_order=asc]
    lists [alice cooper] before [Jane Smith], which the case-sensitive
    lexicographic order places after it. *)
Lemma export_order_counterexample :
  names (clients_export locale_platform seeded_store charlie
           (obj [("sort_by", "full_name"); ("sort_order", "asc")]))
  = ["alice cooper"; "Jane Smith"; "John Doe"; "Robert Brown"]
  ∧ lex_le "Jane Smith" "alice cooper"
  ∧ ¬ lex_le "alice cooper" "Jane Smith"
  ∧ ¬ StronglySorted lex_le
        (names (clients_export locale_platform seeded_store charlie
                  (obj [("sort_by", "full_name"); ("sort_order", "asc")]))).
Proof.
  split; [ reflexivity | ]. split; [ reflexivity | ].
  assert (Hno : ¬ lex_le "alice cooper" "Jane Smith") by (intros H; discriminate H).
  split; [ exact Hno | ].
  change (¬ StronglySorted lex_le
            ["alice cooper"; "Jane Smith"; "John Doe"; "Robert Brown"]).
  intros H. apply StronglySorted_inv in H as [_ H].
  apply Forall_inv in H. by apply Hno.
Qed.

(** C7. The handlers' allow-list names [client_id] and [updated_at],
    but a request that asks for either does not pass
    [searchClientQuerySchema], whose enumeration lacks them: the listing
    and the export handler both answer it with a server error instead of
    rows in that order. *)
Theorem sort_allow_list_refused (P : Platform) (w : World) (user : User)
    (o : object) (s : string) :
  s = "client_id" ∨ s = "updated_at" →
  o !! "sort_by" = Some (VStr s) →
  s ∈ allowedSortBy
  ∧ clients_list P w user o = ServerError
  ∧ clients_export P w user o = ServerError.
Proof.
  intros Hs Hby.
  assert (Hparse : searchClientQuerySchema o = None).
  { apply (searchClientQuerySchema_sort_by_refused o s); [ | done ].
    destruct Hs as [->| ->]; set_solver. }
  split; [ destruct Hs as [->| ->]; unfold allowedSortBy; set_solver | ].
  unfold clients_list, clients_export, query_rows. by rewrite Hparse.
Qed.

Lemma sort_allow_list_refused_witness :
  clients_list ref_platform seeded_store charlie
    (obj [("sort_by", "updated_at"); ("sort_order", "asc")]) = ServerError
  ∧ status_code
      (clients_list ref_platform seeded_store charlie
         (obj [("sort_by", "created_at"); ("sort_order", "asc")])) = 200%nat.
Proof.
  split; [ | reflexivity ].
  apply (sort_allow_list_refused ref_platform seeded_store charlie
           (obj [("sort_by", "updated_at"); ("sort_order", "asc")])
           "updated_at").
  - right. reflexivity.
  - reflexivity.
Defined.

(** ** The two read paths *)

(** The two handlers read the same rows: when both answer with
    records, these are the same identities in the same order. *)
Lemma list_export_same_rows (P : Platform) w user o l rows csv :
  clients_list P w user o = ClientList l →
  clients_export P w user o = Csv rows csv →
  shown (ClientList l) = shown (Csv rows csv).
Proof.
  unfold clients_list, clients_export.
  destruct (query_rows P w user o) as [rows'|]; [ | done ].
  destruct (mapM (clientEntitySchema P) rows') as [l'|] eqn:E; [ | done ].
  destruct (json2csv P rows'); [ | done ].
  intros [= <-] [= <- _]. simpl.
  by destruct (mapM_entities P rows' l' E).
Qed.

(** The import has no such rival: no route registered for POST before
    it matches its path. *)
Lemma import_route_reached :
  route POST ["clients"; "import"] = Some (PostClientsImport, []).
Proof. reflexivity. Qed.

(** C2. The path of the export is matched by the route of the detail
    read, registered before it, with [export] as the client identity:
    the export handler is never reached. On the seeded store a manager's
    listing answers four records while the same request to the export
    path answers 404. *)
Theorem export_route_shadowed :
  route GET ["clients"; "export"] = Some (GetClient, [("client_id", "export")])
  ∧ (∀ P w user o,
       serve_get P w user ["clients"; "export"] o
       = Some (clients_detail P w user "export"))
  ∧ shown <$> serve_get ref_platform seeded_store charlie ["clients"] ∅
    = Some ["client5"; "client3"; "client2"; "client1"]
  ∧ serve_get ref_platform seeded_store charlie ["clients"; "export"] ∅
    = Some (Error 404 "Client not found")
  ∧ shown (clients_export ref_platform seeded_store charlie ∅)
    = ["client5"; "client3"; "client2"; "client1"].
Proof. repeat split. Qed.

(** ** Attachments *)

Section AttachmentProperties.
Context (P : Platform).

(** The listing consults neither the caller nor the [clients] table:
    it answers the rows of the given client identity, or a server error
    when one of them does not pass the attachment entity schema. *)
Lemma attachments_list_unscoped w user id :
  (∃ l, attachments_list P w user id = AttachmentList l
        ∧ mapM (clientAttachmentEntitySchema P) (select_attachments w id)
          = Some l)
  ∨ attachments_list P w user id = ServerError
    ∧ mapM (clientAttachmentEntitySchema P) (select_attachments w id) = None.
Proof.
  unfold attachments_list.
  destruct (mapM (clientAttachmentEntitySchema P) (select_attachments w id));
    eauto.
Qed.

Lemma attachments_list_any_caller w user user' id :
  attachments_list P w user id = attachments_list P w user' id.
Proof. reflexivity. Qed.

End AttachmentProperties.

(** C9. The upload handler stores [file_url] as a path under
    [/attachments/]. When the URL check refuses such a path, an upload
    that has stored its row makes every later listing of that client's
    attachments, by any caller, a server error rather than the rows. *)
Theorem attachment_listing_after_upload (P : Platform) (w w' : World)
    (user caller : User) (id originalname filename : string) (r : Response) :
  is_url P ("/attachments/" +:+ filename) = false →
  attachments_create P w user id (Some (originalname, filename)) = (w', r) →
  client_attachments w' ≠ client_attachments w →
  attachments_list P w' caller id = ServerError.
Proof.
  intros Hurl. unfold attachments_create.
  destruct (select_live_client w id) as [|client rest];
    [ by intros [= <- _] | ].
  destruct (foreign_to_agent user client); [ by intros [= <- _] | ].
  set (row := {| attachment_id := uuidv4 P (tick w); att_client_id := id;
                 uploaded_by := user_id user; file_name := originalname;
                 file_url := "/attachments/" +:+ filename;
                 uploaded_at := now_iso P (tick w) |}).
  assert (Hrow : clientAttachmentEntitySchema P row = None).
  { unfold clientAttachmentEntitySchema. simpl. by rewrite Hurl. }
  unfold insert_attachment.
  match goal with |- context [ if ?b then _ else _ ] => destruct b end;
    [ | by intros [= <- _] ].
  rewrite Hrow. intros [= <- _] _.
  destruct (attachments_list_unscoped P
              (bump (set_client_attachments w (client_attachments w ++ [row])))
              caller id) as [(ents & _ & Hents)|[H _]]; [ | done ].
  exfalso. assert (Hsome : is_Some
    (mapM (clientAttachmentEntitySchema P)
       (select_attachments
          (bump (set_client_attachments w (client_attachments w ++ [row])))
          id))) by eauto.
  apply mapM_is_Some_1 in Hsome. rewrite Forall_forall in Hsome.
  specialize (Hsome row). unfold compose in Hsome. rewrite Hrow in Hsome.
  apply (is_Some_None (A := AttachmentEntity.t)), Hsome.
  unfold select_attachments. simpl. rewrite List.filter_app, elem_of_app.
  right. simpl. rewrite bool_decide_eq_true_2 by done. left.
Qed.

Lemma attachment_listing_after_upload_witness :
  attachments_list ref_platform seeded_store bob "client1" = AttachmentList []
  ∧ attachments_list ref_platform
      (attachments_create ref_platform seeded_store alice "client1"
         (Some ("deed.pdf", "7f3c-deed.pdf"))).1
      bob "client1" = ServerError.
Proof.
  split; [ reflexivity | ].
  destruct (attachments_create ref_platform seeded_store alice "client1"
              (Some ("deed.pdf", "7f3c-deed.pdf"))) as [w' r] eqn:E.
  apply (attachment_listing_after_upload ref_platform seeded_store w' alice
           bob "client1" "deed.pdf" "7f3c-deed.pdf" r).
  - reflexivity.
  - exact E.
  - revert E. vm_compute. intros [= <- _]. discriminate.
Defined.

(** * Properties of the other handlers *)

(** ** POST /clients *)

Section CreateProperties.
Context (P : Platform).

(** What a successful [INSERT INTO clients] has checked and done. *)
Lemma insert_client_Some w row w1 :
  insert_client P w row = Some w1 →
  w1 = set_clients w (clients w ++ [row])
  ∧ (client_id row ∉ client_id <$> clients w)
  ∧ (∀ a, assigned_agent_id row = Some a → a ∈ users w).
Proof.
  unfold insert_client.
  destruct (db_up P (tick w)); [ | done ]. simpl.
  case_bool_decide; [ | done ]. simpl.
  destruct (assigned_agent_id row) as [a|].
  - case_bool_decide; [ | done ]. intros [= <-]. repeat split; try done.
    by intros ? [= <-].
  - intros [= <-]. done.
Qed.

(** The row POST /clients stores when it answers 201. *)
Lemma clients_create_created w w' user body e :
  clients_create P w user body = (w', ClientCreated e) →
  ∃ data,
    createClientInputSchema P body = inr data
    ∧ let row := import_row P (uuidv4 P (tick w)) (now_iso P (tick w))
                   (assign_to_creator user data) in
      w' = bump (set_clients w (clients w ++ [row]))
      ∧ insert_client P w row = Some (set_clients w (clients w ++ [row]))
      ∧ clientEntitySchema P row = Some e.
Proof.
  unfold clients_create. intros Hrun.
  destruct (createClientInputSchema P body) as [paths|data]; [ done | ].
  exists data. split; [ done | ]. cbv zeta in *.
  destruct (insert_client P w _) as [w1|] eqn:I; [ | done ].
  destruct (insert_client_Some _ _ _ I) as (-> & _ & _).
  destruct (clientEntitySchema P _) as [e'|] eqn:E; [ | done ].
  injection Hrun as <- <-. done.
Qed.

(** POST /clients adds at most one row, at the end, and touches nothing
    else. *)
Lemma clients_create_frame w w' user body r :
  clients_create P w user body = (w', r) →
  users w' = users w
  ∧ client_attachments w' = client_attachments w
  ∧ (clients w' = clients w
     ∨ ∃ row, clients w' = (clients w ++ [row])%list
              ∧ (client_id row ∉ client_id <$> clients w)
              ∧ deleted_at row = None
              ∧ (∀ a, assigned_agent_id row = Some a → a ∈ users w)).
Proof.
  unfold clients_create.
  destruct (createClientInputSchema P body) as [paths|data].
  { intros Hrun. injection Hrun as <- <-. auto. }
  cbv zeta. destruct (insert_client P w _) as [w1|] eqn:I.
  2:{ intros Hrun. injection Hrun as <- <-. auto. }
  destruct (insert_client_Some _ _ _ I) as (-> & Hfresh & Hfk).
  assert (∀ r', (bump (set_clients w (clients w ++ [import_row P (uuidv4 P (tick w)) (now_iso P (tick w)) (assign_to_creator user data)])), r') = (w', r) →
     users w' = users w ∧ client_attachments w' = client_attachments w ∧
     (clients w' = clients w ∨ ∃ row, clients w' = (clients w ++ [row])%list
              ∧ (client_id row ∉ client_id <$> clients w)
              ∧ deleted_at row = None
              ∧ (∀ a, assigned_agent_id row = Some a → a ∈ users w))) as Hgoal.
  { intros r' Hrun. injection Hrun as <- <-. repeat split. right. eexists.
    split; [ reflexivity | ]. split; [ exact Hfresh | ]. split; [ done | exact Hfk ]. }
  destruct (clientEntitySchema P _); apply Hgoal.
Qed.

Lemma clients_bump w : clients (bump w) = clients w.
Proof. reflexivity. Qed.

(** The owner of the row POST /clients builds. *)
Lemma created_row_owner user (body : object) data id now :
  createClientInputSchema P body = inr data →
  assigned_agent_id (import_row P id now (assign_to_creator user data))
  = match body !! "assigned_agent_id" with
    | Some (VStr a) =>
        if bool_decide (a = "")
        then (if bool_decide (role user = "agent")
              then or_null (Val (user_id user)) else None)
        else Some a
    | _ => if bool_decide (role user = "agent")
           then or_null (Val (user_id user)) else None
    end.
Proof.
  unfold createClientInputSchema.
  destruct (parse_fields P body) as [data'|] eqn:E; [ | done ].
  intros Hd. injection Hd as ->.
  destruct (parse_fields_inv P body data E)
    as (_ & _ & _ & _ & _ & _ & _ & _ & _ & _ & Hk & _).
  unfold assign_to_creator.
  destruct (body !! "assigned_agent_id") as [v|]; [ destruct v as [| | |a] | ];
    simpl in Hk; try done; injection Hk as Hk; rewrite <- Hk; simpl.
  - destruct (bool_decide (role user = "agent")); simpl; rewrite <- ?Hk; done.
  - destruct (bool_decide (a = "")) eqn:Ea; simpl.
    + destruct (bool_decide (role user = "agent")); simpl; rewrite <- ?Hk;
        simpl; rewrite ?Ea; done.
    + rewrite andb_false_r. rewrite <- Hk. simpl. by rewrite Ea.
  - destruct (bool_decide (role user = "agent")); simpl; rewrite <- ?Hk; done.
Qed.

End CreateProperties.

(** X1. When POST /clients answers 201, the client is assigned to the
    user the body names, who is a known user; when the body names none
    (no key, [null] or the empty string), to the caller if the caller is
    an agent, and to nobody otherwise. *)
Theorem create_assignment (P : Platform) (w w' : World) (user : User)
    (body : object) (client : Entity.t) :
  clients_create P w user body = (w', ClientCreated client) →
  let given := body !! "assigned_agent_id" in
  let unnamed := given = None ∨ given = Some VNull ∨ given = Some (VStr "") in
  (∀ a, given = Some (VStr a) → a ≠ "" →
     Entity.assigned_agent_id client = Some a ∧ a ∈ users w)
  ∧ (unnamed → role user = "agent" → user_id user ≠ "" →
     Entity.assigned_agent_id client = Some (user_id user))
  ∧ (unnamed → role user ≠ "agent" → Entity.assigned_agent_id client = None).
Proof.
  intros Hrun given unnamed.
  destruct (clients_create_created P w w' user body client Hrun)
    as (data & Hdata & _ & Hins & Hent).
  destruct (clientEntitySchema_row P _ _ Hent) as (_ & -> & _).
  destruct (insert_client_Some P _ _ _ Hins) as (_ & _ & Hfk).
  rewrite (created_row_owner P user body data _ _ Hdata) in *.
  fold given in Hfk |- *. split; [ | split ].
  - intros a Ha Hne. rewrite Ha in *. rewrite bool_decide_eq_false_2 in * by done.
    split; [ done | by apply Hfk ].
  - intros Hun Hrole Huid.
    assert (or_null (Val (user_id user)) = Some (user_id user)) as Hor.
    { simpl. by rewrite bool_decide_eq_false_2. }
    destruct Hun as [->|[->| ->]]; simpl;
      rewrite ?bool_decide_eq_true_2 by done; done.
  - intros Hun Hrole.
    destruct Hun as [->|[->| ->]]; simpl;
      rewrite ?(bool_decide_eq_false_2 (role user = "agent")) by done; done.
Qed.


Lemma create_assignment_witness :
  match clients_create iso_platform seeded_store alice plain_record with
  | (_, ClientCreated client) =>
      Entity.assigned_agent_id client = Some "user1"
  | _ => False
  end.
Proof.
  destruct (clients_create iso_platform seeded_store alice plain_record)
    as [w' r] eqn:Hrun.
  destruct r as [r|client|client];
    [ exfalso; revert Hrun; vm_compute; intros Hx; discriminate Hx | 
    | exfalso; revert Hrun; vm_compute; intros Hx; discriminate Hx ].
  apply (create_assignment iso_platform seeded_store w' alice plain_record
           client Hrun).
  - left. reflexivity.
  - reflexivity.
  - done.
Defined.

(** X2. Under the primary key, the client POST /clients answers with
    is the one a detail read of its identity returns afterwards to the
    caller, when the caller is not an agent or is the agent it is
    assigned to; an agent who created it for somebody else is refused.
    The primary key still holds afterwards. *)
Theorem create_then_detail (P : Platform) (w w' : World) (user : User)
    (body : object) (client : Entity.t) :
  NoDup (client_id <$> clients w) →
  clients_create P w user body = (w', ClientCreated client) →
  NoDup (client_id <$> clients w')
  ∧ (role user ≠ "agent"
     ∨ Entity.assigned_agent_id client = Some (user_id user) →
     clients_detail P w' user (Entity.client_id client) = ClientDetail client)
  ∧ (role user = "agent" →
     Entity.assigned_agent_id client ≠ Some (user_id user) →
     clients_detail P w' user (Entity.client_id client)
     = Error 403 "Forbidden").
Proof.
  intros Hnd Hrun.
  destruct (clients_create_created P w w' user body client Hrun)
    as (data & Hdata & -> & Hins & Hent).
  set (row := import_row P _ _ _) in *.
  destruct (insert_client_Some P _ _ _ Hins) as (_ & Hfresh & _).
  destruct (clientEntitySchema_row P _ _ Hent) as (Hid & Hown & _).
  assert (Hnd' : NoDup (client_id <$> (clients w ++ [row])%list)).
  { rewrite fmap_app. simpl. apply NoDup_app. split; [ done | ]. split.
    - intros x Hx Heq%list_elem_of_singleton. by subst x.
    - apply NoDup_singleton. }
  assert (Hsel : select_live_client
                   (bump (set_clients w (clients w ++ [row])%list))
                   (client_id row) = [row]).
  { apply (select_live_client_unique
             (bump (set_clients w (clients w ++ [row])%list)) row);
      [ exact Hnd' | simpl; set_solver | done ]. }
  split; [ exact Hnd' | ]. rewrite Hid, Hown.
  unfold clients_detail. rewrite Hsel. unfold foreign_to_agent. split.
  - intros [Hrole|Hmine].
    + rewrite (bool_decide_eq_false_2 (role user = "agent")) by done.
      simpl. by rewrite Hent.
    + rewrite (bool_decide_eq_true_2 (assigned_agent_id row = _)) by done.
      rewrite andb_false_r. by rewrite Hent.
  - intros Hrole Hother.
    rewrite (bool_decide_eq_true_2 (role user = "agent")) by done.
    by rewrite (bool_decide_eq_false_2 (assigned_agent_id row = _)).
Qed.

Lemma create_then_detail_witness :
  match clients_create iso_platform seeded_store charlie plain_record with
  | (w', ClientCreated client) =>
      clients_detail iso_platform w' charlie (Entity.client_id client)
      = ClientDetail client
  | _ => False
  end.
Proof.
  destruct (clients_create iso_platform seeded_store charlie plain_record)
    as [w' r] eqn:Hrun.
  destruct r as [r|client|client];
    [ exfalso; revert Hrun; vm_compute; intros Hx; discriminate Hx | 
    | exfalso; revert Hrun; vm_compute; intros Hx; discriminate Hx ].
  apply (create_then_detail iso_platform seeded_store w' charlie plain_record
           client).
  - apply (bool_decide_unpack _). vm_compute. exact I.
  - exact Hrun.
  - left. done.
Defined.

(** ** PUT /clients/:client_id *)

Section UpdateProperties.
Context (P : Platform).

Lemma update_row_frame u now c :
  client_id (update_row P u now c) = client_id c
  ∧ created_at (update_row P u now c) = created_at c
  ∧ deleted_at (update_row P u now c) = deleted_at c.
Proof. done. Qed.

(** The ways PUT /clients/:client_id ends: without a change, or with
    the [UPDATE] done on a live row the caller may touch. *)
Lemma clients_update_inv w w' user id body r :
  clients_update P w user id body = (w', r) →
  (w' = w
   ∧ (r = Resp ServerError ∨ r = Resp (Error 404 "Client not found")
      ∨ r = Resp (Error 403 "Forbidden")))
  ∨ ∃ u c rest,
      updateClientInputSchema P body = Some u
      ∧ select_live_client w id = c :: rest
      ∧ foreign_to_agent user c = false
      ∧ agent_known w u = true
      ∧ w' = bump (update_clients P w id u).1
      ∧ match (update_clients P w id u).2 with
        | row :: _ =>
            match clientEntitySchema P row with
            | Some client => r = ClientUpdated client
            | None => r = Resp ServerError
            end
        | [] => r = Resp ServerError
        end.
Proof.
  unfold clients_update. intros Hrun.
  destruct (updateClientInputSchema P body) as [u|];
    [ | injection Hrun as <- <-; left; auto ].
  destruct (select_live_client w id) as [|c rest] eqn:Hsel;
    [ injection Hrun as <- <-; left; auto | ].
  destruct (foreign_to_agent user c) eqn:Hf;
    [ injection Hrun as <- <-; left; auto | ].
  destruct (agent_known w u) eqn:Hk;
    [ | injection Hrun as <- <-; left; auto ].
  right. exists u, c, rest.
  destruct (update_clients P w id u) as [w1 rows]. simpl.
  destruct rows as [|row rows'];
    [ injection Hrun as <- <-; repeat split; done | ].
  destruct (clientEntitySchema P row); injection Hrun as <- <-;
    repeat split; done.
Qed.

(** The table after the [UPDATE], row by row. *)
Lemma update_clients_rows w id u :
  Forall2
    (λ c c', (client_id c ≠ id ∧ c' = c)
             ∨ (client_id c = id
                ∧ c' = update_row P u (current_timestamp P (tick w)) c))
    (clients w) (clients (update_clients P w id u).1).
Proof.
  unfold update_clients. simpl. apply Forall2_fmap_r, Forall_Forall2_diag.
  apply Forall_forall. intros c _. unfold compose. case_bool_decide; auto.
Qed.

End UpdateProperties.

(** X3. PUT /clients/:client_id never adds or removes a row, never
    changes the identity, the creation date or the deletion marker of
    any row, and leaves the rows of other identities, the users and the
    attachments as they were; when it answers 404 or 403 the store is
    unchanged. *)
Theorem update_frame (P : Platform) (w w' : World) (user : User)
    (id : string) (body : object) (r : Reply) :
  clients_update P w user id body = (w', r) →
  Forall2
    (λ c c', client_id c' = client_id c
             ∧ created_at c' = created_at c
             ∧ deleted_at c' = deleted_at c
             ∧ (client_id c ≠ id → c' = c))
    (clients w) (clients w')
  ∧ users w' = users w
  ∧ client_attachments w' = client_attachments w
  ∧ (reply_status r = 404%nat ∨ reply_status r = 403%nat → w' = w).
Proof.
  intros Hrun.
  destruct (clients_update_inv P w w' user id body r Hrun)
    as [[-> _]|(u & c & rest & _ & _ & _ & _ & -> & Hr)].
  - repeat split; try done.
    apply Forall_Forall2_diag, Forall_forall. auto.
  - split; [ | split; [ done | split; [ done | ] ] ].
    + eapply Forall2_impl; [ apply update_clients_rows | ].
      intros x x' [[Hne ->]|[Heq ->]]; repeat split; try done.
    + intros Hst. exfalso.
      destruct ((update_clients P w id u).2) as [|row rows];
        [ subst r; simpl in Hst; destruct Hst; done | ].
      destruct (clientEntitySchema P row); subst r; simpl in Hst;
        destruct Hst; done.
Qed.

Lemma update_frame_witness :
  length (clients (clients_update iso_platform seeded_store alice "client1"
                     (obj [("status", "closed")])).1)
  = length (clients seeded_store).
Proof.
  destruct (clients_update iso_platform seeded_store alice "client1"
              (obj [("status", "closed")])) as [w' r] eqn:Hrun.
  symmetry. eapply Forall2_length.
  apply (proj1 (update_frame iso_platform seeded_store w' alice "client1"
                  (obj [("status", "closed")]) r Hrun)).
Defined.

Section UpdateEffects.
Context (P : Platform).

Lemma updateClientInputSchema_inv o u :
  updateClientInputSchema P o = Some u →
  z_optional (Zod.string_min_max 1 255) (o !! "full_name")
  = Some (Update.full_name u)
  ∧ z_optional (Zod.string_min_max 7 20) (o !! "phone")
    = Some (Update.phone u)
  ∧ z_optional (Zod.string_email P) (o !! "email") = Some (Update.email u)
  ∧ Zod.string_nullable_optional (o !! "property_location")
    = Some (Update.property_location u)
  ∧ Zod.string_nullable_optional (o !! "property_type")
    = Some (Update.property_type u)
  ∧ Zod.string_nullable_optional (o !! "budget_range")
    = Some (Update.budget_range u)
  ∧ Zod.string_nullable_optional (o !! "additional_preferences")
    = Some (Update.additional_preferences u)
  ∧ z_optional (Zod.string_min 1) (o !! "status") = Some (Update.status u)
  ∧ Zod.coerce_date_nullable_optional P (o !! "last_contact_date")
    = Some (Update.last_contact_date u)
  ∧ Zod.coerce_date_nullable_optional P (o !! "next_follow_up_date")
    = Some (Update.next_follow_up_date u)
  ∧ Zod.string_nullable_optional (o !! "assigned_agent_id")
    = Some (Update.assigned_agent_id u)
  ∧ Zod.string_nullable_optional (o !! "notes") = Some (Update.notes u).
Proof.
  unfold updateClientInputSchema. intros H.
  repeat
    match type of H with
    | context [ ?x ≫= _ ] => destruct x; simpl in H; [ | done ]
    end.
  injection H as <-. simpl. repeat split.
Qed.

(** Under the primary key, the rows of an identity are one row. *)
Lemma filter_id_unique (l : list ClientRow) c :
  NoDup (client_id <$> l) → c ∈ l →
  List.filter (λ x, bool_decide (client_id x = client_id c)) l = [c].
Proof.
  induction l as [|x l IH]; intros Hnd Hin; [ by apply elem_of_nil in Hin | ].
  rewrite fmap_cons in Hnd. apply NoDup_cons in Hnd as [Hx Hnd]. simpl.
  apply elem_of_cons in Hin as [<-|Hin].
  - rewrite bool_decide_eq_true_2 by done. f_equal.
    clear IH Hnd. induction l as [|y l IH]; [ done | ].
    rewrite fmap_cons, not_elem_of_cons in Hx. destruct Hx as [Hy Hl].
    simpl. rewrite bool_decide_eq_false_2 by done. by apply IH.
  - rewrite bool_decide_eq_false_2; [ by apply IH | ].
    intros Heq. apply Hx. rewrite Heq. by apply list_elem_of_fmap_2.
Qed.

(** The identities of the table are those before the [UPDATE]. *)
Lemma update_clients_ids w id u :
  client_id <$> clients (update_clients P w id u).1 = client_id <$> clients w.
Proof.
  unfold update_clients. simpl. rewrite <- list_fmap_compose.
  apply list_fmap_ext. intros i c _. simpl. by case_bool_decide.
Qed.

(** Under the primary key, a successful PUT has rewritten the one live
    row of the identity, which is then the one live row of it. *)
Lemma clients_update_updated w w' user id body client :
  NoDup (client_id <$> clients w) →
  clients_update P w user id body = (w', ClientUpdated client) →
  ∃ u c,
    updateClientInputSchema P body = Some u
    ∧ c ∈ clients w ∧ client_id c = id ∧ deleted_at c = None
    ∧ foreign_to_agent user c = false
    ∧ agent_known w u = true
    ∧ let row := update_row P u (current_timestamp P (tick w)) c in
      clientEntitySchema P row = Some client
      ∧ row ∈ clients w'
      ∧ NoDup (client_id <$> clients w')
      ∧ select_live_client w' id = [row].
Proof.
  intros Hnd Hrun.
  destruct (clients_update_inv P w w' user id body _ Hrun)
    as [[_ [?|[?|?]]]|(u & c & rest & Hu & Hsel & Hf & Hk & -> & Hr)];
    try done.
  assert (Hc : c ∈ select_live_client w id) by (rewrite Hsel; left).
  apply select_live_client_elem in Hc as (Hin & <- & Hlive).
  exists u, c. repeat split; try done.
  - revert Hr. unfold update_clients. simpl.
    rewrite (filter_id_unique _ c Hnd Hin). simpl.
    destruct (clientEntitySchema P _); [ by intros [= ->] | done ].
  - unfold update_clients. simpl. apply list_elem_of_fmap.
    exists c. by rewrite bool_decide_eq_true_2.
  - rewrite clients_bump, update_clients_ids. done.
  - assert (Hrow : update_row P u (current_timestamp P (tick w)) c
                   ∈ clients (bump (update_clients P w (client_id c) u).1)).
    { unfold update_clients. simpl. apply list_elem_of_fmap.
      exists c. by rewrite bool_decide_eq_true_2. }
    apply (select_live_client_unique _ _) in Hrow; [ exact Hrow | | done ].
    rewrite clients_bump, update_clients_ids. done.
Qed.

End UpdateEffects.

(** X4. Under the primary key, when an agent's PUT names another user
    as [assigned_agent_id] and is answered with the client, that user
    is a known one and owns the client from then on: the caller's next
    detail read is refused, and the new agent's returns the client the
    PUT answered. *)
Theorem update_hands_over (P : Platform) (w w' : World) (user : User)
    (id a : string) (body : object) (client : Entity.t) :
  NoDup (client_id <$> clients w) →
  role user = "agent" →
  a ≠ user_id user →
  body !! "assigned_agent_id" = Some (VStr a) →
  clients_update P w user id body = (w', ClientUpdated client) →
  a ∈ users w
  ∧ Entity.assigned_agent_id client = Some a
  ∧ clients_detail P w' user id = Error 403 "Forbidden"
  ∧ clients_detail P w' {| user_id := a; role := "agent" |} id
    = ClientDetail client.
Proof.
  intros Hnd Hrole Hne Hbody Hrun.
  destruct (clients_update_updated P w w' user id body client Hnd Hrun)
    as (u & c & Hu & Hin & Hid & Hlive & Hf & Hk & Hent & _ & _ & Hsel).
  destruct (updateClientInputSchema_inv P body u Hu)
    as (_ & _ & _ & _ & _ & _ & _ & _ & _ & _ & Ha & _).
  rewrite Hbody in Ha. simpl in Ha. injection Ha as Ha.
  assert (Hown : assigned_agent_id
                   (update_row P u (current_timestamp P (tick w)) c) = Some a).
  { simpl. by rewrite <- Ha. }
  destruct (clientEntitySchema_row P _ _ Hent) as (_ & Hown' & _).
  split; [ | split; [ congruence | split ] ].
  - unfold agent_known in Hk. rewrite <- Ha in Hk.
    by apply bool_decide_eq_true in Hk.
  - unfold clients_detail. rewrite Hsel. unfold foreign_to_agent.
    rewrite Hown, (bool_decide_eq_true_2 (role user = "agent")) by done.
    rewrite bool_decide_eq_false_2; [ done | congruence ].
  - unfold clients_detail. rewrite Hsel. unfold foreign_to_agent.
    rewrite Hown. cbn [user_id role].
    rewrite (bool_decide_eq_true_2 (Some a = Some a)) by done.
    rewrite andb_false_r. by rewrite Hent.
Qed.

Lemma update_hands_over_witness :
  match clients_update iso_platform seeded_store alice "client1"
          (obj [("assigned_agent_id", "user2")]) with
  | (w', ClientUpdated client) =>
      clients_detail iso_platform w' alice "client1" = Error 403 "Forbidden"
      ∧ clients_detail iso_platform w' bob "client1" = ClientDetail client
  | _ => False
  end.
Proof.
  destruct (clients_update iso_platform seeded_store alice "client1"
              (obj [("assigned_agent_id", "user2")])) as [w' r] eqn:Hrun.
  destruct r as [r|client|client];
    [ exfalso; revert Hrun; vm_compute; intros Hx; discriminate Hx
    | exfalso; revert Hrun; vm_compute; intros Hx; discriminate Hx | ].
  apply (update_hands_over iso_platform seeded_store w' alice "client1"
           "user2" (obj [("assigned_agent_id", "user2")]) client).
  - apply (bool_decide_unpack _). vm_compute. exact I.
  - reflexivity.
  - done.
  - reflexivity.
  - exact Hrun.
Defined.

(** ** DELETE /clients/:client_id and the reach of an agent *)

Section DeleteProperties.
Context (P : Platform).



End DeleteProperties.





(** ** GET /clients *)

Section ListingProperties.
Context (P : Platform).

Lemma filter_fmap_NoDup {A B} (f : A → B) (p : A → bool) (l : list A) :
  NoDup (f <$> l) → NoDup (f <$> List.filter p l).
Proof.
  induction l as [|x l IH]; [ done | ]. rewrite fmap_cons, NoDup_cons.
  intros [Hx Hnd]. simpl. destruct (p x); [ | by apply IH ].
  rewrite fmap_cons. apply NoDup_cons. split; [ | by apply IH ].
  intros (y & Hy & Hin)%list_elem_of_fmap. apply Hx.
  apply list_elem_of_fmap. exists y. split; [ done | ].
  apply list_elem_of_In. apply list_elem_of_In, filter_In in Hin. tauto.
Qed.

(** The statement of both handlers, for a query string that parses. *)
Lemma query_rows_Some w user o rows :
  query_rows P w user o = Some rows →
  ∃ q col,
    searchClientQuerySchema o = Some q
    ∧ order_column (whitelist_sort_by (sort_by q)) = Some col
    ∧ rows
      = take (Z.to_nat (limit q))
          (drop (Z.to_nat (offset q))
             (order_by P col (whitelist_sort_order (sort_order q))
                (List.filter (where_clause P user (query q)) (clients w)))).
Proof.
  unfold query_rows. intros Hrows.
  destruct (searchClientQuerySchema o) as [q|]; [ | done ].
  simpl in Hrows. unfold select_clients in Hrows.
  destruct (order_column (whitelist_sort_by (sort_by q))) as [col|] eqn:Hcol;
    [ | done ].
  simpl in Hrows. injection Hrows as <-. exists q, col. by rewrite Hcol.
Qed.

Lemma effective_column o q :
  searchClientQuerySchema o = Some q →
  is_Some (order_column (whitelist_sort_by (sort_by q))).
Proof.
  intros [Hby _]%effective_sort.
  repeat (apply elem_of_cons in Hby as [->|Hby];
          [ eexists; reflexivity | ]).
  by apply elem_of_nil in Hby.
Qed.

(** Rows under [ORDER BY col dir], whatever the direction. *)
Lemma order_by_sorted col dir rows :
  Total (λ a b : string, Is_true (text_leb P a b)) →
  Transitive (λ a b : string, Is_true (text_leb P a b)) →
  StronglySorted (λ a b, Is_true (row_leb P col dir a b))
    (order_by P col dir rows).
Proof.
  intros Htot Htrans. unfold order_by. apply StronglySorted_merge_sort.
  - intros x y z. unfold row_leb. case_bool_decide; [ | apply Htrans ].
    intros H1 H2. by apply (Htrans _ _ _ H2 H1).
  - intros x y. unfold row_leb. case_bool_decide; apply Htot.
Qed.

Lemma take_drop_sorted {A} (R : relation A) n m (l : list A) :
  StronglySorted R l → StronglySorted R (take n (drop m l)).
Proof.
  intros H. eapply StronglySorted_app_1_l. erewrite take_drop.
  eapply StronglySorted_app_1_r. erewrite take_drop. exact H.
Qed.

End ListingProperties.

(** X7. The values of a query string are never numbers, so a request
    that parses has [limit] 10 and [offset] 0: the listing and the
    export handler answer at most ten records, the first ten of the
    order, whatever the request. *)
Theorem listing_first_page_only (P : Platform) (w : World) (user : User)
    (o : object) :
  (∀ k n, o !! k ≠ Some (VNum n)) →
  (∀ q, searchClientQuerySchema o = Some q → limit q = 10 ∧ offset q = 0)
  ∧ (length (shown (clients_list P w user o)) ≤ 10)%nat
  ∧ (length (shown (clients_export P w user o)) ≤ 10)%nat.
Proof.
  intros Hstr.
  assert (Hq : ∀ q, searchClientQuerySchema o = Some q →
                    limit q = 10 ∧ offset q = 0).
  { intros q (_ & Hl & Ho & _)%searchClientQuerySchema_inv.
    unfold z_int_from_default in *.
    pose proof (Hstr "limit") as H1. pose proof (Hstr "offset") as H2.
    destruct (o !! "limit") as [[| |n|]|]; try done; [ by destruct (H1 n) | ].
    destruct (o !! "offset") as [[| |n|]|]; try done; [ by destruct (H2 n) | ].
    injection Hl as <-. injection Ho as <-. done. }
  assert (Hlen : ∀ rows, rows = [] ∨ query_rows P w user o = Some rows →
                         (length (client_id <$> rows) ≤ 10)%nat).
  { intros rows [->|Hrows]; [ simpl; lia | ].
    destruct (query_rows_Some P w user o rows Hrows) as (q & col & Hs & _ & ->).
    destruct (Hq q Hs) as [-> _]. rewrite length_fmap, length_take. lia. }
  split; [ exact Hq | split ].
  - destruct (clients_list_shown P w user o) as (rows & -> & _ & Hrows).
    by apply Hlen.
  - destruct (clients_export_shown P w user o) as (rows & -> & _ & Hrows).
    by apply Hlen.
Qed.

Lemma listing_first_page_only_witness :
  (length (shown (clients_list ref_platform seeded_store charlie
                    (obj [("limit", "2")]))) ≤ 10)%nat
  ∧ clients_list ref_platform seeded_store charlie (obj [("limit", "2")])
    = ServerError.
Proof.
  split; [ | reflexivity ].
  apply (listing_first_page_only ref_platform seeded_store charlie
           (obj [("limit", "2")])).
  intros k n. unfold obj. simpl.
  destruct (decide (k = "limit")) as [->|Hne].
  - rewrite lookup_insert_eq. done.
  - rewrite lookup_insert_ne by done. rewrite lookup_empty. done.
Defined.

(** X8. Under the primary key, a listing shows no client twice, and
    each client it shows is a live row of the store which, when the
    caller is an agent, is assigned to the caller. *)
Theorem listing_scoped (P : Platform) (w : World) (user : User)
    (o : object) :
  NoDup (client_id <$> clients w) →
  NoDup (shown (clients_list P w user o))
  ∧ ∀ id, id ∈ shown (clients_list P w user o) →
      ∃ c, c ∈ clients w ∧ client_id c = id ∧ deleted_at c = None
           ∧ (role user = "agent" →
              assigned_agent_id c = Some (user_id user)).
Proof.
  intros Hnd.
  destruct (clients_list_shown P w user o) as (rows & -> & _ & [->|Hrows]).
  { split; [ apply NoDup_nil_2 | by intros id ?%elem_of_nil ]. }
  split.
  - destruct (query_rows_Some P w user o rows Hrows) as (q & col & _ & _ & ->).
    eapply sublist_NoDup; [ | apply fmap_sublist, sublist_take ].
    eapply sublist_NoDup; [ | apply fmap_sublist, sublist_drop ].
    unfold order_by. rewrite merge_sort_Permutation.
    by apply filter_fmap_NoDup.
  - intros id (c & -> & Hc)%list_elem_of_fmap. exists c.
    destruct (query_rows_elem P w user o rows c Hrows Hc) as (? & ? & ?).
    done.
Qed.

Lemma listing_scoped_witness :
  shown (clients_list ref_platform seeded_store alice ∅)
  = ["client5"; "client1"]
  ∧ NoDup (shown (clients_list ref_platform seeded_store alice ∅)).
Proof.
  split; [ reflexivity | ].
  apply (listing_scoped ref_platform seeded_store alice ∅).
  apply (bool_decide_unpack _). vm_compute. exact I.
Defined.

(** X9. A listing is complete when it fits: if the request parses
    with [offset] 0, the live rows its filter selects for the caller are
    no more than [limit] and each passes the client entity schema, then
    the listing shows exactly these rows, each once. *)
Theorem listing_complete (P : Platform) (w : World) (user : User)
    (o : object) (q : ClientQuery) :
  searchClientQuerySchema o = Some q →
  offset q = 0 →
  (length (List.filter (where_clause P user (query q)) (clients w))
   ≤ Z.to_nat (limit q))%nat →
  Forall (λ c, is_Some (clientEntitySchema P c))
    (List.filter (where_clause P user (query q)) (clients w)) →
  shown (clients_list P w user o)
  ≡ₚ client_id <$> List.filter (where_clause P user (query q)) (clients w).
Proof.
  intros Hq Hoff Hfit Hok.
  destruct (effective_column o q Hq) as [col Hcol].
  set (matching := List.filter (where_clause P user (query q)) (clients w))
    in *.
  set (sorted := order_by P col (whitelist_sort_order (sort_order q)) matching).
  assert (Hperm : sorted ≡ₚ matching) by apply merge_sort_Permutation.
  assert (Hrows : query_rows P w user o = Some sorted).
  { unfold query_rows. rewrite Hq. simpl. unfold select_clients.
    rewrite Hcol. simpl. rewrite Hoff. simpl. rewrite drop_0.
    fold matching. fold sorted. rewrite take_ge; [ done | ].
    by rewrite Hperm. }
  unfold clients_list. rewrite Hrows.
  assert (Hsome : is_Some (mapM (clientEntitySchema P) sorted)).
  { apply mapM_is_Some_2. by rewrite Hperm. }
  destruct Hsome as [l Hl]. rewrite Hl. simpl.
  destruct (mapM_entities P sorted l Hl) as [-> _]. by rewrite Hperm.
Qed.

Lemma listing_complete_witness :
  shown (clients_list ref_platform seeded_store charlie ∅)
  ≡ₚ ["client1"; "client2"; "client3"; "client5"].
Proof.
  apply (listing_complete ref_platform seeded_store charlie ∅
           {| query := None; limit := 10; offset := 0;
              sort_by := "created_at"; sort_order := "desc" |}).
  - reflexivity.
  - reflexivity.
  - vm_compute. lia.
  - repeat constructor; by eexists.
Defined.

(** X10. Under a total and transitive collation the rows both handlers
    read are ordered as the statement says: with no sort parameters, by
    [created_at], newest first; and a request for [sort_by=status],
    which the schema admits and the whitelist does not, is ordered by
    [full_name]. *)
Theorem listing_order (P : Platform) (w : World) (user : User) (o : object)
    (rows : list ClientRow) :
  Total (λ a b : string, Is_true (text_leb P a b)) →
  Transitive (λ a b : string, Is_true (text_leb P a b)) →
  query_rows P w user o = Some rows →
  (o !! "sort_by" = None → o !! "sort_order" = None →
   StronglySorted (λ a b, Is_true (text_leb P b a)) (created_at <$> rows))
  ∧ (o !! "sort_by" = Some (VStr "status") →
     o !! "sort_order" = Some (VStr "asc") →
     StronglySorted (λ a b, Is_true (text_leb P a b)) (full_name <$> rows)).
Proof.
  intros Htot Htrans Hrows.
  destruct (query_rows_Some P w user o rows Hrows)
    as (q & col & Hq & Hcol & ->).
  destruct (searchClientQuerySchema_inv o q Hq) as (_ & _ & _ & Hby & Hord).
  split; intros Hb Ho; rewrite Hb in Hby; rewrite Ho in Hord;
    injection Hby as Hby; injection Hord as Hord;
    rewrite <- Hby, <- Hord in *; injection Hcol as <-.
  - apply (StronglySorted_fmap _
             (λ a b, Is_true (row_leb P created_at "DESC" a b)));
      [ by intros x y | ].
    apply take_drop_sorted. by apply order_by_sorted.
  - apply (StronglySorted_fmap _
             (λ a b, Is_true (row_leb P full_name "ASC" a b)));
      [ by intros x y | ].
    apply take_drop_sorted. by apply order_by_sorted.
Qed.

Lemma listing_order_witness :
  match query_rows ref_platform seeded_store charlie ∅ with
  | Some rows =>
      client_id <$> rows = ["client5"; "client3"; "client2"; "client1"]
      ∧ StronglySorted (λ a b, Is_true (String.leb b a)) (created_at <$> rows)
  | None => False
  end.
Proof.
  destruct (query_rows ref_platform seeded_store charlie ∅) as [rows|] eqn:E;
    [ | revert E; vm_compute; intros Hx; discriminate Hx ].
  split; [ revert E; vm_compute; intros Hx; by injection Hx as <- | ].
  assert (Htot : Total (λ a b : string, Is_true (text_leb ref_platform a b)))
    by (change (Total String.le); apply _).
  assert (Htr : Transitive (λ a b : string, Is_true (text_leb ref_platform a b)))
    by (change (Transitive String.le); apply _).
  exact (proj1 (listing_order ref_platform seeded_store charlie ∅ rows
                  Htot Htr E) eq_refl eq_refl).
Defined.

(** ** The constraints of the store, request by request *)

Section Constraints.
Context (P : Platform).

Lemma grows_refl w : grows w w.
Proof. unfold grows. auto. Qed.

Lemma grows_trans w1 w2 w3 : grows w1 w2 → grows w2 w3 → grows w1 w3.
Proof.
  intros (Hu & Hc & Ha & Hk) (Hu' & Hc' & Ha' & Hk').
  split; [ congruence | ]. split; [ by etrans | ]. split; [ by etrans | auto ].
Qed.

Lemma grows_bump w : grows w (bump w).
Proof. unfold grows. simpl. auto. Qed.

Lemma insert_client_grows w row w' :
  insert_client P w row = Some w' → grows w w'.
Proof.
  intros H. destruct (insert_client_Some P _ _ _ H) as (-> & Hfresh & Hfk).
  split; [ done | ]. simpl. rewrite fmap_app.
  split; [ by apply prefix_app_r | ]. split; [ done | ].
  intros (Hnd & Hown & Hnd' & Hatt). unfold store_ok. simpl.
  rewrite fmap_app. split; [ | split; [ | split; [ done | ] ] ].
  - apply NoDup_app. split; [ done | ]. split; [ | apply NoDup_singleton ].
    intros x Hx Hin. apply list_elem_of_singleton in Hin as ->. done.
  - intros c a Hc Ha.
    apply elem_of_app in Hc as [Hc|Hc]; [ by eapply Hown | ].
    apply list_elem_of_singleton in Hc as ->. by apply Hfk.
  - intros a Ha. destruct (Hatt a Ha) as [Hc Hu]. split; [ | done ].
    apply elem_of_app. by left.
Qed.

Lemma import_record_grows w o : grows w (import_record P w o).1.
Proof.
  unfold import_record.
  destruct (createClientInputSchema P o) as [paths|data]; [ apply grows_refl | ].
  cbv zeta. destruct (insert_client P w _) as [w1|] eqn:I; simpl.
  - eapply grows_trans; [ by eapply insert_client_grows | apply grows_bump ].
  - apply grows_bump.
Qed.

Lemma import_records_grows l : ∀ w s e,
  grows w (import_records P w l s e).1.1.
Proof.
  induction l as [|o l IH]; intros w s e; simpl; [ apply grows_refl | ].
  pose proof (import_record_grows w o) as Hg.
  destruct (import_record P w o) as [w1 out]. simpl in Hg.
  destruct out; (eapply grows_trans; [ exact Hg | apply IH ]).
Qed.

Lemma clients_import_grows w user file :
  grows w (clients_import P w user file).1.
Proof.
  unfold clients_import. case_bool_decide; [ apply grows_refl | ].
  destruct file as [buffer|]; [ | apply grows_refl ].
  destruct (csvParse P buffer) as [err|records]; [ apply grows_refl | ].
  pose proof (import_records_grows records w 0%nat 0%nat) as Hg.
  destruct (import_records P w records 0 0) as [[w1 s] e]. exact Hg.
Qed.

Lemma clients_create_grows w user body :
  grows w (clients_create P w user body).1.
Proof.
  unfold clients_create.
  destruct (createClientInputSchema P body) as [paths|data]; [ apply grows_refl | ].
  cbv zeta. destruct (insert_client P w _) as [w1|] eqn:I; [ | apply grows_bump ].
  assert (grows w (bump w1)) as Hg.
  { eapply grows_trans; [ by eapply insert_client_grows | apply grows_bump ]. }
  by destruct (clientEntitySchema P _).
Qed.

Lemma soft_delete_grows w id : grows w (soft_delete P w id).
Proof.
  assert (Hids : client_id <$> clients (soft_delete P w id)
                 = client_id <$> clients w).
  { unfold soft_delete. simpl. rewrite <- list_fmap_compose.
    apply list_fmap_ext. intros i c _. simpl. by case_bool_decide. }
  split; [ done | ]. split; [ by rewrite Hids | ]. split; [ done | ].
  intros (Hnd & Hown & Hnd' & Hatt). unfold store_ok. rewrite Hids.
  split; [ done | ]. split; [ | done ].
  intros c a Hc Ha. unfold soft_delete in Hc. simpl in Hc.
  apply list_elem_of_fmap in Hc as (c0 & -> & Hc0).
  apply (Hown c0 a Hc0). revert Ha. by case_bool_decide.
Qed.

Lemma clients_delete_grows w user id :
  grows w (clients_delete P w user id).1.
Proof.
  unfold clients_delete.
  destruct (select_live_client w id) as [|c rest]; [ apply grows_refl | ].
  destruct (foreign_to_agent user c); [ apply grows_refl | ]. simpl.
  eapply grows_trans; [ apply soft_delete_grows | apply grows_bump ].
Qed.

Lemma update_clients_grows w id u :
  agent_known w u = true → grows w (update_clients P w id u).1.
Proof.
  intros Hk. pose proof (update_clients_ids P w id u) as Hids.
  split; [ done | ]. split; [ by rewrite Hids | ]. split; [ done | ].
  intros (Hnd & Hown & Hnd' & Hatt). unfold store_ok. rewrite Hids.
  split; [ done | ]. split; [ | done ].
  intros c a Hc Ha. unfold update_clients in Hc. simpl in Hc.
  apply list_elem_of_fmap in Hc as (c0 & -> & Hc0).
  revert Ha. case_bool_decide; [ | by apply Hown ].
  simpl. unfold agent_known in Hk.
  destruct (Update.assigned_agent_id u) as [| |b]; simpl.
  - by apply Hown.
  - done.
  - intros [= <-]. by apply bool_decide_eq_true in Hk.
Qed.

Lemma clients_update_grows w user id body :
  grows w (clients_update P w user id body).1.
Proof.
  destruct (clients_update P w user id body) as [w' r] eqn:Hrun.
  destruct (clients_update_inv P _ _ _ _ _ _ Hrun)
    as [[-> _]|(u & c & rest & _ & _ & _ & Hk & -> & _)]; simpl;
    [ apply grows_refl | ].
  eapply grows_trans; [ by apply update_clients_grows | apply grows_bump ].
Qed.

Lemma insert_attachment_grows w row w' :
  insert_attachment P w row = Some w' → grows w w'.
Proof.
  unfold insert_attachment.
  destruct (_ && _ && _ && _) eqn:E; [ | done ]. intros [= <-].
  apply andb_true_iff in E as [E Hby]. apply andb_true_iff in E as [E Hcl].
  apply andb_true_iff in E as [_ Hfresh].
  apply bool_decide_eq_true in Hby. apply bool_decide_eq_true in Hcl.
  apply bool_decide_eq_true in Hfresh.
  split; [ done | ]. split; [ done | ]. simpl.
  split; [ by apply prefix_app_r | ].
  intros (Hnd & Hown & Hnd' & Hatt). unfold store_ok. simpl.
  split; [ done | ]. split; [ done | ]. rewrite fmap_app. split.
  - apply NoDup_app. split; [ done | ]. split; [ | apply NoDup_singleton ].
    intros x Hx Hin. apply list_elem_of_singleton in Hin as ->. done.
  - intros a Ha. apply elem_of_app in Ha as [Ha|Ha]; [ by apply Hatt | ].
    by apply list_elem_of_singleton in Ha as ->.
Qed.

Lemma attachments_create_grows w user id file :
  grows w (attachments_create P w user id file).1.
Proof.
  unfold attachments_create.
  destruct (select_live_client w id) as [|c rest]; [ apply grows_refl | ].
  destruct (foreign_to_agent user c); [ apply grows_refl | ].
  destruct file as [[originalname filename]|]; [ | apply grows_refl ].
  cbv zeta. destruct (insert_attachment P w _) as [w1|] eqn:I;
    [ | apply grows_bump ].
  assert (grows w (bump w1)) as Hg.
  { eapply grows_trans; [ by eapply insert_attachment_grows | apply grows_bump ]. }
  by destruct (clientAttachmentEntitySchema P _).
Qed.

End Constraints.

(** Every client route, refused or not, only lets the store grow. *)
Lemma serve_grows (P : Platform) (jwt_verify : string → option User)
    (w w' : World) (req : Request) (r : Reply) :
  serve P jwt_verify w req = Some (w', r) → grows w w'.
Proof.
  intros Hrun.
  assert (Hfst : ∀ x : World * Response, (prod_map (λ x, x) Resp x).1 = x.1)
    by (by intros []).
  revert Hrun. unfold serve.
  destruct (route (method req) (path req)) as [[ep params]|]; [ | done ].
  cbv beta zeta.
  destruct (authenticateJWT jwt_verify (authorization req)) as [e|user].
  { destruct ep; intros Hrun; try done; injection Hrun as <- <-;
      apply grows_refl. }
  destruct ep; intros Hrun; try done; injection Hrun as Hrun;
    change w' with (w', r).1; rewrite <- Hrun; rewrite ?Hfst; simpl;
    try apply grows_refl.
  - apply clients_create_grows.
  - apply clients_update_grows.
  - apply clients_delete_grows.
  - apply clients_import_grows.
  - apply attachments_create_grows.
Qed.

(** X11. Whatever the request and whoever sends it, a client route
    leaves the store within its constraints: primary and foreign keys
    of both tables hold afterwards if they held before, the users are
    untouched, and no client identity and no attachment is ever
    removed. *)
Theorem serve_keeps_constraints (P : Platform)
    (jwt_verify : string → option User) (w w' : World) (req : Request)
    (r : Reply) :
  store_ok w →
  serve P jwt_verify w req = Some (w', r) →
  store_ok w'
  ∧ users w' = users w
  ∧ client_id <$> clients w `prefix_of` client_id <$> clients w'
  ∧ client_attachments w `prefix_of` client_attachments w'.
Proof.
  intros Hok Hrun.
  destruct (serve_grows P jwt_verify w w' req r Hrun) as (Hu & Hc & Ha & Hk).
  auto.
Qed.

Lemma seeded_store_ok : store_ok seeded_store.
Proof.
  split; [ | split; [ | split ] ].
  - apply (bool_decide_unpack _). by vm_compute.
  - intros c a Hc Ha. simpl in Hc.
    repeat (apply elem_of_cons in Hc as [->|Hc]);
      try (by apply elem_of_nil in Hc); simpl in Ha; try done;
      injection Ha as <-; apply (bool_decide_unpack _); by vm_compute.
  - apply NoDup_nil_2.
  - intros a Ha. by apply elem_of_nil in Ha.
Qed.

Lemma serve_keeps_constraints_witness :
  match serve iso_platform sample_verify seeded_store
          (json_request POST ["clients"] (Some "Bearer token-alice")
             plain_record) with
  | Some (w', r) =>
      reply_status r = 201%nat
      ∧ store_ok w'
      ∧ client_id <$> clients seeded_store `prefix_of` client_id <$> clients w'
  | None => False
  end.
Proof.
  destruct (serve iso_platform sample_verify seeded_store _)
    as [[w' r]|] eqn:Hrun;
    [ | exfalso; revert Hrun; vm_compute; intros Hx; discriminate Hx ].
  split.
  - revert Hrun. vm_compute. intros Hx. by injection Hx as <- <-.
  - destruct (serve_keeps_constraints iso_platform sample_verify seeded_store
                w' _ r seeded_store_ok Hrun) as (Hok & _ & Hpre & _).
    by split.
Defined.

(** ** [authenticateJWT] *)

(** A request the middleware refuses is answered by the middleware. *)
Lemma serve_refused (P : Platform) (jwt_verify : string → option User)
    w req e w' r :
  authenticateJWT jwt_verify (authorization req) = inl e →
  serve P jwt_verify w req = Some (w', r) →
  w' = w ∧ r = Resp e.
Proof.
  intros Hauth. unfold serve.
  destruct (route (method req) (path req)) as [[ep params]|]; [ | done ].
  cbv beta zeta. rewrite Hauth.
  destruct ep; intros Hrun; try done; by injection Hrun as <- <-.
Qed.

(** X12. A request to a client route that carries no [Authorization]
    header, or one that does not start with [Bearer ], or a token the
    verifier refuses, changes nothing. When the body parsers refuse its
    body, it is answered by them, before the header is looked at;
    otherwise it is answered 401 in the first two cases and 403 in the
    third, on the upload routes before multer reads the body. *)
Theorem unauthenticated_refused (P : Platform)
    (jwt_verify : string → option User) (w w' : World) (raw : RawRequest)
    (answer : Answer) :
  application P jwt_verify w raw = Some (w', answer) →
  (∀ authHeader,
     raw_authorization raw = Some authHeader →
     String.prefix "Bearer " authHeader = true →
     jwt_verify (default "" (split_spaces authHeader !! 1%nat)) = None) →
  w' = w
  ∧ answer
    = match payload raw with
      | Unparsed status => Failed status
      | _ =>
          Handled
            (Resp (Error (match raw_authorization raw with
                          | Some authHeader =>
                              if String.prefix "Bearer " authHeader
                              then 403 else 401
                          | None => 401
                          end)
                     (match raw_authorization raw with
                      | Some authHeader =>
                          if String.prefix "Bearer " authHeader
                          then "Forbidden" else "Unauthorized"
                      | None => "Unauthorized"
                      end)))
      end.
Proof.
  intros Hrun Hno.
  set (e := Error (match raw_authorization raw with
                   | Some authHeader =>
                       if String.prefix "Bearer " authHeader
                       then 403 else 401
                   | None => 401
                   end)
              (match raw_authorization raw with
               | Some authHeader =>
                   if String.prefix "Bearer " authHeader
                   then "Forbidden" else "Unauthorized"
               | None => "Unauthorized"
               end)).
  assert (Hauth : authenticateJWT jwt_verify (raw_authorization raw) = inl e).
  { unfold authenticateJWT, e.
    destruct (raw_authorization raw) as [authHeader|]; [ | done ].
    destruct (String.prefix "Bearer " authHeader) eqn:Hp; [ | done ].
    by rewrite (Hno authHeader eq_refl Hp). }
  assert (Hserve : ∀ body file,
            prod_map (λ x, x) Handled
              <$> serve P jwt_verify w (request_of raw body file)
            = Some (w', answer) →
            w' = w ∧ answer = Handled (Resp e)).
  { intros body file.
    destruct (serve P jwt_verify w (request_of raw body file))
      as [[w1 r1]|] eqn:Hs; [ | done ].
    destruct (serve_refused P jwt_verify w (request_of raw body file) e w1 r1
                Hauth Hs) as [-> ->].
    simpl. by intros [= <- <-]. }
  revert Hrun. unfold application.
  destruct (payload raw) as [body|status|fields files].
  - apply Hserve.
  - by intros [= <- <-].
  - destruct (route (raw_method raw) (raw_path raw)) as [[ep params]|];
      [ | done ].
    destruct (upload_route ep); [ | apply Hserve ].
    rewrite Hauth. by intros [= <- <-].
Qed.

Lemma unauthenticated_refused_witness :
  application ref_platform sample_verify seeded_store
    {| raw_method := DELETE; raw_path := ["clients"; "client1"];
       raw_authorization := Some "Bearer token-eve"; raw_query := ∅;
       payload := Parsed ∅ |}
  = Some (seeded_store, Handled (Resp (Error 403 "Forbidden")))
  ∧ application ref_platform sample_verify seeded_store
      {| raw_method := POST; raw_path := ["clients"];
         raw_authorization := None; raw_query := ∅;
         payload := Unparsed 400 |}
    = Some (seeded_store, Failed 400)
  ∧ application ref_platform sample_verify seeded_store
      (import_request None "csv_file" three_rows)
    = Some (seeded_store, Handled (Resp (Error 401 "Unauthorized"))).
Proof.
  split; [ | split ].
  - destruct (application ref_platform sample_verify seeded_store _)
      as [[w' r]|] eqn:Hrun;
      [ | exfalso; revert Hrun; vm_compute; intros Hx; discriminate Hx ].
    destruct (unauthenticated_refused ref_platform sample_verify seeded_store
                w' _ r Hrun) as [-> ->].
    + intros authHeader Hh _. injection Hh as <-. reflexivity.
    + reflexivity.
  - destruct (application ref_platform sample_verify seeded_store _)
      as [[w' r]|] eqn:Hrun;
      [ | exfalso; revert Hrun; vm_compute; intros Hx; discriminate Hx ].
    destruct (unauthenticated_refused ref_platform sample_verify seeded_store
                w' _ r Hrun) as [-> ->].
    + intros authHeader Hh. discriminate Hh.
    + reflexivity.
  - destruct (application ref_platform sample_verify seeded_store _)
      as [[w' r]|] eqn:Hrun;
      [ | exfalso; revert Hrun; vm_compute; intros Hx; discriminate Hx ].
    destruct (unauthenticated_refused ref_platform sample_verify seeded_store
                w' _ r Hrun) as [-> ->].
    + intros authHeader Hh. discriminate Hh.
    + reflexivity.
Defined.

Lemma split_on_no_sep (sep : ascii) (l : list ascii) :
  sep ∉ l → Ref.split_on sep l = [l].
Proof.
  induction l as [|c l IH]; [ done | ].
  intros Hl. apply not_elem_of_cons in Hl as [Hc Hl]. simpl.
  unfold Ref.ascii_eqb. rewrite bool_decide_eq_false_2 by done.
  by rewrite IH.
Qed.

Lemma list_ascii_of_string_app (s t : string) :
  list_ascii_of_string (s +:+ t)
  = (list_ascii_of_string s ++ list_ascii_of_string t)%list.
Proof. induction s as [|c s IH]; simpl; [ done | by rewrite IH ]. Qed.

(** The header built from a token without a space, as the middleware
    splits it. *)
Lemma bearer_parts (jwt_token : string) :
  " "%char ∉ list_ascii_of_string jwt_token →
  String.prefix "Bearer " (bearer jwt_token) = true
  ∧ split_spaces (bearer jwt_token) !! 1%nat = Some jwt_token.
Proof.
  intros Hsp. unfold bearer, split_spaces. split.
  { apply String.prefix_correct. simpl. by destruct jwt_token. }
  change ("Bearer " +:+ jwt_token)
    with (String "B" (String "e" (String "a" (String "r" (String "e"
           (String "r" (String " " jwt_token))))))).
  simpl. rewrite (split_on_no_sep _ _ Hsp). simpl.
  by rewrite string_of_list_ascii_of_string.
Qed.

(** X13. The header the views build from a token without a space is
    read back to that token: the middleware lets the request through as
    the user of the token, or answers 403 when the verifier refuses
    it. *)
Theorem bearer_read_back (jwt_verify : string → option User)
    (jwt_token : string) :
  " "%char ∉ list_ascii_of_string jwt_token →
  authenticateJWT jwt_verify (Some (bearer jwt_token))
  = match jwt_verify jwt_token with
    | Some user => inr user
    | None => inl (Error 403 "Forbidden")
    end.
Proof.
  intros Hsp. destruct (bearer_parts jwt_token Hsp) as [Hp Hs].
  unfold authenticateJWT. rewrite Hp, Hs. simpl.
  by destruct (jwt_verify jwt_token).
Qed.

Lemma bearer_read_back_witness :
  authenticateJWT sample_verify (Some (bearer "token-bob")) = inr bob.
Proof.
  rewrite (bearer_read_back sample_verify "token-bob"); [ reflexivity | ].
  apply (bool_decide_unpack _). by vm_compute.
Defined.

(** ** The add-client view against POST /clients *)

Section AddClientProperties.
Context (P : Platform).

Lemma status_required (o : object) :
  o !! "status" = None → ∃ paths, createClientInputSchema P o = inl paths.
Proof.
  intros Hs. unfold createClientInputSchema.
  destruct (parse_fields P o) as [data|] eqn:E; [ | by eexists ].
  destruct (parse_fields_inv P o data E)
    as (_ & _ & _ & _ & _ & _ & _ & Hst & _).
  rewrite Hs in Hst. done.
Qed.

End AddClientProperties.

(** X14. The add-client view never creates a client: the payload of
    [transformFormData] has no [status], which the schema of POST
    /clients requires, so whatever the form holds the request changes
    nothing and is answered 500, or 403 when the token is refused. *)
Theorem add_client_view_refused (P : Platform)
    (jwt_verify : string → option User) (w : World) (jwt_token : string)
    (newClient : AddClient.ClientData) :
  ∃ r, serve P jwt_verify w (AddClient.createClient jwt_token newClient)
       = Some (w, Resp r)
       ∧ (r = ServerError ∨ r = Error 403 "Forbidden").
Proof.
  unfold serve.
  change (route (method (AddClient.createClient jwt_token newClient))
            (path (AddClient.createClient jwt_token newClient)))
    with (route POST ["clients"]).
  assert (Hroute : route POST ["clients"] = Some (PostClients, []))
    by (by vm_compute).
  rewrite Hroute. cbv beta zeta.
  destruct (authenticateJWT jwt_verify _) as [e|user] eqn:Hauth.
  - exists e. split; [ done | ]. right.
    change (authorization (AddClient.createClient jwt_token newClient))
      with (Some (bearer jwt_token)) in Hauth.
    unfold authenticateJWT in Hauth.
    assert (Hp : String.prefix "Bearer " (bearer jwt_token) = true).
    { apply String.prefix_correct. simpl. by destruct jwt_token. }
    rewrite Hp in Hauth.
    destruct (jwt_verify _); [ done | by injection Hauth as <- ].
  - exists ServerError. split; [ | by left ].
    unfold clients_create.
    destruct (status_required P (req_body (AddClient.createClient jwt_token
                                             newClient)))
      as [paths ->]; [ reflexivity | done ].
Qed.

(** * Properties of the log handlers *)

Section LogProperties.
Context (P : Platform).

Lemma insert_communication_Some db row db1 :
  insert_communication P db row = Some db1 →
  db1 = set_communications_log db (communications_log db ++ [row])
  ∧ db_up P (tick (store db)) = true
  ∧ (log_id row ∉ log_id <$> communications_log db)
  ∧ log_client_id row ∈ client_id <$> clients (store db)
  ∧ created_by row ∈ users (store db).
Proof.
  unfold insert_communication.
  destruct (_ && _ && _ && _) eqn:E; [ | done ]. intros [= <-].
  apply andb_true_iff in E as [E Hby]. apply andb_true_iff in E as [E Hcl].
  apply andb_true_iff in E as [Hup Hfresh].
  apply bool_decide_eq_true in Hby. apply bool_decide_eq_true in Hcl.
  apply bool_decide_eq_true in Hfresh. done.
Qed.

Lemma insert_communication_ok db row :
  db_up P (tick (store db)) = true →
  log_id row ∉ log_id <$> communications_log db →
  log_client_id row ∈ client_id <$> clients (store db) →
  created_by row ∈ users (store db) →
  insert_communication P db row
  = Some (set_communications_log db (communications_log db ++ [row])).
Proof.
  intros Hup Hfresh Hcl Hby. unfold insert_communication.
  by rewrite Hup, !bool_decide_eq_true_2.
Qed.

Lemma communicationsLogEntitySchema_row r e :
  communicationsLogEntitySchema P r = Some e →
  CommunicationEntity.log_id e = log_id r
  ∧ CommunicationEntity.client_id e = log_client_id r
  ∧ CommunicationEntity.created_by e = created_by r
  ∧ CommunicationEntity.note e = note r.
Proof.
  unfold communicationsLogEntitySchema. intros H.
  repeat
    match type of H with
    | context [ ?x ≫= _ ] => destruct x; simpl in H; [ | done ]
    end.
  by injection H as <-.
Qed.

Lemma communicationsLogEntitySchema_is_Some r :
  is_Some (Date_parse P (communication_date r)) →
  is_Some (Date_parse P (log_created_at r)) →
  (∀ t, log_updated_at r = Some t → is_Some (Date_parse P t)) →
  is_Some (communicationsLogEntitySchema P r).
Proof.
  intros [a Ha] [b Hb] Hc. unfold communicationsLogEntitySchema. simpl.
  rewrite Ha, Hb. simpl.
  destruct (log_updated_at r) as [t|]; simpl; [ | by eexists ].
  destruct (Hc t eq_refl) as [c ->]. by eexists.
Qed.

(** The row POST /clients/:client_id/communications stores when it
    answers 201. *)
Lemma communications_create_created db db' user id body e :
  communications_create P db user id body = (db', CommunicationCreated e) →
  ∃ input row,
    createCommunicationsLogInputSchema P body = Some input
    ∧ row = {| log_id := uuidv4 P (tick (store db));
               log_client_id := id;
               created_by := user_id user;
               communication_date :=
                 pg_date_text P (CommunicationInput.communication_date input);
               note := CommunicationInput.note input;
               log_created_at := now_iso P (tick (store db));
               log_updated_at := None |}
    ∧ db' = bump_logs
              (set_communications_log db (communications_log db ++ [row]))
    ∧ insert_communication P db row
      = Some (set_communications_log db (communications_log db ++ [row]))
    ∧ communicationsLogEntitySchema P row = Some e.
Proof.
  unfold communications_create. intros Hrun.
  destruct (createCommunicationsLogInputSchema P body) as [input|]; [ | done ].
  cbv zeta in Hrun.
  destruct (insert_communication P db _) as [db1|] eqn:I; [ | done ].
  destruct (insert_communication_Some _ _ _ I) as (-> & _).
  destruct (communicationsLogEntitySchema P _) as [e'|] eqn:E; [ | done ].
  injection Hrun as <- <-. eexists _, _. done.
Qed.

Lemma createCommunicationsLogInputSchema_inv o input :
  createCommunicationsLogInputSchema P o = Some input →
  o !! "created_by" = Some (VStr (CommunicationInput.created_by input))
  ∧ Zod.coerce_date P (o !! "communication_date")
    = Some (CommunicationInput.communication_date input)
  ∧ Zod.string_min 1 (o !! "note") = Some (CommunicationInput.note input).
Proof.
  unfold createCommunicationsLogInputSchema. intros H.
  destruct (o !! "created_by") as [[| | |s]|]; simpl in H; try done.
  destruct (Zod.coerce_date P _); simpl in H; [ | done ].
  destruct (Zod.string_min 1 _); simpl in H; [ | done ].
  by injection H as <-.
Qed.

Lemma mapM_elem {A B} (f : A → option B) (l : list A) (k : list B) x y :
  mapM f l = Some k → x ∈ l → f x = Some y → y ∈ k.
Proof.
  intros H%mapM_Some_1 Hx Hy.
  induction H as [|a b l k Hab _ IH]; [ by apply elem_of_nil in Hx | ].
  apply elem_of_cons in Hx as [->|Hx].
  - rewrite Hy in Hab. injection Hab as ->. left.
  - right. by apply IH.
Qed.

Lemma mapM_Forall {A B} (f : A → option B) (Q : A → Prop) (R : B → Prop)
    (l : list A) (k : list B) :
  (∀ x y, f x = Some y → Q x → R y) →
  mapM f l = Some k → Forall Q l → Forall R k.
Proof.
  intros HQR H%mapM_Some_1 Hl.
  induction H as [|a b l k Hab _ IH]; [ done | ].
  apply Forall_cons in Hl as [Ha Hl]. constructor; eauto.
Qed.

Lemma select_communications_perm db id :
  select_communications P db id
  ≡ₚ List.filter (λ r, bool_decide (log_client_id r = id))
       (communications_log db).
Proof. unfold select_communications. apply merge_sort_Permutation. Qed.

End LogProperties.

(** X15. When POST /clients/:client_id/communications answers 201, the
    entry is recorded for the client of the path and under the caller's
    name, whatever [created_by] the body gives, though the body has to
    give one; the caller is a known user and the client a row of the
    store; the entry is added at the end of the log and nothing else
    changes. *)
Theorem communication_author (P : Platform) (db db' : Logs) (user : User)
    (id : string) (body : object) (e : CommunicationEntity.t) :
  communications_create P db user id body = (db', CommunicationCreated e) →
  CommunicationEntity.created_by e = user_id user
  ∧ CommunicationEntity.client_id e = id
  ∧ (∃ given, body !! "created_by" = Some (VStr given))
  ∧ user_id user ∈ users (store db)
  ∧ id ∈ client_id <$> clients (store db)
  ∧ clients (store db') = clients (store db)
  ∧ activity_log db' = activity_log db
  ∧ ∃ row, communications_log db' = (communications_log db ++ [row])%list
           ∧ log_id row = CommunicationEntity.log_id e
           ∧ (log_id row ∉ log_id <$> communications_log db)
           ∧ created_by row = user_id user
           ∧ log_client_id row = id.
Proof.
  intros Hrun.
  destruct (communications_create_created P _ _ _ _ _ _ Hrun)
    as (input & row & Hin & Hrow & -> & Hins & Hent).
  destruct (communicationsLogEntitySchema_row P _ _ Hent)
    as (Hid & Hcl & Hby & _).
  destruct (insert_communication_Some P _ _ _ Hins)
    as (_ & _ & Hfresh & Hfk & Hu).
  destruct (createCommunicationsLogInputSchema_inv P _ _ Hin) as (Hgiven & _).
  rewrite Hby, Hcl. subst row. simpl in *.
  repeat (split; [ by eauto | ]).
  eexists. split; [ reflexivity | ]. by rewrite Hid.
Qed.

Lemma communication_author_witness :
  match communications_create iso_platform seeded_logs alice "client1"
          note_body with
  | (_, CommunicationCreated e) => CommunicationEntity.created_by e = "user1"
  | _ => False
  end.
Proof.
  destruct (communications_create iso_platform seeded_logs alice "client1"
              note_body) as [db' r] eqn:Hrun.
  destruct r as [r|l|e|e|l|e];
    try (exfalso; revert Hrun; vm_compute; intros Hx; discriminate Hx).
  apply (communication_author iso_platform seeded_logs db' alice "client1"
           note_body e Hrun).
Defined.

(** X16. The communication log can be written where it cannot be read:
    for a client of the store that the caller may not read, because it
    is soft-deleted or assigned to another agent, the listing answers
    404 or 403, while a well-formed entry posted by the same caller is
    recorded and answered 201, provided the insert goes through (the
    database is reached, the identifier is fresh, the caller is a known
    user) and the dates written read back. *)
Theorem communication_write_unscoped (P : Platform) (db : Logs) (user : User)
    (c : ClientRow) (body : object) (input : CommunicationInput.t) :
  NoDup (client_id <$> clients (store db)) →
  c ∈ clients (store db) →
  deleted_at c ≠ None ∨ foreign_to_agent user c = true →
  createCommunicationsLogInputSchema P body = Some input →
  db_up P (tick (store db)) = true →
  uuidv4 P (tick (store db)) ∉ log_id <$> communications_log db →
  user_id user ∈ users (store db) →
  is_Some (Date_parse P
             (pg_date_text P (CommunicationInput.communication_date input))) →
  is_Some (Date_parse P (now_iso P (tick (store db)))) →
  (communications_list P db user (client_id c)
   = LogResp (Error 404 "Client not found")
   ∨ communications_list P db user (client_id c)
     = LogResp (Error 403 "Forbidden"))
  ∧ ∃ db' e,
      communications_create P db user (client_id c) body
      = (db', CommunicationCreated e)
      ∧ CommunicationEntity.client_id e = client_id c
      ∧ CommunicationEntity.note e = CommunicationInput.note input.
Proof.
  intros Hnd Hc Hno Hin Hup Hfresh Hu Hd Hn. split.
  - unfold communications_list.
    destruct (select_live_client (store db) (client_id c)) as [|c' rest] eqn:Hsel;
      [ by left | ].
    assert (Hc' : c' ∈ select_live_client (store db) (client_id c))
      by (rewrite Hsel; left).
    apply select_live_client_elem in Hc' as (Hin' & Hid & Hlive).
    assert (c' = c) as -> by (by apply (primary_key (clients (store db)))).
    destruct Hno as [Hdel|Hf]; [ done | ]. rewrite Hf. by right.
  - unfold communications_create. rewrite Hin. cbv zeta.
    rewrite insert_communication_ok; try done;
      [ | simpl; by apply list_elem_of_fmap_2 ].
    match goal with
    | |- context [ communicationsLogEntitySchema P ?r ] =>
        destruct (communicationsLogEntitySchema_is_Some P r) as [e He];
          [ done | done | by intros t [=] | ]
    end.
    rewrite He. eexists _, e. split; [ reflexivity | ].
    by destruct (communicationsLogEntitySchema_row P _ _ He) as (_ & -> & _ & ->).
Qed.

Lemma communication_write_unscoped_witness :
  (communications_list iso_platform seeded_logs bob "client1"
   = LogResp (Error 404 "Client not found")
   ∨ communications_list iso_platform seeded_logs bob "client1"
     = LogResp (Error 403 "Forbidden"))
  ∧ ∃ db' e,
      communications_create iso_platform seeded_logs bob "client1" note_body
      = (db', CommunicationCreated e)
      ∧ CommunicationEntity.client_id e = "client1"
      ∧ CommunicationEntity.note e = "Left a voice mail".
Proof.
  apply (communication_write_unscoped iso_platform seeded_logs bob
           (seed_client "client1" "John Doe" "john.doe@example.com"
              "2023-10-05T15:00:00Z" (Some "user1") None)
           note_body note_input).
  - apply (bool_decide_unpack _). by vm_compute.
  - left.
  - right. reflexivity.
  - reflexivity.
  - reflexivity.
  - apply (bool_decide_unpack _). by vm_compute.
  - apply (bool_decide_unpack _). by vm_compute.
  - vm_compute. by eexists.
  - vm_compute. by eexists.
Defined.

(** X17. An entry that was answered 201 is read back: whenever the
    listing of the same client answers with entries afterwards, the
    entry is among them, every entry is one of that client, and there
    is one more of them than the log held for the client before. *)
Theorem communication_round_trip (P : Platform) (db db' : Logs)
    (user reader : User) (id : string) (body : object)
    (e : CommunicationEntity.t) (l : list CommunicationEntity.t) :
  communications_create P db user id body = (db', CommunicationCreated e) →
  communications_list P db' reader id = CommunicationList l →
  e ∈ l
  ∧ Forall (λ x, CommunicationEntity.client_id x = id) l
  ∧ length l
    = S (length (List.filter (λ r, bool_decide (log_client_id r = id))
                   (communications_log db))).
Proof.
  intros Hrun Hlist.
  destruct (communications_create_created P _ _ _ _ _ _ Hrun)
    as (input & row & Hin & Hrow & -> & Hins & Hent).
  revert Hlist. unfold communications_list.
  destruct (select_live_client _ id) as [|c rest]; [ done | ].
  destruct (foreign_to_agent reader c); [ done | ].
  destruct (mapM _ _) as [l'|] eqn:Hmap; [ | done ]. intros [= ->].
  pose proof (select_communications_perm P
                (bump_logs (set_communications_log db
                              (communications_log db ++ [row]))) id) as Hperm.
  simpl in Hperm. rewrite List.filter_app in Hperm. simpl in Hperm.
  assert (Hid : log_client_id row = id) by (by subst row).
  rewrite (bool_decide_eq_true_2 _ Hid) in Hperm.
  split; [ | split ].
  - eapply mapM_elem; [ exact Hmap | | exact Hent ].
    rewrite Hperm. apply elem_of_app. right. left.
  - eapply (mapM_Forall _ (λ r, log_client_id r = id)); [ | exact Hmap | ].
    + intros x y Hxy <-.
      by destruct (communicationsLogEntitySchema_row P _ _ Hxy) as (_ & -> & _).
    + rewrite Hperm. apply Forall_app. split; [ | by constructor ].
      apply Forall_forall. intros x Hx.
      apply list_elem_of_In, filter_In in Hx as [_ Hx].
      by apply bool_decide_eq_true in Hx.
  - rewrite <- (Forall2_length _ _ _ (mapM_Some_1 _ _ _ Hmap)), Hperm, length_app.
    simpl. lia.
Qed.

Lemma communication_round_trip_witness :
  match communications_create iso_platform seeded_logs alice "client1"
          note_body with
  | (db', CommunicationCreated e) =>
      match communications_list iso_platform db' charlie "client1" with
      | CommunicationList l => e ∈ l ∧ length l = 2%nat
      | _ => False
      end
  | _ => False
  end.
Proof.
  destruct (communications_create iso_platform seeded_logs alice "client1"
              note_body) as [db' r] eqn:Hrun.
  pose proof Hrun as Hval. vm_compute in Hval. injection Hval as <- <-.
  match goal with
  | |- match communications_list ?p ?d ?u ?i with _ => _ end =>
      destruct (communications_list p d u i) as [r|l|e'|e'|l|e'] eqn:Hlist;
        try (exfalso; vm_compute in Hlist; discriminate Hlist)
  end.
  match type of Hrun with
  | _ = (?d, CommunicationCreated ?e) =>
      destruct (communication_round_trip iso_platform seeded_logs d alice
                  charlie "client1" note_body e l Hrun Hlist)
        as (He & _ & Hlen)
  end.
  split; [ exact He | exact Hlen ].
Defined.

Section LogUpdateProperties.
Context (P : Platform).

Lemma note_only_parsed (n : string) :
  n ≠ "" →
  updateCommunicationsLogInputSchema P {["note" := VStr n]}
  = Some {| CommunicationUpdate.client_id := None;
            CommunicationUpdate.created_by := None;
            CommunicationUpdate.communication_date := None;
            CommunicationUpdate.note := Some n |}.
Proof.
  intros Hn. unfold updateCommunicationsLogInputSchema.
  rewrite (lookup_singleton_ne "note" "client_id") by done.
  rewrite (lookup_singleton_ne "note" "created_by") by done.
  rewrite (lookup_singleton_ne "note" "communication_date") by done.
  rewrite lookup_singleton. simpl.
  rewrite bool_decide_eq_true_2; [ done | ].
  destruct n; [ done | simpl; lia ].
Qed.

Lemma filter_log_id_unique (l : list CommunicationRow) r :
  NoDup (log_id <$> l) → r ∈ l →
  List.filter (λ x, bool_decide (log_id x = log_id r)) l = [r].
Proof.
  induction l as [|x l IH]; intros Hnd Hin; [ by apply elem_of_nil in Hin | ].
  rewrite fmap_cons in Hnd. apply NoDup_cons in Hnd as [Hx Hnd]. simpl.
  apply elem_of_cons in Hin as [<-|Hin].
  - rewrite bool_decide_eq_true_2 by done. f_equal.
    clear IH Hnd. induction l as [|y l IH]; [ done | ].
    rewrite fmap_cons, not_elem_of_cons in Hx. destruct Hx as [Hy Hl].
    simpl. rewrite bool_decide_eq_false_2 by done. by apply IH.
  - rewrite bool_decide_eq_false_2; [ by apply IH | ].
    intros Heq. apply Hx. rewrite Heq. by apply list_elem_of_fmap_2.
Qed.

Lemma filter_log_id_absent (l : list CommunicationRow) id :
  id ∉ log_id <$> l → List.filter (λ x, bool_decide (log_id x = id)) l = [].
Proof.
  induction l as [|x l IH]; [ done | ].
  rewrite fmap_cons, not_elem_of_cons. intros [Hx Hl]. simpl.
  rewrite bool_decide_eq_false_2 by done. by apply IH.
Qed.

End LogUpdateProperties.

(** X18. PUT /communications/:log_id asks nothing about the caller:
    under the primary key, any caller who names an entry of the log
    and sends a non-empty note has it rewritten and is answered with
    the entry, which keeps its client and its author; the other entries
    are left as they were. A request that names no entry of the log is
    answered 500, not 404, and leaves the log as it was. *)
Theorem communication_update_unscoped (P : Platform) (db : Logs) (user : User)
    (r : CommunicationRow) (n : string) :
  NoDup (log_id <$> communications_log db) →
  r ∈ communications_log db →
  n ≠ "" →
  is_Some (communicationsLogEntitySchema P r) →
  is_Some (Date_parse P (current_timestamp P (tick (store db)))) →
  (∃ db' e,
     communications_update P db user (log_id r) {["note" := VStr n]}
     = (db', CommunicationUpdated e)
     ∧ CommunicationEntity.log_id e = log_id r
     ∧ CommunicationEntity.note e = n
     ∧ CommunicationEntity.client_id e = log_client_id r
     ∧ CommunicationEntity.created_by e = created_by r
     ∧ Forall2 (λ a b, log_id b = log_id a ∧ (log_id a ≠ log_id r → b = a))
         (communications_log db) (communications_log db'))
  ∧ ∀ id body,
      id ∉ log_id <$> communications_log db →
      ∃ db', communications_update P db user id body
             = (db', LogResp ServerError)
             ∧ communications_log db' = communications_log db.
Proof.
  intros Hnd Hr Hn [e0 He0] [t Ht]. split.
  - unfold communications_update. rewrite (note_only_parsed P n Hn).
    rewrite (filter_log_id_unique _ r Hnd Hr). simpl.
    unfold update_communications.
    rewrite (filter_log_id_unique _ r Hnd Hr). simpl.
    match goal with
    | |- context [ communicationsLogEntitySchema P ?row ] =>
        destruct (communicationsLogEntitySchema P row) as [e|] eqn:He
    end.
    + exists (bump_logs
                (set_communications_log db
                   ((λ x, if bool_decide (log_id x = log_id r)
                          then update_communication_row P
                                 {| CommunicationUpdate.client_id := None;
                                    CommunicationUpdate.created_by := None;
                                    CommunicationUpdate.communication_date := None;
                                    CommunicationUpdate.note := Some n |}
                                 (current_timestamp P (tick (store db))) x
                          else x) <$> communications_log db))), e.
      split; [ done | ].
      destruct (communicationsLogEntitySchema_row P _ _ He)
        as (-> & -> & -> & ->).
      repeat (split; [ done | ]). simpl.
      apply Forall2_fmap_r, Forall_Forall2_diag, Forall_forall.
      intros x _. simpl. by case_bool_decide.
    + exfalso. revert He He0. unfold communicationsLogEntitySchema. simpl.
      rewrite Ht. simpl.
      destruct (Date_parse P (communication_date r)); simpl; [ | done ].
      destruct (Date_parse P (log_created_at r)); simpl; done.
  - intros id body Hid. unfold communications_update.
    destruct (updateCommunicationsLogInputSchema P body) as [u|];
      [ | by exists db ].
    rewrite (filter_log_id_absent _ id Hid). by exists (bump_logs db).
Qed.

Lemma communication_update_unscoped_witness :
  (communications_list iso_platform seeded_logs bob "client1"
   = LogResp (Error 403 "Forbidden"))
  ∧ ∃ db' e,
      communications_update iso_platform seeded_logs bob "log1" note_patch
      = (db', CommunicationUpdated e)
      ∧ CommunicationEntity.note e = "Rewritten"
      ∧ CommunicationEntity.client_id e = "client1".
Proof.
  split; [ reflexivity | ].
  destruct (communication_update_unscoped iso_platform seeded_logs bob
              {| log_id := "log1"; log_client_id := "client1";
                 created_by := "user1";
                 communication_date := "2023-10-05T16:00:00Z";
                 note := "Called about the viewing";
                 log_created_at := "2023-10-05T16:05:00Z";
                 log_updated_at := None |} "Rewritten")
    as [(db' & e & Hrun & _ & Hnote & Hcl & _) _].
  - apply (bool_decide_unpack _). by vm_compute.
  - left.
  - done.
  - vm_compute. by eexists.
  - vm_compute. by eexists.
  - exists db', e. done.
Defined.

Section ActivityProperties.
Context (P : Platform).

Lemma searchActivityLogQuerySchema_inv o q :
  searchActivityLogQuerySchema o = Some q →
  z_enum_default ["timestamp"; "action_type"] "timestamp" (o !! "sort_by")
  = Some (sort_by q)
  ∧ z_enum_default ["asc"; "desc"] "desc" (o !! "sort_order")
    = Some (sort_order q).
Proof.
  unfold searchActivityLogQuerySchema. intros H.
  repeat
    match type of H with
    | context [ ?x ≫= _ ] =>
        destruct x; cbn [mbind option_bind] in H; [ | done ]
    end.
  injection H as <-. done.
Qed.

(** The one column and the two directions that can reach the
    statement of GET /activity-log. *)
Lemma effective_activity_sort o q :
  searchActivityLogQuerySchema o = Some q →
  whitelist_activity_sort_by (sort_by q) = "timestamp"
  ∧ whitelist_sort_order (sort_order q)
    = (if bool_decide (o !! "sort_order" = Some (VStr "asc"))
       then "ASC" else "DESC").
Proof.
  intros (Hby & Hord)%searchActivityLogQuerySchema_inv. split.
  - destruct (o !! "sort_by") as [[| | |s]|]; simpl in Hby; try done.
    + case_bool_decide as Hs; [ | done ]. injection Hby as <-.
      repeat (apply elem_of_cons in Hs as [->|Hs]; [ reflexivity | ]).
      by apply elem_of_nil in Hs.
    + by injection Hby as <-.
  - destruct (o !! "sort_order") as [[| | |s]|]; simpl in Hord; try done.
    + case_bool_decide as Hs; [ | done ]. injection Hord as <-.
      apply elem_of_cons in Hs as [->|Hs]; [ reflexivity | ].
      apply elem_of_cons in Hs as [->|Hs]; [ reflexivity | ].
      by apply elem_of_nil in Hs.
    + by injection Hord as <-.
Qed.

End ActivityProperties.

(** X19. GET /activity-log is for managers, and it has one order: a
    caller who is no manager is answered 403; for a manager, the
    columns [activity_id] and [user_id] of the whitelist are refused by
    the schema with 500, and [action_type], which the schema admits, is
    replaced by [timestamp]; so under a total and transitive collation
    every list of activities answered was read from the log in the
    order of [timestamp], ascending if the request says [asc] and
    descending otherwise. *)
Theorem activity_list_by_timestamp (P : Platform) (db : Logs) (user : User)
    (o : object) :
  Total (λ a b : string, Is_true (text_leb P a b)) →
  Transitive (λ a b : string, Is_true (text_leb P a b)) →
  (role user ≠ "manager" →
   activity_list P db user o
   = LogResp (Error 403 "Forbidden - manager access only"))
  ∧ (role user = "manager" →
     o !! "sort_by" = Some (VStr "activity_id")
     ∨ o !! "sort_by" = Some (VStr "user_id") →
     activity_list P db user o = LogResp ServerError)
  ∧ ∀ l, activity_list P db user o = ActivityList l →
      role user = "manager"
      ∧ ∃ rows,
          mapM (activityLogEntitySchema P) rows = Some l
          ∧ rows ⊆ activity_log db
          ∧ StronglySorted
              (λ a b, Is_true
                 (if bool_decide (o !! "sort_order" = Some (VStr "asc"))
                  then text_leb P a b else text_leb P b a))
              (timestamp <$> rows).
Proof.
  intros Htot Htrans. unfold activity_list. split; [ | split ].
  - intros Hrole. by rewrite bool_decide_eq_true_2.
  - intros Hrole Hby. rewrite bool_decide_eq_false_2 by (by intros []).
    unfold searchActivityLogQuerySchema.
    destruct (z_string_optional _); simpl; [ | done ].
    destruct (z_int_from_default 1 10 _); simpl; [ | done ].
    destruct (z_int_from_default 0 0 _); simpl; [ | done ].
    by destruct Hby as [-> | ->].
  - intros l. case_bool_decide as Hrole; [ done | ].
    destruct (searchActivityLogQuerySchema o) as [q|] eqn:Hq; [ | done ].
    destruct (effective_activity_sort o q Hq) as [-> ->].
    unfold select_activities. simpl.
    destruct (mapM _ _) as [l'|] eqn:Hmap; [ | done ]. intros [= ->].
    split; [ by destruct (decide (role user = "manager")) | ].
    eexists. split; [ exact Hmap | ]. split.
    + intros x Hx. apply subseteq_take, subseteq_drop in Hx.
      by rewrite merge_sort_Permutation in Hx.
    + apply (StronglySorted_fmap _
               (λ a b, Is_true
                  (if bool_decide
                        ((if bool_decide (o !! "sort_order" = Some (VStr "asc"))
                          then "ASC" else "DESC") = "DESC")
                   then text_leb P (timestamp b) (timestamp a)
                   else text_leb P (timestamp a) (timestamp b)))).
      { intros x y.
        by destruct (bool_decide (o !! "sort_order" = Some (VStr "asc"))). }
      apply take_drop_sorted. apply StronglySorted_merge_sort.
      * intros x y z. case_bool_decide; [ | apply Htrans ].
        intros H1 H2. by apply (Htrans _ _ _ H2 H1).
      * intros x y. case_bool_decide; apply Htot.
Qed.

Lemma activity_list_by_timestamp_witness :
  match activity_list ref_platform seeded_logs charlie
          (obj [("sort_by", "action_type")]) with
  | ActivityList l =>
      ActivityEntity.activity_id <$> l = ["act2"; "act1"]
      ∧ ∃ rows,
          mapM (activityLogEntitySchema ref_platform) rows = Some l
          ∧ StronglySorted (λ a b, Is_true (String.leb b a))
              (timestamp <$> rows)
  | _ => False
  end.
Proof.
  assert (Htot : Total (λ a b : string, Is_true (text_leb ref_platform a b)))
    by (change (Total String.le); apply _).
  assert (Htr : Transitive (λ a b : string, Is_true (text_leb ref_platform a b)))
    by (change (Transitive String.le); apply _).
  destruct (activity_list ref_platform seeded_logs charlie
              (obj [("sort_by", "action_type")])) as [r|l|e|e|l|e] eqn:Hrun;
    try (exfalso; revert Hrun; vm_compute; intros Hx; discriminate Hx).
  destruct (activity_list_by_timestamp ref_platform seeded_logs charlie
              (obj [("sort_by", "action_type")]) Htot Htr)
    as (_ & _ & Hl).
  destruct (Hl l Hrun) as (_ & rows & Hmap & _ & Hsorted).
  split; [ revert Hrun; vm_compute; intros Hx; by injection Hx as <- | ].
  exists rows. split; [ exact Hmap | exact Hsorted ].
Defined.

Section ActivityCreateProperties.
Context (P : Platform).

Lemma insert_activity_Some db row db1 :
  insert_activity P db row = Some db1 →
  db1 = set_activity_log db (activity_log db ++ [row])
  ∧ (activity_id row ∉ activity_id <$> activity_log db)
  ∧ act_user_id row ∈ users (store db)
  ∧ (∀ c, act_client_id row = Some c → c ∈ client_id <$> clients (store db)).
Proof.
  unfold insert_activity.
  destruct (_ && _ && _ && _) eqn:E; [ | done ]. intros [= <-].
  apply andb_true_iff in E as [E Hcl]. apply andb_true_iff in E as [E Hu].
  apply andb_true_iff in E as [_ Hfresh].
  apply bool_decide_eq_true in Hu. apply bool_decide_eq_true in Hfresh.
  repeat (split; [ done | ]).
  intros c Hc. rewrite Hc in Hcl. by apply bool_decide_eq_true in Hcl.
Qed.

Lemma createActivityLogInputSchema_inv o input :
  createActivityLogInputSchema P o = Some input →
  o !! "user_id" = Some (VStr (ActivityInput.user_id input))
  ∧ Zod.coerce_date P (o !! "timestamp")
    = Some (ActivityInput.timestamp input).
Proof.
  unfold createActivityLogInputSchema. intros H.
  destruct (o !! "user_id") as [[| | |s]|]; simpl in H; try done.
  repeat
    match type of H with
    | context [ ?x ≫= _ ] =>
        destruct x; cbn [mbind option_bind] in H; [ | done ]
    end.
  by injection H as <-.
Qed.

End ActivityCreateProperties.

(** X20. When POST /activity-log answers 201, the activity is recorded
    under the caller's name and at the server's time, whatever
    [user_id] and [timestamp] the body gives, though the body has to
    give both; the caller is a known user and the client, if one is
    named, a row of the store; the activity is added at the end of the
    log under a fresh identifier and nothing else changes. *)
Theorem activity_recorded_as_caller (P : Platform) (db db' : Logs)
    (user : User) (body : object) (e : ActivityEntity.t) :
  activity_create P db user body = (db', ActivityCreated e) →
  ActivityEntity.user_id e = user_id user
  ∧ Date_parse P (now_iso P (tick (store db)))
    = Some (ActivityEntity.timestamp e)
  ∧ (∃ given, body !! "user_id" = Some (VStr given))
  ∧ is_Some (Zod.coerce_date P (body !! "timestamp"))
  ∧ user_id user ∈ users (store db)
  ∧ (∀ c, ActivityEntity.client_id e = Some c →
          c ∈ client_id <$> clients (store db))
  ∧ clients (store db') = clients (store db)
  ∧ communications_log db' = communications_log db
  ∧ ∃ row, activity_log db' = (activity_log db ++ [row])%list
           ∧ activity_id row = ActivityEntity.activity_id e
           ∧ (activity_id row ∉ activity_id <$> activity_log db).
Proof.
  unfold activity_create. intros Hrun.
  destruct (createActivityLogInputSchema P body) as [input|] eqn:Hin;
    [ | done ].
  destruct (createActivityLogInputSchema_inv P _ _ Hin) as (Hgiven & Hts).
  cbv zeta in Hrun.
  destruct (insert_activity P db _) as [db1|] eqn:I; [ | done ].
  destruct (insert_activity_Some P _ _ _ I) as (-> & Hfresh & Hu & Hcl).
  destruct (activityLogEntitySchema P _) as [e'|] eqn:E; [ | done ].
  injection Hrun as <- <-.
  revert E. unfold activityLogEntitySchema. simpl.
  destruct (Date_parse P _) as [t|]; simpl; [ | done ]. intros [= <-].
  simpl in *. repeat (split; [ by eauto | ]).
  eexists. split; [ reflexivity | ]. done.
Qed.

Lemma activity_recorded_as_caller_witness :
  match activity_create iso_platform seeded_logs alice activity_body with
  | (_, ActivityCreated e) =>
      ActivityEntity.user_id e = "user1"
      ∧ ActivityEntity.timestamp e = 1704067200000
  | _ => False
  end.
Proof.
  destruct (activity_create iso_platform seeded_logs alice activity_body)
    as [db' r] eqn:Hrun.
  destruct r as [r|l|e|e|l|e];
    try (exfalso; revert Hrun; vm_compute; intros Hx; discriminate Hx).
  destruct (activity_recorded_as_caller iso_platform seeded_logs db' alice
              activity_body e Hrun) as (Hu & Ht & _).
  split; [ exact Hu | ].
  revert Ht. vm_compute. intros Hx. by injection Hx as <-.
Defined.

(** * Properties of login and password reset *)

Section AuthProperties.
Context (P : Platform) (A : Auth).

(** Under a unique key, the rows of a key are one row. *)
Lemma filter_key_unique {T} (key : T → string) (l : list T) (x : T) :
  NoDup (key <$> l) → x ∈ l →
  List.filter (λ y, bool_decide (key y = key x)) l = [x].
Proof.
  induction l as [|y l IH]; intros Hnd Hin; [ by apply elem_of_nil in Hin | ].
  rewrite fmap_cons in Hnd. apply NoDup_cons in Hnd as [Hy Hnd]. simpl.
  apply elem_of_cons in Hin as [<-|Hin].
  - rewrite bool_decide_eq_true_2 by done. f_equal.
    clear IH Hnd. induction l as [|z l IH]; [ done | ].
    rewrite fmap_cons, not_elem_of_cons in Hy. destruct Hy as [Hz Hl].
    simpl. rewrite bool_decide_eq_false_2 by done. by apply IH.
  - rewrite bool_decide_eq_false_2; [ by apply IH | ].
    intros Heq. apply Hy. rewrite Heq. by apply list_elem_of_fmap_2.
Qed.

Lemma filter_key_absent {T} (key : T → string) (l : list T) (k : string) :
  k ∉ key <$> l → List.filter (λ y, bool_decide (key y = k)) l = [].
Proof.
  induction l as [|y l IH]; [ done | ].
  rewrite fmap_cons, not_elem_of_cons. intros [Hy Hl]. simpl.
  rewrite bool_decide_eq_false_2 by done. by apply IH.
Qed.

(** A filter commutes with an update that keeps what it tests. *)
Lemma filter_fmap_same {T} (p : T → bool) (f : T → T) (l : list T) :
  (∀ x, p (f x) = p x) → List.filter p (f <$> l) = f <$> List.filter p l.
Proof.
  intros Hp. induction l as [|x l IH]; [ done | ].
  rewrite fmap_cons. cbn [List.filter]. rewrite Hp, IH. by destruct (p x).
Qed.

Lemma loginSchema_Some (o : object) email password :
  o !! "email" = Some (VStr email) →
  o !! "password" = Some (VStr password) →
  is_email P email = true →
  password ≠ "" →
  loginSchema P o = Some (email, password).
Proof.
  intros Ho1 Ho2 He Hp. unfold loginSchema. rewrite Ho1, Ho2. simpl.
  rewrite He. simpl.
  rewrite bool_decide_eq_true_2; [ done | ].
  destruct password; [ done | simpl; lia ].
Qed.

(** The ways POST /password-reset ends well. *)
Lemma password_reset_done a a' body :
  password_reset P A a body
  = (a', AuthResp (Message "Password successfully updated.")) →
  ∃ token pw r rest,
    resetSchema body = Some (token, pw)
    ∧ List.filter (λ r, bool_decide (reset_token r = token))
        (password_reset_requests a) = r :: rest
    ∧ consumed r = false
    ∧ expired P A a r = false
    ∧ a' = {| user_rows :=
                set_password P a (reset_user_id r)
                  (bcrypt_hash A (draws a) pw);
              password_reset_requests := consume a (request_id r);
              draws := S (draws a) |}.
Proof.
  unfold password_reset. intros Hrun.
  destruct (resetSchema body) as [[token pw]|]; [ | done ].
  destruct (List.filter _ _) as [|r rest] eqn:Hsel; [ done | ].
  destruct (consumed r) eqn:Hc; [ done | ].
  destruct (expired P A a r) eqn:He; [ done | ].
  injection Hrun as <-. by exists token, pw, r, rest.
Qed.

Lemma resetSchema_inv (o : object) token pw :
  resetSchema o = Some (token, pw) →
  o !! "reset_token" = Some (VStr token)
  ∧ o !! "new_password" = Some (VStr pw)
  ∧ (6 ≤ String.length pw)%nat.
Proof.
  unfold resetSchema.
  destruct (o !! "reset_token") as [[| | |s]|]; simpl; try done.
  destruct (o !! "new_password") as [[| | |s']|]; simpl; try done.
  case_bool_decide; [ | done ]. simpl. by intros [= <- <-].
Qed.

Lemma resetSchema_Some (o : object) token pw :
  o !! "reset_token" = Some (VStr token) →
  o !! "new_password" = Some (VStr pw) →
  (6 ≤ String.length pw)%nat →
  resetSchema o = Some (token, pw).
Proof.
  intros Ho1 Ho2 Hlen. unfold resetSchema. rewrite Ho1, Ho2. simpl.
  by rewrite bool_decide_eq_true_2.
Qed.

End AuthProperties.

(** X21. Under the unique e-mail of [users], a login with the e-mail
    of a user and a non-empty password is decided by bcrypt alone,
    whether or not the account is active: if the password matches the
    stored hash and a token is signed, the answer carries the token
    for the user's identity, name and role, which the middleware reads
    back to that identity and role when the verifier accepts what was
    signed; the login changes no identity, e-mail or hash and no reset
    request. If the password does not match, the answer is 401 and
    nothing changes. *)
Theorem login_then_authenticated (P : Platform) (A : Auth)
    (jwt_verify : string → option User) (a : Accounts) (u : UserRow)
    (body : object) (password token : string) :
  NoDup (acc_email <$> user_rows a) →
  u ∈ user_rows a →
  body !! "email" = Some (VStr (acc_email u)) →
  body !! "password" = Some (VStr password) →
  is_email P (acc_email u) = true →
  password ≠ "" →
  let tokenPayload :=
    {| payload_user_id := acc_user_id u; payload_name := acc_name u;
       payload_role := acc_role u |} in
  jwt_sign A (draws a) tokenPayload = Some token →
  jwt_verify token = Some (payload_user tokenPayload) →
  " "%char ∉ list_ascii_of_string token →
  (bcrypt_compare A password (password_hash u) = true →
   ∃ a',
     login P A a body = (a', LoggedIn token tokenPayload)
     ∧ authenticateJWT jwt_verify (Some (bearer token))
       = inr {| user_id := acc_user_id u; role := acc_role u |}
     ∧ acc_user_id <$> user_rows a' = acc_user_id <$> user_rows a
     ∧ acc_email <$> user_rows a' = acc_email <$> user_rows a
     ∧ password_hash <$> user_rows a' = password_hash <$> user_rows a
     ∧ password_reset_requests a' = password_reset_requests a)
  ∧ (bcrypt_compare A password (password_hash u) = false →
     login P A a body = (a, AuthResp (Error 401 "Invalid credentials"))).
Proof.
  intros Hnd Hu Hemail Hpw Hmail Hne tokenPayload Hsign Hverify Hsp.
  unfold login. rewrite (loginSchema_Some P body _ _ Hemail Hpw Hmail Hne).
  unfold select_user_by_email.
  rewrite (filter_key_unique acc_email _ u Hnd Hu).
  split; intros Hcmp; rewrite Hcmp; [ | done ].
  cbv zeta. fold tokenPayload. rewrite Hsign.
  eexists. split; [ reflexivity | ]. split.
  { destruct (bearer_parts token Hsp) as [Hp Hs].
    unfold authenticateJWT. rewrite Hp, Hs. simpl. by rewrite Hverify. }
  unfold touch_login. simpl. rewrite <- !list_fmap_compose.
  repeat split; apply list_fmap_ext; intros i x _; simpl; by case_bool_decide.
Qed.

Lemma login_then_authenticated_witness :
  ∃ a',
    login ref_platform sample_auth sample_accounts alice_login
    = (a', LoggedIn "user1.agent"
             {| payload_user_id := "user1"; payload_name := "Alice Agent";
                payload_role := "agent" |})
    ∧ authenticateJWT sample_token_verify (Some (bearer "user1.agent"))
      = inr alice.
Proof.
  destruct (login_then_authenticated ref_platform sample_auth
              sample_token_verify sample_accounts
              {| acc_user_id := "user1"; acc_name := "Alice Agent";
                 acc_email := "alice.agent@example.com";
                 password_hash := "$2b$wonderland"; acc_role := "agent";
                 last_login_at := Some "2023-10-10T12:00:00Z";
                 is_active := false;
                 acc_created_at := "2023-10-01T09:00:00Z";
                 acc_updated_at := "2023-10-01T09:00:00Z" |}
              alice_login "wonderland" "user1.agent") as [Hyes _].
  - apply (bool_decide_unpack _). by vm_compute.
  - left.
  - reflexivity.
  - reflexivity.
  - reflexivity.
  - done.
  - reflexivity.
  - reflexivity.
  - apply (bool_decide_unpack _). by vm_compute.
  - destruct (Hyes eq_refl) as (a' & Hl & Ha & _). exists a'. by split.
Defined.

(** X22. A reset token works once: after a password reset that
    succeeded, every further request with the same token is answered
    400 "Reset token already used", or 500 when its new password is
    not a string of six characters or more, and changes nothing. *)
Theorem reset_single_use (P : Platform) (A : Auth) (a a' : Accounts)
    (body : object) :
  password_reset P A a body
  = (a', AuthResp (Message "Password successfully updated.")) →
  ∀ body',
    body' !! "reset_token" = body !! "reset_token" →
    password_reset P A a' body'
    = (a', AuthResp (Error 400 "Reset token already used"))
    ∨ password_reset P A a' body' = (a', AuthResp ServerError).
Proof.
  intros Hrun body' Hsame.
  destruct (password_reset_done P A _ _ _ Hrun)
    as (token & pw & r & rest & Hschema & Hsel & Hc & He & ->).
  destruct (resetSchema_inv _ _ _ Hschema) as (Htok & _).
  unfold password_reset.
  destruct (resetSchema body') as [[token' pw']|] eqn:Hschema';
    [ | by right ].
  destruct (resetSchema_inv _ _ _ Hschema') as (Htok' & _).
  rewrite Hsame, Htok in Htok'. injection Htok' as <-.
  left. cbn [password_reset_requests]. unfold consume.
  rewrite (filter_fmap_same (λ r0, bool_decide (reset_token r0 = token)));
    [ | intros x; by destruct (bool_decide (request_id x = request_id r)) ].
  rewrite Hsel. rewrite fmap_cons.
  rewrite bool_decide_eq_true_2 by done. done.
Qed.

Lemma reset_single_use_witness :
  match password_reset ref_platform sample_auth pending_reset reset_body with
  | (a', r) =>
      r = AuthResp (Message "Password successfully updated.")
      ∧ password_reset ref_platform sample_auth a' reset_body
        = (a', AuthResp (Error 400 "Reset token already used"))
  end.
Proof.
  destruct (password_reset ref_platform sample_auth pending_reset reset_body)
    as [a' r] eqn:Hrun.
  pose proof Hrun as Hval. vm_compute in Hval. injection Hval as <- <-.
  split; [ reflexivity | ].
  match type of Hrun with
  | _ = (?x, _) =>
      destruct (reset_single_use ref_platform sample_auth pending_reset x
                  reset_body Hrun reset_body eq_refl) as [H|H]
  end.
  - exact H.
  - exfalso. vm_compute in H. discriminate H.
Defined.

(** X23. After a password reset that succeeded, the user the token was
    issued for logs in with the new password and is answered the token
    signed for them, provided bcrypt accepts a password against its own
    hash and, as [users] declares, e-mails are unique. *)
Theorem reset_then_login (P : Platform) (A : Auth) (a a' : Accounts)
    (body login_body : object) (token pw signed : string) (r : ResetRow)
    (u : UserRow) :
  NoDup (acc_email <$> user_rows a) →
  (∀ n p, bcrypt_compare A p (bcrypt_hash A n p) = true) →
  body !! "reset_token" = Some (VStr token) →
  body !! "new_password" = Some (VStr pw) →
  password_reset P A a body
  = (a', AuthResp (Message "Password successfully updated.")) →
  head (List.filter (λ r, bool_decide (reset_token r = token))
          (password_reset_requests a)) = Some r →
  u ∈ user_rows a →
  acc_user_id u = reset_user_id r →
  is_email P (acc_email u) = true →
  login_body !! "email" = Some (VStr (acc_email u)) →
  login_body !! "password" = Some (VStr pw) →
  let tokenPayload :=
    {| payload_user_id := acc_user_id u; payload_name := acc_name u;
       payload_role := acc_role u |} in
  jwt_sign A (draws a') tokenPayload = Some signed →
  ∃ a'', login P A a' login_body = (a'', LoggedIn signed tokenPayload).
Proof.
  intros Hnd Hlaw Htok Hpw Hrun Hhead Hu Hid Hmail Hle Hlp tokenPayload Hsign.
  revert Hsign.
  destruct (password_reset_done P A _ _ _ Hrun)
    as (token' & pw' & r' & rest & Hschema & Hsel & Hc & He & ->).
  destruct (resetSchema_inv _ _ _ Hschema) as (Htok' & Hpw' & Hlen).
  rewrite Htok in Htok'. injection Htok' as <-.
  rewrite Hpw in Hpw'. injection Hpw' as <-.
  rewrite Hsel in Hhead. injection Hhead as ->.
  unfold login.
  assert (Hne : pw ≠ "") by (intros ->; simpl in Hlen; lia).
  rewrite (loginSchema_Some P login_body _ _ Hle Hlp Hmail Hne).
  unfold select_user_by_email, set_password. cbn [user_rows].
  rewrite (filter_fmap_same
             (λ x, bool_decide (acc_email x = acc_email u)));
    [ | intros x; by destruct (bool_decide (acc_user_id x = reset_user_id r)) ].
  rewrite (filter_key_unique acc_email _ u Hnd Hu). rewrite fmap_cons.
  rewrite bool_decide_eq_true_2 by done. cbn [fmap list_fmap password_hash].
  rewrite Hlaw. cbn [acc_user_id acc_name acc_role draws]. fold tokenPayload.
  intros ->. eexists. reflexivity.
Qed.

Lemma reset_then_login_witness :
  match password_reset ref_platform sample_auth pending_reset reset_body with
  | (a', _) =>
      ∃ a'',
        login ref_platform sample_auth a' alice_new_login
        = (a'', LoggedIn "user1.agent"
                  {| payload_user_id := "user1"; payload_name := "Alice Agent";
                     payload_role := "agent" |})
  end.
Proof.
  destruct (password_reset ref_platform sample_auth pending_reset reset_body)
    as [a' r] eqn:Hrun.
  pose proof Hrun as Hval. vm_compute in Hval. injection Hval as <- <-.
  match type of Hrun with
  | _ = (?x, _) =>
      apply (reset_then_login ref_platform sample_auth pending_reset x
               reset_body alice_new_login "tok1" "rabbit-hole" "user1.agent"
               {| request_id := "req1"; reset_user_id := "user1";
                  reset_token := "tok1";
                  reset_created_at := "2023-12-31T23:30:00Z";
                  expires_at := "2024-01-01T00:30:00Z"; consumed := false |}
               {| acc_user_id := "user1"; acc_name := "Alice Agent";
                  acc_email := "alice.agent@example.com";
                  password_hash := "$2b$wonderland"; acc_role := "agent";
                  last_login_at := Some "2023-10-10T12:00:00Z";
                  is_active := false;
                  acc_created_at := "2023-10-01T09:00:00Z";
                  acc_updated_at := "2023-10-01T09:00:00Z" |})
  end.
  - apply (bool_decide_unpack _). by vm_compute.
  - intros n p. by apply bool_decide_eq_true.
  - reflexivity.
  - reflexivity.
  - exact Hrun.
  - reflexivity.
  - left.
  - reflexivity.
  - reflexivity.
  - reflexivity.
  - reflexivity.
  - reflexivity.
Defined.

(** X24. For the e-mail of a user, under the unique e-mail,
    POST /password-reset-request leaves the users as they are and
    answers either 500, having stored nothing, or the message, having
    stored one unconsumed request for that user under a fresh token;
    it answers the message when the e-mail is well formed, the database
    is up and the two identifiers drawn are new to the table. After the
    message, a password reset with that token and a password of six
    characters or more succeeds, provided it comes within the hour and
    the expiry written reads back. An e-mail nobody has is answered the
    message, and nothing is stored. *)
Theorem reset_request_then_reset (P : Platform) (A : Auth) (a a' : Accounts)
    (body : object) (u : UserRow) (r : AuthReply) :
  NoDup (acc_email <$> user_rows a) →
  u ∈ user_rows a →
  body !! "email" = Some (VStr (acc_email u)) →
  password_reset_request P A a body = (a', r) →
  let sent :=
    AuthResp (Message "Password reset instructions sent if email exists.") in
  let row :=
    {| request_id := uuidv4 P (draws a);
       reset_user_id := acc_user_id u;
       reset_token := uuidv4 P (S (draws a));
       reset_created_at := current_timestamp P (draws a);
       expires_at := toISOString A (Date_now A (draws a) + 3600000);
       consumed := false |} in
  user_rows a' = user_rows a
  ∧ (r = AuthResp ServerError
     ∧ password_reset_requests a' = password_reset_requests a
     ∨ r = sent
       ∧ password_reset_requests a' = (password_reset_requests a ++ [row])%list
       ∧ reset_token row ∉ reset_token <$> password_reset_requests a)
  ∧ (is_email P (acc_email u) = true →
     db_up P (draws a) = true →
     request_id row ∉ request_id <$> password_reset_requests a →
     reset_token row ∉ reset_token <$> password_reset_requests a →
     r = sent)
  ∧ (r = sent →
     ∀ (reset_body : object) (pw : string),
       Date_parse P (toISOString A (Date_now A (draws a) + 3600000))
       = Some (Date_now A (draws a) + 3600000) →
       Date_now A (draws a') ≤ Date_now A (draws a) + 3600000 →
       reset_body !! "reset_token" = Some (VStr (uuidv4 P (S (draws a)))) →
       reset_body !! "new_password" = Some (VStr pw) →
       (6 ≤ String.length pw)%nat →
       ∃ a'', password_reset P A a' reset_body
              = (a'', AuthResp (Message "Password successfully updated."))
              ∧ Forall (λ x, acc_user_id x = acc_user_id u →
                             password_hash x = bcrypt_hash A (draws a') pw)
                  (user_rows a''))
  ∧ (∀ other : object, ∀ email,
       other !! "email" = Some (VStr email) →
       is_email P email = true →
       email ∉ acc_email <$> user_rows a →
       password_reset_request P A a other = (a, sent)).
Proof.
  intros Hnd Hu Hemail Hrun sent row.
  assert (Hother : ∀ other : object, ∀ email,
            other !! "email" = Some (VStr email) →
            is_email P email = true →
            email ∉ acc_email <$> user_rows a →
            password_reset_request P A a other = (a, sent)).
  { intros other email Ho Hm Hno. unfold password_reset_request.
    rewrite Ho. simpl. rewrite Hm. unfold select_user_by_email.
    by rewrite (filter_key_absent acc_email _ email Hno). }
  revert Hrun. unfold password_reset_request. rewrite Hemail. simpl.
  destruct (is_email P (acc_email u)) eqn:Hmail.
  2:{ intros [= <- <-]. split; [ done | ]. split; [ by left | ].
      split; [ done | ]. split; [ done | exact Hother ]. }
  unfold select_user_by_email.
  rewrite (filter_key_unique acc_email _ u Hnd Hu). cbv zeta. fold row.
  destruct (insert_reset_request P a row) as [a1|] eqn:Hins.
  2:{ intros [= <- <-]. split; [ done | ]. split; [ by left | ].
      split; [ | split; [ done | exact Hother ] ].
      intros _ Hup Hid Htok. exfalso. revert Hins.
      unfold insert_reset_request. rewrite Hup.
      rewrite !bool_decide_eq_true_2; [ done | | done | done ].
      apply list_elem_of_fmap. by exists u. }
  intros [= <- <-].
  revert Hins. unfold insert_reset_request.
  destruct (_ && _ && _ && _) eqn:E; [ | done ]. intros [= <-].
  apply andb_true_iff in E as [E _]. apply andb_true_iff in E as [_ Hfresh].
  apply bool_decide_eq_true in Hfresh.
  split; [ done | ]. split; [ right; by repeat split | ].
  split; [ done | ]. split; [ | exact Hother ].
  intros _ reset_body pw Hparse Hclock Htok Hpw Hlen.
  subst row. simpl in Hfresh.
  unfold password_reset. rewrite (resetSchema_Some _ _ _ Htok Hpw Hlen).
  cbn [password_reset_requests skip_draws]. rewrite List.filter_app.
  rewrite (filter_key_absent reset_token _ _ Hfresh). simpl.
  rewrite bool_decide_eq_true_2 by done. simpl.
  unfold expired. cbn [expires_at]. rewrite Hparse.
  rewrite bool_decide_eq_false_2 by (simpl in *; lia).
  eexists. split; [ reflexivity | ].
  cbn [user_rows]. unfold set_password. apply Forall_fmap, Forall_forall.
  intros x _. simpl. case_bool_decide as Hx; [ done | ].
  intros Hxu. by rewrite Hxu in Hx.
Qed.

Lemma reset_request_then_reset_witness :
  match password_reset_request iso_platform sample_auth sample_accounts
          alice_forgot with
  | (a', r) =>
      r = AuthResp
            (Message "Password reset instructions sent if email exists.")
      ∧ length (password_reset_requests a')
        = S (length (password_reset_requests sample_accounts))
      ∧ ∃ a'',
          password_reset iso_platform sample_auth a'
            (obj [("reset_token", Ref.uuidv4 1); ("new_password", "rabbit-hole")])
          = (a'', AuthResp (Message "Password successfully updated."))
  end.
Proof.
  destruct (password_reset_request iso_platform sample_auth sample_accounts
              alice_forgot) as [a' r] eqn:Hrun.
  pose proof Hrun as Hval. vm_compute in Hval. injection Hval as <- <-.
  match type of Hrun with
  | _ = (?x, ?y) =>
      destruct (reset_request_then_reset iso_platform sample_auth
                  sample_accounts x alice_forgot
                  {| acc_user_id := "user1"; acc_name := "Alice Agent";
                     acc_email := "alice.agent@example.com";
                     password_hash := "$2b$wonderland"; acc_role := "agent";
                     last_login_at := Some "2023-10-10T12:00:00Z";
                     is_active := false;
                     acc_created_at := "2023-10-01T09:00:00Z";
                     acc_updated_at := "2023-10-01T09:00:00Z" |}
                  y)
        as (_ & _ & Hsent & Hreset & _)
  end.
  - apply (bool_decide_unpack _). by vm_compute.
  - left.
  - reflexivity.
  - exact Hrun.
  - split; [ | split ].
    + apply Hsent.
      * reflexivity.
      * reflexivity.
      * apply (bool_decide_unpack _). by vm_compute.
      * apply (bool_decide_unpack _). by vm_compute.
    + reflexivity.
    + destruct (Hreset eq_refl
                  (obj [("reset_token", Ref.uuidv4 1);
                        ("new_password", "rabbit-hole")])
                  "rabbit-hole") as (a'' & Hdone & _).
      * by vm_compute.
      * by vm_compute.
      * by vm_compute.
      * reflexivity.
      * simpl. lia.
      * exists a''. exact Hdone.
Defined.

(** * Properties of the views *)

(** X25. Dismissing a notification removes every notification of its
    identifier and nothing else, so adding a notification and
    dismissing it gives the list back exactly when its identifier was
    not in use; when it was, as for two notifications raised within
    the same millisecond, the older ones go with it. *)
Theorem notification_add_remove (state : list AppStore.Notification)
    (n : AppStore.Notification) (id : string) :
  id = AppStore.notification_id n →
  let state' := AppStore.remove_notification
                  (AppStore.add_notification state n) id in
  (id ∉ AppStore.notification_id <$> state')
  ∧ state' = AppStore.remove_notification state id
  ∧ (id ∉ AppStore.notification_id <$> state → state' = state)
  ∧ (id ∈ AppStore.notification_id <$> state →
     (length state' < length state)%nat).
Proof.
  intros -> state'. subst state'.
  unfold AppStore.remove_notification, AppStore.add_notification.
  rewrite List.filter_app. simpl.
  rewrite bool_decide_eq_false_2 by (by intros H; apply H).
  rewrite app_nil_r. split; [ | split; [ done | split ] ].
  - intros (x & Hid & Hx)%list_elem_of_fmap.
    apply list_elem_of_In, filter_In in Hx as [_ Hx].
    apply bool_decide_eq_true in Hx. by apply Hx.
  - intros Hfresh. induction state as [|x l IH]; [ done | ].
    rewrite fmap_cons, not_elem_of_cons in Hfresh. destruct Hfresh as [Hx Hl].
    simpl. rewrite bool_decide_eq_true_2 by done. by rewrite IH.
  - intros Hin. induction state as [|x l IH]; [ by apply elem_of_nil in Hin | ].
    simpl. case_bool_decide as Hx; simpl.
    + rewrite fmap_cons in Hin. apply elem_of_cons in Hin as [Hin|Hin];
        [ by rewrite Hin in Hx | ].
      specialize (IH Hin). lia.
    + pose proof (List.filter_length_le
                    (λ y, bool_decide (AppStore.notification_id y
                                       ≠ AppStore.notification_id n)) l).
      lia.
Qed.

Lemma notification_add_remove_witness :
  let first :=
    {| AppStore.notification_id := "1704067200000";
       AppStore.message := "Client created successfully";
       AppStore.type := "success";
       AppStore.timestamp := "2024-01-01T00:00:00.000Z" |} in
  let second :=
    {| AppStore.notification_id := "1704067200000";
       AppStore.message := "Failed to create client";
       AppStore.type := "error";
       AppStore.timestamp := "2024-01-01T00:00:00.000Z" |} in
  AppStore.remove_notification (AppStore.add_notification [first] second)
    "1704067200000" = [].
Proof.
  intros first second.
  destruct (notification_add_remove [first] second "1704067200000" eq_refl)
    as (_ & -> & _). reflexivity.
Defined.

Section ViewProperties.
Context (P : Platform) (jwt_verify : string → option User).









End ViewProperties.



(** X27. The login view stores the response of POST /login as the
    [auth_state], and the response has a [token] and a [user] but no
    [jwt_token]; so after a login through the view, whatever token the
    server signed, the header the views build is [Bearer undefined],
    and a client route answers it 403 and changes nothing, as soon as
    the verifier refuses the text [undefined]. *)
Theorem login_view_drops_token (P : Platform)
    (jwt_verify : string → option User) (w w' : World) (token : string)
    (user : TokenPayload) (req : Request) (r : Reply) :
  jwt_verify "undefined" = None →
  authorization req = Some (authorization_of (login_response token user)) →
  serve P jwt_verify w req = Some (w', r) →
  authorization_of (login_response token user) = "Bearer undefined"
  ∧ w' = w
  ∧ r = Resp (Error 403 "Forbidden").
Proof.
  intros Hno Hauth Hrun. split; [ reflexivity | ].
  apply (serve_refused P jwt_verify w req _ w' r); [ | exact Hrun ].
  rewrite Hauth. change (authorization_of (login_response token user))
    with (bearer "undefined").
  assert (Hsp : " "%char ∉ list_ascii_of_string "undefined")
    by (apply (bool_decide_unpack _); by vm_compute).
  destruct (bearer_parts "undefined" Hsp) as [Hp Hs].
  unfold authenticateJWT. rewrite Hp, Hs. simpl. by rewrite Hno.
Qed.

Lemma login_view_drops_token_witness :
  serve ref_platform sample_token_verify seeded_store
    (json_request GET ["clients"]
       (Some (authorization_of
                (login_response "user1.agent"
                   {| payload_user_id := "user1";
                      payload_name := "Alice Agent";
                      payload_role := "agent" |}))) ∅)
  = Some (seeded_store, Resp (Error 403 "Forbidden")).
Proof.
  destruct (serve ref_platform sample_token_verify seeded_store _)
    as [[w' r]|] eqn:Hrun;
    [ | exfalso; vm_compute in Hrun; discriminate Hrun ].
  destruct (login_view_drops_token ref_platform sample_token_verify
              seeded_store w' "user1.agent"
              {| payload_user_id := "user1"; payload_name := "Alice Agent";
                 payload_role := "agent" |}
              (json_request GET ["clients"]
                 (Some (authorization_of
                          (login_response "user1.agent"
                             {| payload_user_id := "user1";
                                payload_name := "Alice Agent";
                                payload_role := "agent" |}))) ∅)
              r eq_refl eq_refl Hrun)
    as (_ & -> & ->).
  reflexivity.
Defined.

(** ** The constraints of the log tables *)

Section LogConstraints.
Context (P : Platform).

Lemma bump_logs_ok db : logs_ok db → logs_ok (bump_logs db).
Proof. by intros (Hs & Hc). Qed.

Lemma insert_communication_logs_ok db row db1 :
  insert_communication P db row = Some db1 → logs_ok db → logs_ok db1.
Proof.
  intros I (Hs & Hnd & Hfk & Hact).
  destruct (insert_communication_Some P _ _ _ I)
    as (-> & _ & Hfresh & Hcl & Hby).
  split; [ done | ]. simpl.
  rewrite fmap_app. split; [ | split; [ | done ] ].
  - apply NoDup_app. split; [ done | ]. split; [ | apply NoDup_singleton ].
    intros x Hx Hin. apply list_elem_of_singleton in Hin as ->. done.
  - intros r Hr. apply elem_of_app in Hr as [Hr|Hr]; [ by apply Hfk | ].
    by apply list_elem_of_singleton in Hr as ->.
Qed.

Lemma communications_create_ok db user id body :
  logs_ok db → logs_ok (communications_create P db user id body).1.
Proof.
  intros Hok. unfold communications_create.
  destruct (createCommunicationsLogInputSchema P body) as [input|]; [ | done ].
  cbv zeta. destruct (insert_communication P db _) as [db1|] eqn:I;
    [ | by apply bump_logs_ok ].
  pose proof (insert_communication_logs_ok _ _ _ I Hok) as Hok1.
  destruct (communicationsLogEntitySchema P _); by apply bump_logs_ok.
Qed.

Lemma update_communications_ok db id u :
  communication_keys_known db u = true →
  logs_ok db → logs_ok (update_communications P db id u).1.
Proof.
  intros Hk (Hs & Hnd & Hfk & Hact). unfold update_communications.
  split; [ done | ]. simpl. split; [ | split; [ | done ] ].
  - rewrite <- list_fmap_compose.
    assert (Hids : ∀ l : list CommunicationRow,
              (log_id ∘ (λ r, if bool_decide (log_id r = id)
                              then update_communication_row P u
                                     (current_timestamp P (tick (store db))) r
                              else r)) <$> l = log_id <$> l).
    { intros l. apply list_fmap_ext. intros i x _. simpl.
      by case_bool_decide. }
    by rewrite Hids.
  - intros r (x & -> & Hx)%list_elem_of_fmap.
    destruct (Hfk x Hx) as [Hc Hb].
    case_bool_decide; [ | done ]. simpl.
    apply andb_true_iff in Hk as [Hk1 Hk2]. split.
    + destruct (CommunicationUpdate.client_id u); simpl; [ | done ].
      by apply bool_decide_eq_true in Hk1.
    + destruct (CommunicationUpdate.created_by u); simpl; [ | done ].
      by apply bool_decide_eq_true in Hk2.
Qed.

Lemma communications_update_ok db user id body :
  logs_ok db → logs_ok (communications_update P db user id body).1.
Proof.
  intros Hok. unfold communications_update.
  destruct (updateCommunicationsLogInputSchema P body) as [u|]; [ | done ].
  destruct (List.filter _ _) as [|x rest]; [ by apply bump_logs_ok | ].
  destruct (communication_keys_known db u) eqn:Hk; [ | done ].
  pose proof (update_communications_ok db id u Hk Hok) as Hok1.
  destruct (update_communications P db id u) as [db1 rows]. simpl in Hok1.
  destruct rows as [|row rows]; [ by apply bump_logs_ok | ].
  destruct (communicationsLogEntitySchema P row); by apply bump_logs_ok.
Qed.

Lemma insert_activity_logs_ok db row db1 :
  insert_activity P db row = Some db1 → logs_ok db → logs_ok db1.
Proof.
  intros I (Hs & Hnd & Hfk & Hnd' & Hact).
  destruct (insert_activity_Some P _ _ _ I) as (-> & Hfresh & Hu & Hcl).
  split; [ done | ]. split; [ done | ]. split; [ done | ]. simpl.
  rewrite fmap_app. split.
  - apply NoDup_app. split; [ done | ]. split; [ | apply NoDup_singleton ].
    intros x Hx Hin. apply list_elem_of_singleton in Hin as ->. done.
  - intros r Hr. apply elem_of_app in Hr as [Hr|Hr]; [ by apply Hact | ].
    by apply list_elem_of_singleton in Hr as ->.
Qed.

Lemma activity_create_ok db user body :
  logs_ok db → logs_ok (activity_create P db user body).1.
Proof.
  intros Hok. unfold activity_create.
  destruct (createActivityLogInputSchema P body) as [input|]; [ | done ].
  cbv zeta. destruct (insert_activity P db _) as [db1|] eqn:I;
    [ | by apply bump_logs_ok ].
  pose proof (insert_activity_logs_ok _ _ _ I Hok) as Hok1.
  destruct (activityLogEntitySchema P _); by apply bump_logs_ok.
Qed.

(** The logs stay within their constraints while the store grows. *)
Lemma grows_logs_ok db w' :
  grows (store db) w' → logs_ok db → logs_ok (set_store db w').
Proof.
  intros (Hu & Hpre & _ & Hk) (Hs & Hnd & Hfk & Hnd' & Hact).
  assert (Hsub : ∀ c, c ∈ client_id <$> clients (store db) →
                      c ∈ client_id <$> clients w').
  { intros c Hc. destruct Hpre as [k ->]. apply elem_of_app. by left. }
  split; [ by apply Hk | ]. simpl. rewrite Hu.
  split; [ done | ]. split; [ | split; [ done | ] ].
  - intros r Hr. destruct (Hfk r Hr). auto.
  - intros r Hr. destruct (Hact r Hr) as [H1 H2]. split; [ done | ].
    intros c Hc. auto.
Qed.

End LogConstraints.

(** X28. The log tables stay within their constraints: if the primary
    and foreign keys of the store and of both logs hold, they hold
    after each of the handlers that write a log, whatever the request,
    and after every request to a client route, since no client is ever
    removed from the store and the users are untouched. *)
Theorem logs_keep_constraints (P : Platform)
    (jwt_verify : string → option User) (db : Logs) :
  logs_ok db →
  (∀ user id body, logs_ok (communications_create P db user id body).1)
  ∧ (∀ user id body, logs_ok (communications_update P db user id body).1)
  ∧ (∀ user body, logs_ok (activity_create P db user body).1)
  ∧ (∀ req w' r,
       serve P jwt_verify (store db) req = Some (w', r) →
       logs_ok (set_store db w')).
Proof.
  intros Hok. split; [ | split; [ | split ] ].
  - intros user id body. by apply communications_create_ok.
  - intros user id body. by apply communications_update_ok.
  - intros user body. by apply activity_create_ok.
  - intros req w' r Hrun. apply grows_logs_ok; [ | done ].
    by apply (serve_grows P jwt_verify _ _ req r).
Qed.

Lemma seeded_logs_ok : logs_ok seeded_logs.
Proof.
  split; [ apply seeded_store_ok | ].
  split; [ apply (bool_decide_unpack _); by vm_compute | ].
  split.
  { intros r Hr. simpl in Hr.
    repeat (apply elem_of_cons in Hr as [->|Hr]);
      try (by apply elem_of_nil in Hr);
      split; apply (bool_decide_unpack _); by vm_compute. }
  split; [ apply (bool_decide_unpack _); by vm_compute | ].
  intros r Hr. simpl in Hr.
  repeat (apply elem_of_cons in Hr as [->|Hr]);
    try (by apply elem_of_nil in Hr);
    (split; [ apply (bool_decide_unpack _); by vm_compute | ]);
    intros c Hc; simpl in Hc; try done; injection Hc as <-;
    apply (bool_decide_unpack _); by vm_compute.
Qed.

Lemma logs_keep_constraints_witness :
  logs_ok (communications_create iso_platform seeded_logs bob "client4"
             note_body).1
  ∧ length (communications_log
              (communications_create iso_platform seeded_logs bob "client4"
                 note_body).1) = 3%nat.
Proof.
  destruct (logs_keep_constraints iso_platform sample_verify seeded_logs
              seeded_logs_ok) as (Hcreate & _).
  split; [ exact (Hcreate bob "client4" note_body) | ].
  vm_compute. reflexivity.
Defined.

(** ** POST /clients/:client_id/attachments *)

(** X29. An upload is never answered 201 when the URL check refuses a
    path under [/attachments/], which is what the handler stores: every
    upload of a file is answered 404, 403 or 500, and when the caller
    may write to the client, the database is reached, the identifier is
    fresh and the caller is a known user, the attachment is stored
    under the caller's name and the answer is 500 all the same. *)
Theorem upload_never_acknowledged (P : Platform) (w : World) (user : User)
    (id originalname filename : string) :
  is_url P ("/attachments/" +:+ filename) = false →
  let run := attachments_create P w user id (Some (originalname, filename)) in
  (run.2 = Error 404 "Client not found" ∨ run.2 = Error 403 "Forbidden"
   ∨ run.2 = ServerError)
  ∧ (∀ c rest,
       select_live_client w id = c :: rest →
       foreign_to_agent user c = false →
       db_up P (tick w) = true →
       uuidv4 P (tick w) ∉ attachment_id <$> client_attachments w →
       user_id user ∈ users w →
       run.2 = ServerError
       ∧ ∃ row, client_attachments run.1
                = (client_attachments w ++ [row])%list
                ∧ att_client_id row = id
                ∧ uploaded_by row = user_id user
                ∧ file_name row = originalname
                ∧ file_url row = "/attachments/" +:+ filename).
Proof.
  intros Hurl run. subst run. unfold attachments_create.
  destruct (select_live_client w id) as [|c rest] eqn:Hsel;
    [ split; [ by left | done ] | ].
  destruct (foreign_to_agent user c) eqn:Hf.
  { split; [ right; by left | ]. intros c' rest' [= <- <-] Hno. congruence. }
  cbv zeta.
  assert (Hrow : ∀ uid now,
            clientAttachmentEntitySchema P
              {| attachment_id := uid; att_client_id := id;
                 uploaded_by := user_id user; file_name := originalname;
                 file_url := "/attachments/" +:+ filename;
                 uploaded_at := now |} = None).
  { intros uid now. unfold clientAttachmentEntitySchema. simpl.
    by rewrite Hurl. }
  rewrite Hrow. split.
  - right. right. by destruct (insert_attachment P w _).
  - intros c' rest' _ _ Hup Hfresh Hu.
    assert (Hcl : id ∈ client_id <$> clients w).
    { assert (Hc : c ∈ select_live_client w id) by (rewrite Hsel; left).
      apply select_live_client_elem in Hc as (Hin & <- & _).
      by apply list_elem_of_fmap_2. }
    unfold insert_attachment. simpl. rewrite Hup.
    rewrite !bool_decide_eq_true_2 by done. simpl.
    split; [ done | ]. eexists. split; [ reflexivity | done ].
Qed.

Lemma upload_never_acknowledged_witness :
  let run := attachments_create iso_platform seeded_store alice "client1"
               (Some ("deed.pdf", "0001-deed.pdf")) in
  run.2 = ServerError ∧ length (client_attachments run.1) = 1%nat.
Proof.
  intros run.
  destruct (upload_never_acknowledged iso_platform seeded_store alice
              "client1" "deed.pdf" "0001-deed.pdf" eq_refl) as [_ Hstored].
  destruct (Hstored
              (seed_client "client1" "John Doe" "john.doe@example.com"
                 "2023-10-05T15:00:00Z" (Some "user1") None) [])
    as (Hr & row & Hrows & _).
  - reflexivity.
  - reflexivity.
  - reflexivity.
  - apply (bool_decide_unpack _). by vm_compute.
  - apply (bool_decide_unpack _). by vm_compute.
  - split; [ exact Hr | ]. subst run. rewrite Hrows. reflexivity.
Defined.
